(** * Cardinal plugin: block processing and patch-state persistence

    A shallow embedding of [src/CardinalPlugin.cpp] (class [CardinalPlugin]:
    constructor, [getParameterValue], [setParameterValue], [getState],
    [setState], [activate], [deactivate], [run]) and of
    [CardinalPluginContext::writeMidiMessage] from [src/CardinalCommon.cpp],
    with the properties the specification states about them and further
    properties of the code.

    Conventions.
    - Unsigned machine integers are [Z] with the wrap-around written out
      ([u64], [u32], [u8]).
    - Pointers are addresses in [Z]; [nullptr] is [0].  Sample buffers and
      pointer arrays live in a shared store indexed by the address of their
      first element, so two pointers that are equal designate the same cells.
    - Floating point values are kept abstract ([FloatOps]); no property
      below depends on their arithmetic.
    - The Rack engine, the file system and the C library are collaborators
      outside the sources; they are an interface ([Collaborators]) the plugin
      code is parametric in. *)

From stdpp Require Import gmap strings list fin_maps pretty.
From Stdlib Require Import ZArith.
From Stdlib.Strings Require Byte.

Local Open Scope Z_scope.

(** ** Machine integers *)

Definition u64 (z : Z) : Z := z mod 2 ^ 64.
Definition u32 (z : Z) : Z := z mod 2 ^ 32.
Definition u8 (z : Z) : Z := z mod 2 ^ 8.

Definition is_u64 (z : Z) : Prop := 0 ≤ z < 2 ^ 64.

(** [d_isDiffHigherThanLimit<uint64_t>]:
    [v1 != v2 ? (v1 > v2 ? v1 - v2 : v2 - v1) > limit : false] *)
Definition d_isDiffHigherThanLimit (v1 v2 limit : Z) : bool :=
  if negb (v1 =? v2)
  then (if v2 <? v1 then u64 (v1 - v2) else u64 (v2 - v1)) >? limit
  else false.

(** ** Floating point, kept abstract *)

Class FloatOps := {
  sample : Type;                 (* float *)
  zero_sample : sample;          (* the all-zero bit pattern, +0.0f *)
  double : Type;
  d_of_Z : Z → double;
  d_mul : double → double → double;
  d_div : double → double → double;
  d_fmod : double → double → double;
}.

(** ** Data *)

(** DPF's [MidiEvent]: [kDataSize] is 4. *)
Record MidiEvent := {
  ev_frame : Z;
  ev_size : Z;
  ev_data : list Z;
  ev_dataExt : Z;
}.

Global Instance MidiEvent_eq_dec : EqDecision MidiEvent.
Proof. solve_decision. Defined.

Section WithFloats.
Context `{FloatOps}.

Record BarBeatTick := {
  bbt_valid : bool;
  bbt_bar : Z;
  bbt_beat : Z;
  bbt_tick : double;
  bbt_barStartTick : double;
  bbt_beatsPerBar : double;
  bbt_beatType : double;
  bbt_ticksPerBeat : double;
  bbt_beatsPerMinute : double;
}.

Record TimePosition := {
  tp_playing : bool;
  tp_frame : Z;                  (* uint64_t *)
  tp_bbt : BarBeatTick;
}.

(** The fields of [CardinalPluginContext] that the two source files read or
    write. *)
Record Context := {
  bufferSize : Z;
  processCounter : Z;            (* uint32_t *)
  sampleRate : double;
  bypassed : bool;
  playing : bool;
  reset : bool;
  bbtValid : bool;
  bar : Z;
  beat : Z;
  beatsPerBar : double;
  beatType : double;
  frame : Z;                     (* uint64_t *)
  barStartTick : double;
  beatsPerMinute : double;
  tick : double;
  tickClock : double;
  ticksPerBeat : double;
  ticksPerClock : double;
  ticksPerFrame : double;
  dataIns : Z;                   (* const float* const* *)
  dataOuts : Z;                  (* float** *)
  midiEvents : list MidiEvent;   (* the array the pointer designates; nullptr is [] *)
  midiEventCount : Z;
}.

(** The members of [CardinalPlugin] used by the modelled methods. *)
Record Plugin := {
  context : Context;
  fAudioBufferCopy : Z;          (* float** *)
  fAutosavePath : string;
  fNextExpectedFrame : Z;        (* uint64_t *)
  fState_comment : string;
  fState_screenshot : string;
  fState_windowSize : string;
  fWasBypassed : bool;
  bypassMidiEvents : list MidiEvent;
}.

(** Memory shared between host, plugin and engine. *)
Record Mem := {
  samples : gmap Z (list sample);   (* float buffers, by address *)
  parrays : gmap Z (list Z);        (* arrays of buffer pointers, by address *)
}.

(** Build configuration: the preprocessor symbols the methods branch on. *)
Record Config := {
  NUM_INPUTS : nat;              (* DISTRHO_PLUGIN_NUM_INPUTS *)
  NUM_OUTPUTS : nat;             (* DISTRHO_PLUGIN_NUM_OUTPUTS *)
  VARIANT_MAIN : bool;           (* CARDINAL_VARIANT_MAIN *)
  HEADLESS : bool;
  HAVE_LIBLO : bool;
}.

End WithFloats.

(** ** The audio thread: [CardinalPlugin::run] *)

Section Run.
Context `{FloatOps}.
Variable cfg : Config.

(** The engine collaborator: [context->engine->stepBlock(frames)] reads the
    context and works on the shared memory and on its own state. *)
Variable Engine : Type.
Variable stepBlock : Z → Context → Mem * Engine → Mem * Engine.

(** *** Memory primitives.  [None] is an access the language leaves
    undefined: a null or dangling pointer, or a range past the buffer. *)

Definition load_ptr (m : Mem) (arr : Z) (i : nat) : option Z :=
  if decide (arr = 0) then None else parrays m !! arr ≫= (.!! i).

Definition load_buf (m : Mem) (p : Z) (n : nat) : option (list sample) :=
  if decide (p = 0) then None
  else buf ← samples m !! p;
       if decide (n ≤ length buf)%nat then Some (take n buf) else None.

Definition store_buf (m : Mem) (p : Z) (new : list sample) : option Mem :=
  if decide (p = 0) then None
  else buf ← samples m !! p;
       if decide (length new ≤ length buf)%nat
       then Some {| samples := <[p := new ++ drop (length new) buf]> (samples m);
                    parrays := parrays m |}
       else None.

(** [std::memcpy(dst, src, sizeof(float)*n)] *)
Definition memcpy (dst src : Z) (n : nat) (m : Mem) : option Mem :=
  new ← load_buf m src n; store_buf m dst new.

(** [std::memset(dst, 0, sizeof(float)*n)] *)
Definition memset0 (dst : Z) (n : nat) (m : Mem) : option Mem :=
  store_buf m dst (replicate n zero_sample).

(** [for (int i=0; i<n; ++i) body(i)] over the memory. *)
Fixpoint for_each (idx : list nat) (body : nat → Mem → option Mem) (m : Mem)
  : option Mem :=
  match idx with
  | [] => Some m
  | i :: rest => m' ← body i m; for_each rest body m'
  end.

Definition for_range (n : nat) := for_each (seq 0 n).

(** *** The transport block (the first braces of [run]) *)

Definition transport_reset (p : Plugin) (timePos : TimePosition) : bool :=
  let reset :=
    tp_playing timePos
    && ((tp_frame timePos =? 0)
        || d_isDiffHigherThanLimit (fNextExpectedFrame p) (tp_frame timePos) 2) in
  (* ignore hosts which cannot supply time frame position *)
  if eqb (playing (context p)) (tp_playing timePos)
     && (tp_frame timePos =? 0) && (frame (context p) =? 0)
  then false else reset.

Definition next_expected_frame (timePos : TimePosition) (frames : Z) : Z :=
  if tp_playing timePos then u64 (tp_frame timePos + frames) else 0.

(** *** The buffer block *)

(** [inputs != outputs && (inputs == nullptr || inputs[0] != outputs[0])],
    with the short-circuit evaluation of the source. *)
Definition separate_buffers (m : Mem) (inputs outputs : Z) : option bool :=
  if bool_decide (inputs ≠ outputs)
  then if bool_decide (inputs = 0) then Some true
       else i0 ← load_ptr m inputs 0;
            o0 ← load_ptr m outputs 0;
            Some (bool_decide (i0 ≠ o0))
  else Some false.

Definition copy_input (inputs scratch : Z) (n : nat) (i : nat) (m : Mem)
  : option Mem :=
  src ← load_ptr m inputs i;
  (* can be null on main variant *)
  if VARIANT_MAIN cfg && bool_decide (src = 0) then Some m
  else dst ← load_ptr m scratch i; memcpy dst src n m.

Definition clear_output (outputs : Z) (n : nat) (i : nat) (m : Mem)
  : option Mem :=
  dst ← load_ptr m outputs i;
  (* can be null on main variant *)
  if VARIANT_MAIN cfg && bool_decide (dst = 0) then Some m
  else memset0 dst n m.

(** The two paths; the result is [(dataIns, dataOuts, memory)]. *)
Definition select_buffers (p : Plugin) (m : Mem) (inputs outputs : Z) (n : nat)
  : option (Z * Z * Mem) :=
  sep ← separate_buffers m inputs outputs;
  if sep : bool then
    (* separate buffers, use them *)
    Some (inputs, outputs, m)
  else
    (* inline processing, use a safe copy *)
    match NUM_INPUTS cfg with
    | O => Some (0, outputs, m)
    | _ => m' ← for_range (NUM_INPUTS cfg)
                    (copy_input inputs (fAudioBufferCopy p) n) m;
           Some (fAudioBufferCopy p, outputs, m')
    end.

(** *** The bypass block: which events the engine is handed *)

Definition select_midi (p : Plugin) (bypassed : bool)
    (midiEvents : list MidiEvent) (midiEventCount : Z) : list MidiEvent * Z :=
  if bypassed then
    if negb (eqb (fWasBypassed p) bypassed)
    then (bypassMidiEvents p, 16)
    else ([], 0)
  else (midiEvents, midiEventCount).

(** *** [run], up to the call of the engine.  The first statement,
    [rack::contextSet(context)], binds the engine's ambient context and
    touches nothing that is modelled here. *)

Definition run_prepare (p : Plugin) (m : Mem) (timePos : TimePosition)
    (inputs outputs : Z) (frames : Z)
    (midiEvents : list MidiEvent) (midiEventCount : Z) : option (Plugin * Mem) :=
  let c := context p in
  let bbt := tp_bbt timePos in
  let valid := bbt_valid bbt in
  let samplesPerTick :=
    d_div (d_div (d_mul (d_of_Z 60) (sampleRate c)) (bbt_beatsPerMinute bbt))
          (bbt_ticksPerBeat bbt) in
  let ticksPerClock' := d_div (bbt_ticksPerBeat bbt) (bbt_beatType bbt) in
  let n := Z.to_nat frames in
  '(ins, outs, m1) ← select_buffers p m inputs outputs n;
  m2 ← for_range (NUM_OUTPUTS cfg) (clear_output outputs n) m1;
  let '(evs, count) := select_midi p (bypassed c) midiEvents midiEventCount in
  Some ({| context := {|
             bufferSize := bufferSize c;
             processCounter := u32 (processCounter c + 1);
             sampleRate := sampleRate c;
             bypassed := bypassed c;
             playing := tp_playing timePos;
             reset := transport_reset p timePos;
             bbtValid := valid;
             bar := if valid then bbt_bar bbt else bar c;
             beat := if valid then bbt_beat bbt else beat c;
             beatsPerBar := if valid then bbt_beatsPerBar bbt else beatsPerBar c;
             beatType := if valid then bbt_beatType bbt else beatType c;
             frame := tp_frame timePos;
             barStartTick := if valid then bbt_barStartTick bbt else barStartTick c;
             beatsPerMinute := if valid then bbt_beatsPerMinute bbt else beatsPerMinute c;
             tick := if valid then bbt_tick bbt else tick c;
             tickClock := if valid then d_fmod (bbt_tick bbt) ticksPerClock'
                          else tickClock c;
             ticksPerBeat := if valid then bbt_ticksPerBeat bbt else ticksPerBeat c;
             ticksPerClock := if valid then ticksPerClock' else ticksPerClock c;
             ticksPerFrame := if valid then d_div (d_of_Z 1) samplesPerTick
                              else ticksPerFrame c;
             dataIns := ins;
             dataOuts := outs;
             midiEvents := evs;
             midiEventCount := count |};
           fAudioBufferCopy := fAudioBufferCopy p;
           fAutosavePath := fAutosavePath p;
           fNextExpectedFrame := next_expected_frame timePos frames;
           fState_comment := fState_comment p;
           fState_screenshot := fState_screenshot p;
           fState_windowSize := fState_windowSize p;
           fWasBypassed := fWasBypassed p;
           bypassMidiEvents := bypassMidiEvents p |}, m2).

Definition set_fWasBypassed (b : bool) (p : Plugin) : Plugin :=
  {| context := context p;
     fAudioBufferCopy := fAudioBufferCopy p;
     fAutosavePath := fAutosavePath p;
     fNextExpectedFrame := fNextExpectedFrame p;
     fState_comment := fState_comment p;
     fState_screenshot := fState_screenshot p;
     fState_windowSize := fState_windowSize p;
     fWasBypassed := b;
     bypassMidiEvents := bypassMidiEvents p |}.

(** [run]: prepare, [stepBlock], then [fWasBypassed = bypassed]. *)
Definition run (p : Plugin) (m : Mem) (e : Engine) (timePos : TimePosition)
    (inputs outputs : Z) (frames : Z)
    (midiEvents : list MidiEvent) (midiEventCount : Z)
  : option (Plugin * Mem * Engine) :=
  '(p1, m1) ← run_prepare p m timePos inputs outputs frames midiEvents midiEventCount;
  let '(m2, e2) := stepBlock frames (context p1) (m1, e) in
  Some (set_fWasBypassed (bypassed (context p)) p1, m2, e2).

(** What [activate] establishes with [new float[bufferSize]]: each scratch
    buffer is an allocation of its own, apart from the other scratch buffers
    and from every buffer the host passes. *)
Definition scratch_separate (p : Plugin) (m : Mem) (inputs outputs : Z) : Prop :=
  ∀ i s, (i < NUM_INPUTS cfg)%nat →
    load_ptr m (fAudioBufferCopy p) i = Some s →
    (∀ j, (j < NUM_INPUTS cfg)%nat →
       load_ptr m (fAudioBufferCopy p) j = Some s → j = i)
    ∧ (∀ j, (j < NUM_INPUTS cfg)%nat → load_ptr m inputs j ≠ Some s)
    ∧ (∀ k, (k < NUM_OUTPUTS cfg)%nat → load_ptr m outputs k ≠ Some s).

(** [setParameterValue(kModuleParameters, value)], the host changing the
    bypass parameter between blocks: [context->bypassed = value > 0.5f], with
    [b] the outcome of the comparison. *)
Definition set_bypassed (b : bool) (p : Plugin) : Plugin :=
  let c := context p in
  {| context := {|
       bufferSize := bufferSize c; processCounter := processCounter c;
       sampleRate := sampleRate c; bypassed := b; playing := playing c;
       reset := reset c; bbtValid := bbtValid c; bar := bar c; beat := beat c;
       beatsPerBar := beatsPerBar c; beatType := beatType c; frame := frame c;
       barStartTick := barStartTick c; beatsPerMinute := beatsPerMinute c;
       tick := tick c; tickClock := tickClock c; ticksPerBeat := ticksPerBeat c;
       ticksPerClock := ticksPerClock c; ticksPerFrame := ticksPerFrame c;
       dataIns := dataIns c; dataOuts := dataOuts c;
       midiEvents := midiEvents c; midiEventCount := midiEventCount c |};
     fAudioBufferCopy := fAudioBufferCopy p;
     fAutosavePath := fAutosavePath p;
     fNextExpectedFrame := fNextExpectedFrame p;
     fState_comment := fState_comment p;
     fState_screenshot := fState_screenshot p;
     fState_windowSize := fState_windowSize p;
     fWasBypassed := fWasBypassed p;
     bypassMidiEvents := bypassMidiEvents p |}.

(** What the engine reads as channel [i] of its input during [stepBlock]. *)
Definition engine_input (c : Context) (m : Mem) (i : nat) (n : nat)
  : option (list sample) :=
  ptr ← load_ptr m (dataIns c) i; load_buf m ptr n.

End Run.

(** ** Buffers a block can be run on *)

Section Channels.
Context `{FloatOps}.

(** The address [a] holds at least [n] floats. *)
Definition holds (m : Mem) (n : nat) (a : Z) : Prop :=
  a ≠ 0 ∧ ∃ buf, samples m !! a = Some buf ∧ (n ≤ length buf)%nat.

(** The pointer array [arr] has [count] channels of at least [n] floats
    each; a channel may be null where [nullable] says so. *)
Definition channels (m : Mem) (n : nat) (arr : Z) (count : nat)
    (nullable : bool) : Prop :=
  ∀ i, (i < count)%nat →
    ∃ a, load_ptr m arr i = Some a ∧ (nullable = true ∧ a = 0 ∨ holds m n a).

(** The two memories have the same pointer arrays and buffers of the same
    lengths at the same addresses. *)
Definition same_shape (m1 m2 : Mem) : Prop :=
  parrays m1 = parrays m2
  ∧ ∀ a, length <$> samples m1 !! a = length <$> samples m2 !! a.

End Channels.

(** ** Activation: [activate] and [deactivate] *)

(** The allocator behind [new]: the address it returns when the addresses
    [used] are taken, and the indeterminate contents of [n] new floats.  A
    [new] that throws is left out. *)
Class Allocator `{FloatOps} := {
  new_address : gset Z → Z;
  uninitialised : nat → list sample;
}.

Section Activation.
Context `{Allocator}.
Variable cfg : Config.

Definition in_use (m : Mem) : gset Z := dom (samples m) ∪ dom (parrays m).

(** [new float[n]] *)
Definition new_floats (n : nat) (m : Mem) : Z * Mem :=
  let a := new_address (in_use m) in
  (a, {| samples := <[a := uninitialised n]> (samples m);
         parrays := parrays m |}).

(** [new float*[n]]; the indeterminate pointers are written as null, each
    is assigned before it is read. *)
Definition new_pointers (n : nat) (m : Mem) : Z * Mem :=
  let a := new_address (in_use m) in
  (a, {| samples := samples m;
         parrays := <[a := replicate n 0]> (parrays m) |}).

(** [fAudioBufferCopy[i] = new float[context->bufferSize]] *)
Definition allocate_copy (arr : Z) (n : nat) (i : nat) (m : Mem) : option Mem :=
  let '(b, m1) := new_floats n m in
  ptrs ← parrays m1 !! arr;
  if decide (i < length ptrs)%nat
  then Some {| samples := samples m1;
               parrays := <[arr := <[i := b]> ptrs]> (parrays m1) |}
  else None.

Definition set_activation (bufsize arr expected : Z) (p : Plugin) : Plugin :=
  let c := context p in
  {| context := {|
       bufferSize := bufsize; processCounter := processCounter c;
       sampleRate := sampleRate c; bypassed := bypassed c; playing := playing c;
       reset := reset c; bbtValid := bbtValid c; bar := bar c; beat := beat c;
       beatsPerBar := beatsPerBar c; beatType := beatType c; frame := frame c;
       barStartTick := barStartTick c; beatsPerMinute := beatsPerMinute c;
       tick := tick c; tickClock := tickClock c; ticksPerBeat := ticksPerBeat c;
       ticksPerClock := ticksPerClock c; ticksPerFrame := ticksPerFrame c;
       dataIns := dataIns c; dataOuts := dataOuts c;
       midiEvents := midiEvents c; midiEventCount := midiEventCount c |};
     fAudioBufferCopy := arr;
     fAutosavePath := fAutosavePath p;
     fNextExpectedFrame := expected;
     fState_comment := fState_comment p;
     fState_screenshot := fState_screenshot p;
     fState_windowSize := fState_windowSize p;
     fWasBypassed := fWasBypassed p;
     bypassMidiEvents := bypassMidiEvents p |}.

(** [activate]; [bufsize] is [getBufferSize()]. *)
Definition activate (bufsize : Z) (p : Plugin) (m : Mem)
  : option (Plugin * Mem) :=
  match NUM_INPUTS cfg with
  | O => Some (set_activation bufsize (fAudioBufferCopy p) 0 p, m)
  | _ =>
      let '(arr, m1) := new_pointers (NUM_INPUTS cfg) m in
      m2 ← for_range (NUM_INPUTS cfg) (allocate_copy arr (Z.to_nat bufsize)) m1;
      Some (set_activation bufsize arr 0 p, m2)
  end.

(** [delete[] a]: nothing for a null pointer, undefined for anything else
    that is not an allocation. *)
Definition delete_floats (a : Z) (m : Mem) : option Mem :=
  if decide (a = 0) then Some m
  else if decide (is_Some (samples m !! a))
       then Some {| samples := delete a (samples m); parrays := parrays m |}
       else None.

(** [delete[] fAudioBufferCopy[i]] *)
Definition free_copy (arr : Z) (i : nat) (m : Mem) : option Mem :=
  a ← load_ptr m arr i; delete_floats a m.

(** [deactivate] *)
Definition deactivate (p : Plugin) (m : Mem) : option (Plugin * Mem) :=
  match NUM_INPUTS cfg with
  | O => Some (p, m)
  | _ =>
      let arr := fAudioBufferCopy p in
      if decide (arr = 0) then Some (p, m)
      else
        m1 ← for_range (NUM_INPUTS cfg) (free_copy arr) m;
        if decide (is_Some (parrays m1 !! arr))
        then Some (set_activation (bufferSize (context p)) 0
                     (fNextExpectedFrame p) p,
                   {| samples := samples m1;
                      parrays := delete arr (parrays m1) |})
        else None
  end.

(** The memory [m'] is [m] with the pointer array [arr], holding the
    pointers [bs] and then [rest] null pointers, and with one buffer of [n]
    new floats behind each pointer of [bs]. *)
Definition scratch_allocated (n : nat) (m : Mem) (arr : Z) (bs : list Z)
    (rest : nat) (m' : Mem) : Prop :=
  arr ≠ 0 ∧ (arr ∉ in_use m) ∧ NoDup bs
  ∧ (∀ b, b ∈ bs → b ≠ 0 ∧ b ≠ arr ∧ b ∉ in_use m)
  ∧ parrays m' = <[arr := bs ++ replicate rest 0]> (parrays m)
  ∧ ∀ a, samples m' !! a
         = if decide (a ∈ bs) then Some (uninitialised n) else samples m !! a.

End Activation.

(** ** Parameters: [getParameterValue] and [setParameterValue] *)

(** The constants [kModuleParameters] and [kWindowParameterCount], whose
    headers are not part of the sources, the literal [1.0f], and the
    comparison [value > 0.5f]. *)
Class ParameterOps `{FloatOps} := {
  kModuleParameters : Z;
  kWindowParameterCount : Z;
  one_sample : sample;
  above_half : sample → bool;
}.

Section Parameters.
Context `{ParameterOps}.
Variable cfg : Config.

(** The instance with the two parameter arrays: [context->parameters] (kept
    beside the context record) and [fWindowParameters]. *)
Record Parameterised := {
  instance : Plugin;
  parameters : list sample;
  fWindowParameters : list sample;
}.

(** The number of window parameters the two functions reach: the window
    branch is compiled out of a headless build. *)
Definition window_parameters : Z :=
  if HEADLESS cfg then 0 else kWindowParameterCount.

(** [None] is a read outside the array. *)
Definition getParameterValue (s : Parameterised) (index : Z) : option sample :=
  (* host mapped parameters *)
  if index <? kModuleParameters then parameters s !! Z.to_nat index
  (* bypass *)
  else if index =? kModuleParameters then
    Some (if bypassed (context (instance s)) then one_sample else zero_sample)
  else if HEADLESS cfg then Some zero_sample
  else
    (* window related parameters *)
    let index := u32 (index - (kModuleParameters + 1)) in
    if index <? kWindowParameterCount then fWindowParameters s !! Z.to_nat index
    else Some zero_sample.

(** [None] is a write outside the array. *)
Definition setParameterValue (s : Parameterised) (index : Z) (value : sample)
  : option Parameterised :=
  (* host mapped parameters *)
  if index <? kModuleParameters then
    if bool_decide (Z.to_nat index < length (parameters s))%nat
    then Some {| instance := instance s;
                 parameters := <[Z.to_nat index := value]> (parameters s);
                 fWindowParameters := fWindowParameters s |}
    else None
  (* bypass *)
  else if index =? kModuleParameters then
    Some {| instance := set_bypassed (above_half value) (instance s);
            parameters := parameters s;
            fWindowParameters := fWindowParameters s |}
  else if HEADLESS cfg then Some s
  else
    (* window related parameters *)
    let index := u32 (index - (kModuleParameters + 1)) in
    if index <? kWindowParameterCount then
      if bool_decide (Z.to_nat index < length (fWindowParameters s))%nat
      then Some {| instance := instance s;
                   parameters := parameters s;
                   fWindowParameters :=
                     <[Z.to_nat index := value]> (fWindowParameters s) |}
      else None
    else Some s.

(** The arrays have the sizes of their declarations, and the parameter
    indices fit the 32 bits of [index]. *)
Definition well_sized (s : Parameterised) : Prop :=
  0 ≤ kModuleParameters ∧ 0 ≤ kWindowParameterCount
  ∧ kModuleParameters + kWindowParameterCount + 1 < 2 ^ 32
  ∧ Z.of_nat (length (parameters s)) = kModuleParameters
  ∧ Z.of_nat (length (fWindowParameters s)) = kWindowParameterCount.

(** What reading a parameter back gives: the value written, except for the
    bypass parameter, which reads as 1 or 0. *)
Definition stored (index : Z) (value : sample) : sample :=
  if index =? kModuleParameters
  then if above_half value then one_sample else zero_sample
  else value.

End Parameters.

(** ** Construction of the bypass events *)

Definition zero_event : MidiEvent :=
  {| ev_frame := 0; ev_size := 0; ev_data := [0; 0; 0; 0]; ev_dataExt := 0 |}.

(** The body of [for (uint8_t i=0; i<16; ++i)] in the constructor. *)
Definition init_bypass_event (evs : list MidiEvent) (i : nat) : list MidiEvent :=
  alter (λ ev, {| ev_frame := ev_frame ev;
                   ev_size := 3;
                   ev_data := <[1%nat := 0x7B]>
                                (<[0%nat := u8 (0xB0 + Z.of_nat i)]> (ev_data ev));
                   ev_dataExt := ev_dataExt ev |}) i evs.

(** [std::memset(bypassMidiEvents, 0, sizeof(bypassMidiEvents))] and the loop. *)
Definition initBypassMidiEvents : list MidiEvent :=
  foldl init_bypass_event (replicate 16 zero_event) (seq 0 16).

(** The event the specification describes for channel [ch]. *)
Definition all_sound_off (ch : Z) : MidiEvent :=
  {| ev_frame := 0; ev_size := 3; ev_data := [0xB0 + ch; 0x7B; 0; 0];
     ev_dataExt := 0 |}.

(** ** [CardinalPluginContext::writeMidiMessage] *)

(** [rack::midi::Message] *)
Record Message := {
  msg_bytes : list Z;            (* std::vector<uint8_t> *)
  msg_frame : Z;                 (* int64_t *)
}.

(** The size the status byte asks for; [None] is one of the two plain
    [return]s ("unsupported", "invalid"). *)
Definition event_size (status : Z) : option Z :=
  let hi := Z.land status 0xF0 in
  if bool_decide (hi ∈ [0x80; 0x90; 0xA0; 0xB0; 0xE0]) then Some 3
  else if bool_decide (hi ∈ [0xC0; 0xD0]) then Some 2
  else if bool_decide (hi = 0xF0) then
    let lo := Z.land status 0x0F in
    if bool_decide (lo ∈ [0x0; 0x4; 0x5; 0x7; 0x9; 0xD]) then None
    else if bool_decide (lo ∈ [0x1; 0x2; 0x3; 0xE]) then Some 3
    else Some 1
  else None.

Section WriteMidi.
Context `{FloatOps}.

(** [uninit] is the indeterminate value of the local [MidiEvent event;].
    The result is the events handed to [plugin->writeMidiEvent] and the
    conditions reported by [DISTRHO_SAFE_ASSERT_RETURN]. *)
Definition writeMidiMessage (c : Context) (uninit : MidiEvent)
    (message : Message) (channel : Z) : list MidiEvent * list string :=
  if bypassed c then ([], [])
  else
    let size := Z.of_nat (length (msg_bytes message)) in
    if negb (size >? 0) then ([], ["size > 0"])
    else if negb (msg_frame message >=? 0) then ([], ["message.frame >= 0"])
    else
      match event_size (default 0 (msg_bytes message !! 0%nat)) with
      | None => ([], [])
      | Some esize =>
          if negb (size >=? esize) then ([], ["size >= event.size"])
          else
            let k := Z.to_nat esize in
            let data := take k (msg_bytes message) ++ drop k (ev_data uninit) in
            let d0 := default 0 (data !! 0%nat) in
            let data' :=
              if negb (channel =? 0) && (d0 <? 0xF0)
              then <[0%nat := Z.lor d0 (Z.land channel 0x0F)]> data
              else data in
            ([{| ev_frame := u32 (msg_frame message);
                 ev_size := esize;
                 ev_data := data';
                 ev_dataExt := ev_dataExt uninit |}], [])
      end.

End WriteMidi.

(** ** The control path: collaborators, effects and exceptions *)

Abbreviation byte := Byte.byte.

(** The outcome of a call that may throw; [catch (...)] never looks at the
    exception, so it carries none. *)
Inductive result (A : Type) : Type :=
  | Ok (a : A)
  | Raised.
Arguments Ok {A} a.
Arguments Raised {A}.

(** The collaborators of the control path, over their own state [Ext] (the
    disk, the engine, the patch manager).  None of them is part of the two
    source files. *)
Class Collaborators (Ext : Type) := {
  (* rack::system *)
  getTempDirectory : Ext → result string;
  join : string → string → string;
  sys_exists : string → Ext → result bool;
  createDirectories : string → Ext → Ext * result bool;
  removeRecursively : string → Ext → Ext * result Z;
  archiveDirectory : string → Z → Ext → Ext * result (list byte);
  unarchiveToDirectory : list byte → string → Ext → Ext * result unit;
  (* <cstdio>; [File] is what FILE* designates, [None] the null pointer *)
  File : Type;
  fopen : string → string → Ext → Ext * option File;
  fwrite : list byte → File → Ext → Ext;
  fclose : File → Ext → Ext;
  (* the engine and the patch manager *)
  prepareSave : Ext → Ext * result unit;
  saveAutosave : Ext → Ext * result unit;
  cleanAutosave : Ext → Ext * result unit;
  loadAutosave : Ext → Ext * result unit;
  (* the objects the constructor creates after the staging directory, and
     the template it loads, as one step; the argument is [fAutosavePath] *)
  createRackContext : string → Ext → Ext * result unit;
  (* rack::settings::moduleInfos as JSON; [None] is a null [json_t*] *)
  dumpModuleInfos : Ext → option string;
  loadModuleInfos : string → Ext → option Ext;
  sendScreenshotToRemote : string → Ext → Ext;
  (* DPF's base64 codec *)
  asBase64 : list byte → string;
  d_getChunkFromBase64String : string → list byte;
  (* the byte found in memory right behind the elements of a vector; the
     language does not define this read *)
  past_the_end : list byte → byte;
}.

(** What the plugin asked of its collaborators, in order. *)
Inductive Event : Type :=
  | EvContextSet (bound : bool)          (* rack::contextSet(context / nullptr) *)
  | EvGetTempDirectory
  | EvExists (path : string)
  | EvCreateDirectories (path : string)
  | EvRemoveRecursively (path : string)
  | EvArchiveDirectory (path : string) (level : Z)
  | EvUnarchiveToDirectory (data : list byte) (path : string)
  | EvFopen (path mode : string)
  | EvFwrite (data : list byte)
  | EvFclose
  | EvPrepareSave
  | EvSaveAutosave
  | EvCleanAutosave
  | EvLoadAutosave
  | EvCreateRackContext (path : string)
  | EvDumpModuleInfos
  | EvLoadModuleInfos (json : string)
  | EvSendScreenshot (data : string)
  | EvSafeAssert (cond : string)         (* d_safe_assert *)
  | EvSafeException (what : string).     (* d_safe_exception *)

Global Instance byte_eq_dec : EqDecision byte := Byte.byte_eq_dec.

Global Instance Event_eq_dec : EqDecision Event.
Proof. solve_decision. Defined.

(** How a statement completes inside a function returning [R]. *)
Inductive completion (R A : Type) : Type :=
  | Normal (a : A)
  | Return (r : R)
  | Throw.
Arguments Normal {R A} a.
Arguments Return {R A} r.
Arguments Throw {R A}.

Section Effects.
Context {Ext : Type}.

Record World := {
  ext : Ext;
  trace : list Event;
}.

Definition M (R A : Type) : Type := World → World * completion R A.

Definition mret {R A} (a : A) : M R A := λ w, (w, Normal a).

Definition mbind {R A B} (m : M R A) (k : A → M R B) : M R B :=
  λ w, match m w with
       | (w', Normal a) => k a w'
       | (w', Return r) => (w', Return r)
       | (w', Throw) => (w', Throw)
       end.

Definition ret_ {R A} (r : R) : M R A := λ w, (w, Return r).

Definition emit {R} (e : Event) : M R unit :=
  λ w, ({| ext := ext w; trace := trace w ++ [e] |}, Normal tt).

(** A call that may throw and may change the collaborators' state. *)
Definition call {R A} (e : Event) (op : Ext → Ext * result A) : M R A :=
  λ w, let '(x, r) := op (ext w) in
       ({| ext := x; trace := trace w ++ [e] |},
        match r with Ok a => Normal a | Raised => Throw end).

(** A call that may throw and only reads. *)
Definition query {R A} (e : Event) (op : Ext → result A) : M R A :=
  call e (λ x, (x, op x)).

(** A call that cannot throw. *)
Definition call_c {R A} (e : Event) (op : Ext → Ext * A) : M R A :=
  call e (λ x, let '(x', a) := op x in (x', Ok a)).

(** [try { body } catch (...) { handler }] *)
Definition try_catch {R A} (body handler : M R A) : M R A :=
  λ w, match body w with
       | (w', Throw) => handler w'
       | other => other
       end.

(** [ScopedContext sc(this); body]: the destructor runs however [body]
    completes. *)
Definition scoped_context {R A} (body : M R A) : M R A :=
  λ w, let '(w1, _) := emit (R:=R) (EvContextSet true) w in
       let '(w2, c) := body w1 in
       let '(w3, _) := emit (R:=R) (EvContextSet false) w2 in
       (w3, c).

(** A whole function body: [return r] and falling off the end both return. *)
Definition function {R} (body : M R R) : World → World * result R :=
  λ w, match body w with
       | (w', Normal r) | (w', Return r) => (w', Ok r)
       | (w', Throw) => (w', Raised)
       end.

End Effects.

Arguments World : clear implicits.

Notation "x ←' m ; k" := (mbind m (λ x, k))
  (at level 20, m at level 100, k at level 200, right associativity,
   format "x  ←'  m ;  '/' k").
Notation "m ;;' k" := (mbind m (λ _, k))
  (at level 100, k at level 200, right associativity).

(** ** The control path: constructor, [getState], [setState] *)

Section Persistence.
Context `{FloatOps}.
Context {Ext : Type} `{Collaborators Ext}.
Variable cfg : Config.

(** Modelled from the spec: the macro [DISTRHO_SAFE_ASSERT_RETURN(cond, ret)]
    is DPF's and not in the sources; a blob that fails the length check is
    "rejected outright", so the macro reports the condition and returns
    [ret] when [cond] is false. *)
Definition SAFE_ASSERT_RETURN {R} (cond : bool) (text : string) (r : R)
  : M (Ext:=Ext) R unit :=
  if cond then mret tt else (emit (EvSafeAssert text) ;;' ret_ r).

(** Modelled from the spec: the macro [DISTRHO_SAFE_EXCEPTION_RETURN(msg, ret)]
    is DPF's and not in the sources; a failure is "caught, logged, and the
    call returns without raising further", so it is the handler
    [catch (...) { log; return ret; }]. *)
Definition SAFE_EXCEPTION_RETURN {R A} (msg : string) (r : R)
  : M (Ext:=Ext) R A :=
  emit (EvSafeException msg) ;;' ret_ r.

(** Modelled from the spec: the macro [DISTRHO_SAFE_EXCEPTION(msg)] is DPF's
    and not in the sources; construction "fails silently", so it is the
    handler [catch (...) { log; }]. *)
Definition SAFE_EXCEPTION {R} (msg : string) : M (Ext:=Ext) R unit :=
  emit (EvSafeException msg).

(** *** The staging directory *)

Fixpoint zeros (n : nat) : string :=
  match n with O => "" | S n' => String (Ascii.ascii_of_nat 48) (zeros n') end.

(** [std::snprintf(uidBuf, sizeof(uidBuf), "Cardinal.%04d", i)], for [0 ≤ i]. *)
Definition uidBuf (i : Z) : string :=
  let digits := pretty i in
  "Cardinal." +:+ zeros (4 - String.length digits) +:+ digits.

(** [for (int i=1;; ++i)], run for at most [fuel] rounds.  The value is the
    path to store in [fAutosavePath], if any; [None] is a loop that is still
    running when the fuel is spent. *)
Fixpoint find_unused {R} (fuel : nat) (tmp : string) (i : Z)
  : M (Ext:=Ext) R (option (option string)) :=
  match fuel with
  | O => mret None
  | S fuel' =>
      let trypath := join tmp (uidBuf i) in
      found ←' query (EvExists trypath) (sys_exists trypath);
      if negb found then
        created ←' call (EvCreateDirectories trypath) (createDirectories trypath);
        mret (Some (if created : bool then Some trypath else None))
      else find_unused fuel' tmp (i + 1)
  end.

(** The existence tests of [k] rounds of the loop, from candidate [i] on. *)
Definition exists_tests (tmp : string) (i : Z) (k : nat) : list Event :=
  (λ j, EvExists (join tmp (uidBuf j))) <$> seqZ i (Z.of_nat k).

(** The [try] block "create unique temporary path for this instance": the
    new value of [fAutosavePath], which starts empty. *)
Definition createAutosavePath (fuel : nat) : World Ext → World Ext * option string :=
  λ w,
    match try_catch (R:=unit)
            (tmp ←' query EvGetTempDirectory getTempDirectory;
             find_unused fuel tmp 1)
            (SAFE_EXCEPTION "create unique temporary path" ;;'
             mret (Some None)) w with
    | (w', Normal (Some set)) => (w', Some (default "" set))
    | (w', _) => (w', None)
    end.

(** The constructor.  [context0] is the context as the base class leaves it;
    [bufsize] and [rate] are [getBufferSize()] and [getSampleRate()]. *)
Definition CardinalPlugin (fuel : nat) (context0 : Context)
    (bufsize : Z) (rate : double)
  : World Ext → World Ext * option (result Plugin) :=
  λ w,
    match createAutosavePath fuel w with
    | (w1, None) => (w1, None)
    | (w1, Some path) =>
        let c := {|
          bufferSize := bufsize;
          processCounter := processCounter context0;
          sampleRate := rate;
          bypassed := bypassed context0;
          playing := playing context0;
          reset := reset context0;
          bbtValid := bbtValid context0;
          bar := bar context0;
          beat := beat context0;
          beatsPerBar := beatsPerBar context0;
          beatType := beatType context0;
          frame := frame context0;
          barStartTick := barStartTick context0;
          beatsPerMinute := beatsPerMinute context0;
          tick := tick context0;
          tickClock := tickClock context0;
          ticksPerBeat := ticksPerBeat context0;
          ticksPerClock := ticksPerClock context0;
          ticksPerFrame := ticksPerFrame context0;
          dataIns := dataIns context0;
          dataOuts := dataOuts context0;
          midiEvents := midiEvents context0;
          midiEventCount := midiEventCount context0 |} in
        let p := {|
          context := c;
          fAudioBufferCopy := 0;
          fAutosavePath := path;
          fNextExpectedFrame := 0;
          fState_comment := "";
          fState_screenshot := "";
          fState_windowSize := "";
          fWasBypassed := false;
          bypassMidiEvents := initBypassMidiEvents |} in
        let '(w2, r) :=
          function
            (scoped_context
               (call (EvCreateRackContext path) (createRackContext path) ;;'
                mret p)) w1 in
        (w2, Some r)
    end.

(** *** [getState] *)

Definition getState (p : Plugin) (key : string)
  : World Ext → World Ext * result string :=
  function (
    (if negb (HEADLESS cfg) && bool_decide (key = "moduleInfos") then
       info ←' call_c EvDumpModuleInfos (λ x, (x, dumpModuleInfos x));
       match info with
       | None => emit (EvSafeAssert "rootJ != nullptr") ;;' ret_ ""
       | Some s => ret_ s
       end
     else mret tt) ;;'
    (if negb (HEADLESS cfg) && bool_decide (key = "windowSize")
     then ret_ (fState_windowSize p) else mret tt) ;;'
    (if bool_decide (key = "comment") then ret_ (fState_comment p) else mret tt) ;;'
    (if bool_decide (key = "screenshot") then ret_ (fState_screenshot p)
     else mret tt) ;;'
    (if bool_decide (key ≠ "patch") then ret_ "" else mret tt) ;;'
    (if bool_decide (fAutosavePath p = "") then ret_ "" else mret tt) ;;'
    data ←' scoped_context (
      call EvPrepareSave prepareSave ;;'
      call EvSaveAutosave saveAutosave ;;'
      call EvCleanAutosave cleanAutosave ;;'
      try_catch
        (call (EvArchiveDirectory (fAutosavePath p) 1)
              (archiveDirectory (fAutosavePath p) 1))
        (SAFE_EXCEPTION_RETURN "getState archiveDirectory" ""));
    mret (asBase64 data)).

(** *** [setState] *)

(** [static constexpr const char zstdMagic[] = "\x28\xb5\x2f\xfd";]: the
    array of the literal, whose last element is the terminating zero. *)
Definition zstdMagic : list byte :=
  [Byte.x28; Byte.xb5; Byte.x2f; Byte.xfd; Byte.x00].

(** [sizeof(zstdMagic)] *)
Definition sizeof_zstdMagic : nat := length zstdMagic.

(** [std::memcmp(a, b, n) != 0] *)
Definition memcmp_ne (a b : list byte) (n : nat) : bool :=
  bool_decide (take n a ≠ take n b).

(** [std::memcmp(data.data(), zstdMagic, sizeof(zstdMagic)) != 0]: the
    comparison reads [sizeof(zstdMagic)] bytes from the vector's storage. *)
Definition is_raw_document (data : list byte) : bool :=
  memcmp_ne (data ++ [past_the_end data]) zstdMagic sizeof_zstdMagic.

Definition set_fState (comment screenshot windowSize : string) (p : Plugin)
  : Plugin :=
  {| context := context p;
     fAudioBufferCopy := fAudioBufferCopy p;
     fAutosavePath := fAutosavePath p;
     fNextExpectedFrame := fNextExpectedFrame p;
     fState_comment := comment;
     fState_screenshot := screenshot;
     fState_windowSize := windowSize;
     fWasBypassed := fWasBypassed p;
     bypassMidiEvents := bypassMidiEvents p |}.

(** The value is the plugin after the call. *)
Definition setState (p : Plugin) (key value : string)
  : World Ext → World Ext * result Plugin :=
  function (
    (if negb (HEADLESS cfg) && bool_decide (key = "moduleInfos") then
       λ w, match loadModuleInfos value (ext w) with
            | None => (emit (EvLoadModuleInfos value) ;;'
                       emit (EvSafeAssert "rootJ != nullptr") ;;' ret_ p) w
            | Some x => ({| ext := x; trace := trace w ++ [EvLoadModuleInfos value] |},
                         Return p)
            end
     else mret tt) ;;'
    (if negb (HEADLESS cfg) && bool_decide (key = "windowSize")
     then ret_ (set_fState (fState_comment p) (fState_screenshot p) value p)
     else mret tt) ;;'
    (if bool_decide (key = "comment")
     then ret_ (set_fState value (fState_screenshot p) (fState_windowSize p) p)
     else mret tt) ;;'
    (if bool_decide (key = "screenshot") then
       (if HAVE_LIBLO cfg && negb (HEADLESS cfg)
        then call_c (EvSendScreenshot value)
                    (λ x, (sendScreenshotToRemote value x, tt))
        else mret tt) ;;'
       ret_ (set_fState (fState_comment p) value (fState_windowSize p) p)
     else mret tt) ;;'
    (if bool_decide (key ≠ "patch") then ret_ p else mret tt) ;;'
    (if bool_decide (fAutosavePath p = "") then ret_ p else mret tt) ;;'
    let data := d_getChunkFromBase64String value in
    SAFE_ASSERT_RETURN (bool_decide (4 ≤ length data)%nat) "data.size() >= 4" p ;;'
    call (EvRemoveRecursively (fAutosavePath p))
         (removeRecursively (fAutosavePath p)) ;;'
    call (EvCreateDirectories (fAutosavePath p))
         (createDirectories (fAutosavePath p)) ;;'
    (if is_raw_document data then
       let file := join (fAutosavePath p) "patch.json" in
       f ←' call_c (EvFopen file "w") (fopen file "w");
       match f with
       | None => emit (EvSafeAssert "f != nullptr") ;;' ret_ p
       | Some f =>
           call_c (EvFwrite data) (λ x, (fwrite data f x, tt)) ;;'
           call_c EvFclose (λ x, (fclose f x, tt))
       end
     else
       try_catch
         (call (EvUnarchiveToDirectory data (fAutosavePath p))
               (unarchiveToDirectory data (fAutosavePath p)))
         (SAFE_EXCEPTION_RETURN "setState unarchiveToDirectory" p)) ;;'
    scoped_context (
      try_catch
        (call EvLoadAutosave loadAutosave)
        (SAFE_EXCEPTION_RETURN "setState loadAutosave" p)) ;;'
    mret p).

End Persistence.

(** ** Observing the trace *)

(** Whether the engine's ambient context is bound after the events [log],
    when it was [before]: the last [rack::contextSet] decides. *)
Definition ambient (before : bool) (log : list Event) : bool :=
  foldl (λ b e, match e with EvContextSet b' => b' | _ => b end) before log.

(** An event other than [rack::contextSet]. *)
Definition quiet (e : Event) : Prop :=
  match e with EvContextSet _ => False | _ => True end.

(** The statement [m] leaves the ambient context unbound if it found it
    unbound. *)
Definition settles {Ext R A} (m : M (Ext:=Ext) R A) : Prop :=
  ∀ w, ambient false (trace w) = false → ambient false (trace (m w).1) = false.

(** ** A small instance of the collaborators, to run the model on *)

Module InMemory.

(** Samples and musical time as integers. *)
Definition int_floats : FloatOps :=
  {| sample := Z; zero_sample := 0; double := Z; d_of_Z := id;
     d_mul := Z.mul; d_div := Z.div; d_fmod := Z.rem |}.
#[local] Existing Instance int_floats.

(** A directory entry: a directory, or a file with its bytes. *)
Inductive Node := Dir | Reg (content : list byte).

Record Disk := {
  entries : list (string * Node);
  tmpdir : option string;        (* None: there is no temporary root *)
  can_create : bool;             (* whether directories can be created *)
  can_archive : bool;            (* whether archiving works *)
  loads : nat;                   (* how often the engine loaded a patch *)
}.

Definition with_entries (es : list (string * Node)) (d : Disk) : Disk :=
  {| entries := es; tmpdir := tmpdir d; can_create := can_create d;
     can_archive := can_archive d; loads := loads d |}.

Definition find (path : string) (d : Disk) : option Node :=
  snd <$> list_find (λ e, fst e = path) (entries d) ≫= (λ r, Some (snd r)).

Definition put (path : string) (n : Node) (d : Disk) : Disk :=
  with_entries ((path, n) :: filter (λ e, fst e ≠ path) (entries d)) d.

Definition container : list byte :=
  [Byte.x28; Byte.xb5; Byte.x2f; Byte.xfd; Byte.x00].

Definition disk_collaborators : Collaborators Disk :=
  {| getTempDirectory d :=
       match tmpdir d with Some t => Ok t | None => Raised end;
     join a b := a +:+ "/" +:+ b;
     sys_exists path d := Ok (bool_decide (is_Some (find path d)));
     createDirectories path d :=
       if can_create d then (put path Dir d, Ok true) else (d, Ok false);
     removeRecursively path d :=
       let keep := filter (λ e, String.prefix path (fst e) = false) (entries d) in
       (with_entries keep d,
        Ok (Z.of_nat (length (entries d)) - Z.of_nat (length keep)));
     archiveDirectory path _ d :=
       if can_archive d then
         (d, Ok (container ++
                 match find (path +:+ "/patch.json") d with
                 | Some (Reg bytes) => bytes
                 | _ => []
                 end))
       else (d, Raised);
     unarchiveToDirectory data path d :=
       if bool_decide (take 5 data = container)
       then (put (path +:+ "/patch.json") (Reg (drop 5 data)) d, Ok tt)
       else (d, Raised);
     File := string;
     fopen path _ d := (put path (Reg []) d, Some path);
     fwrite data f d :=
       match find f d with
       | Some (Reg old) => put f (Reg (old ++ data)) d
       | _ => d
       end;
     fclose _ d := d;
     prepareSave d := (d, Ok tt);
     saveAutosave d := (d, Ok tt);
     cleanAutosave d := (d, Ok tt);
     loadAutosave d :=
       ({| entries := entries d; tmpdir := tmpdir d; can_create := can_create d;
           can_archive := can_archive d; loads := S (loads d) |}, Ok tt);
     createRackContext _ d := (d, Ok tt);
     dumpModuleInfos _ := Some "{}";
     loadModuleInfos _ d := Some d;
     sendScreenshotToRemote _ d := d;
     asBase64 := String.string_of_list_byte;
     d_getChunkFromBase64String := String.list_byte_of_string;
     past_the_end _ := Byte.x00 |}.
#[local] Existing Instance disk_collaborators.

Definition empty_disk : Disk :=
  {| entries := [("/tmp", Dir)]; tmpdir := Some "/tmp"; can_create := true;
     can_archive := true; loads := 0 |}.

(** The FX variant: two audio inputs and two audio outputs. *)
Definition fx : Config :=
  {| NUM_INPUTS := 2; NUM_OUTPUTS := 2; VARIANT_MAIN := false;
     HEADLESS := false; HAVE_LIBLO := false |}.

Definition context0 : Context :=
  {| bufferSize := 0; processCounter := 0; sampleRate := 48000;
     bypassed := false; playing := false; reset := false; bbtValid := false;
     bar := 1; beat := 1; beatsPerBar := 4; beatType := 4; frame := 0;
     barStartTick := 0; beatsPerMinute := 120; tick := 0; tickClock := 0;
     ticksPerBeat := 0; ticksPerClock := 0; ticksPerFrame := 0;
     dataIns := 0; dataOuts := 0; midiEvents := []; midiEventCount := 0 |}.

Definition plugin0 : Plugin :=
  {| context := context0; fAudioBufferCopy := 0;
     fAutosavePath := "/tmp/Cardinal.0001"; fNextExpectedFrame := 0;
     fState_comment := ""; fState_screenshot := ""; fState_windowSize := "";
     fWasBypassed := false; bypassMidiEvents := initBypassMidiEvents |}.

Definition world (d : Disk) : World Disk := {| ext := d; trace := [] |}.

(** A block of two frames.  The pointer arrays: 100 holds the input
    pointers, 200 separate output pointers, 300 the scratch pointers, and 400
    output pointers whose second channel is the second input buffer. *)
Definition mem0 : Mem :=
  {| samples := list_to_map
       [(10, [1; 2]); (11, [3; 4]);      (* host inputs *)
        (20, [5; 6]); (21, [7; 8]);      (* host outputs *)
        (30, [0; 0]); (31, [0; 0])];     (* fAudioBufferCopy[0], [1] *)
     parrays := list_to_map
       [(100, [10; 11]); (200, [20; 21]); (300, [30; 31]); (400, [20; 11])] |}.

(** An engine that leaves memory alone. *)
Definition idle : Z → Context → Mem * unit → Mem * unit := λ _ _ s, s.

(** The plugin once activated, with its transport and bypass members set. *)
Definition active (expected : Z) (was_playing : bool) (last_frame : Z)
    (bypass was_bypassed : bool) : Plugin :=
  {| context := {|
       bufferSize := 2; processCounter := 0; sampleRate := 48000;
       bypassed := bypass; playing := was_playing; reset := false;
       bbtValid := false; bar := 1; beat := 1; beatsPerBar := 4; beatType := 4;
       frame := last_frame; barStartTick := 0; beatsPerMinute := 120;
       tick := 0; tickClock := 0; ticksPerBeat := 0; ticksPerClock := 0;
       ticksPerFrame := 0; dataIns := 0; dataOuts := 0; midiEvents := [];
       midiEventCount := 0 |};
     fAudioBufferCopy := 300;
     fAutosavePath := "/tmp/Cardinal.0001"; fNextExpectedFrame := expected;
     fState_comment := ""; fState_screenshot := ""; fState_windowSize := "";
     fWasBypassed := was_bypassed; bypassMidiEvents := initBypassMidiEvents |}.

Definition no_bbt : BarBeatTick :=
  {| bbt_valid := false; bbt_bar := 0; bbt_beat := 0; bbt_tick := 0;
     bbt_barStartTick := 0; bbt_beatsPerBar := 0; bbt_beatType := 0;
     bbt_ticksPerBeat := 0; bbt_beatsPerMinute := 0 |}.

Definition snapshot (is_playing : bool) (at_frame : Z) : TimePosition :=
  {| tp_playing := is_playing; tp_frame := at_frame; tp_bbt := no_bbt |}.

Definition note_on : MidiEvent :=
  {| ev_frame := 0; ev_size := 3; ev_data := [0x90; 60; 100; 0]; ev_dataExt := 0 |}.

(** One block on separate buffers. *)
Definition block (p : Plugin) (timePos : TimePosition) (evs : list MidiEvent)
  : option (Plugin * Mem * unit) :=
  run fx unit idle p mem0 tt timePos 100 200 2 evs (Z.of_nat (length evs)).

(** Disks: one on which the first candidate name is taken (it is the staging
    directory of [plugin0]), and the same with archiving out of order. *)
Definition staged_disk : Disk :=
  with_entries [("/tmp/Cardinal.0001", Dir); ("/tmp", Dir)] empty_disk.

Definition no_archive_disk : Disk :=
  {| entries := entries staged_disk; tmpdir := tmpdir staged_disk;
     can_create := true; can_archive := false; loads := 0 |}.

(** A zstd frame header whose descriptor byte (the byte after the signature)
    has the content-checksum flag set. *)
Definition checksummed_frame : list byte :=
  [Byte.x28; Byte.xb5; Byte.x2f; Byte.xfd; Byte.x04].

(** The preparation of a block processed in place (inputs and outputs are
    the same array), and of one whose second channel only is shared. *)
Definition in_place_block : option (Plugin * Mem) :=
  run_prepare fx (active 0 false 0 false false) mem0 (snapshot false 0)
    100 100 2 [] 0.

Definition shared_channel_block : option (Plugin * Mem) :=
  run_prepare fx (active 0 false 0 false false) mem0 (snapshot false 0)
    100 400 2 [] 0.

(** The two frames the engine reads from channel [i] after a preparation. *)
Definition engine_sees (r : option (Plugin * Mem)) (i : nat)
  : option (list Z) :=
  '(p1, m1) ← r; engine_input (context p1) m1 i 2.


(** *** Collaborators with one call out of order *)

Inductive Fault :=
  | RemoveThrows | CreateThrows | UnarchiveThrows | OpenFails | LoadThrows
  | PrepareThrows.

Global Instance Fault_eq_dec : EqDecision Fault.
Proof. solve_decision. Defined.

Definition with_fault {A} (f : Fault) (r : Disk * A) : (Disk * Fault) * A :=
  ((r.1, f), r.2).

(** The disk above beside the fault: the call the fault names throws (or, for
    [fopen], returns null) and leaves the disk alone, every other call is the
    disk's. *)
Definition faulty_collaborators : Collaborators (Disk * Fault) :=
  {| getTempDirectory x := getTempDirectory x.1;
     join := join (Ext:=Disk);
     sys_exists path x := sys_exists path x.1;
     createDirectories path x :=
       if decide (x.2 = CreateThrows) then (x, Raised)
       else with_fault x.2 (createDirectories path x.1);
     removeRecursively path x :=
       if decide (x.2 = RemoveThrows) then (x, Raised)
       else with_fault x.2 (removeRecursively path x.1);
     archiveDirectory path level x :=
       with_fault x.2 (archiveDirectory path level x.1);
     unarchiveToDirectory data path x :=
       if decide (x.2 = UnarchiveThrows) then (x, Raised)
       else with_fault x.2 (unarchiveToDirectory data path x.1);
     File := string;
     fopen path mode x :=
       if decide (x.2 = OpenFails) then (x, None)
       else with_fault x.2 (fopen path mode x.1);
     fwrite data f x := (fwrite (Ext:=Disk) data f x.1, x.2);
     fclose f x := (fclose (Ext:=Disk) f x.1, x.2);
     prepareSave x :=
       if decide (x.2 = PrepareThrows) then (x, Raised)
       else with_fault x.2 (prepareSave x.1);
     saveAutosave x := with_fault x.2 (saveAutosave x.1);
     cleanAutosave x := with_fault x.2 (cleanAutosave x.1);
     loadAutosave x :=
       if decide (x.2 = LoadThrows) then (x, Raised)
       else with_fault x.2 (loadAutosave x.1);
     createRackContext path x := with_fault x.2 (createRackContext path x.1);
     dumpModuleInfos x := dumpModuleInfos x.1;
     loadModuleInfos json x := (λ d, (d, x.2)) <$> loadModuleInfos json x.1;
     sendScreenshotToRemote data x := (sendScreenshotToRemote data x.1, x.2);
     asBase64 := asBase64 (Ext:=Disk);
     d_getChunkFromBase64String := d_getChunkFromBase64String (Ext:=Disk);
     past_the_end := past_the_end (Ext:=Disk) |}.

(** The staged disk with the call [f] out of order. *)
Definition faulty_world (f : Fault) : World (Disk * Fault) :=
  {| ext := (staged_disk, f); trace := [] |}.

(** *** Parameters and allocation on integers *)

(** Three module parameters and two window parameters; a sample is above
    0.5 when it is positive. *)
Definition int_parameters : ParameterOps :=
  {| kModuleParameters := 3; kWindowParameterCount := 2;
     one_sample := 1; above_half v := 0 <? v |}.

Definition parameterised0 : Parameterised :=
  {| instance := plugin0; parameters := [0; 0; 0]; fWindowParameters := [0; 0] |}.

(** An allocator that hands out an unused address other than 0 and fills
    new floats with 7. *)
Definition fresh_allocator : Allocator :=
  {| new_address used := fresh ({[0]} ∪ used);
     uninitialised n := replicate n 7 |}.

(** One block on separate buffers, up to the call of the engine. *)
Definition separate_block : option (Plugin * Mem) :=
  run_prepare fx (active 0 false 0 false false) mem0 (snapshot false 0)
    100 200 2 [] 0.

End InMemory.

(** ** Statements of the specification that the code does not meet as written *)

Module AsStated.

(** "For all transport snapshots with playing=true, if |frame − expected| > 2
    or frame == 0, then reset == true". *)
Definition reset_on_discontinuity : Prop :=
  ∀ (F : FloatOps) cfg Engine stepBlock p m e timePos inputs outputs frames
    evs count p' m' e',
    is_u64 (fNextExpectedFrame p) → is_u64 (tp_frame timePos) →
    run cfg Engine stepBlock p m e timePos inputs outputs frames evs count
      = Some (p', m', e') →
    tp_playing timePos = true →
    Z.abs (tp_frame timePos - fNextExpectedFrame p) > 2 ∨ tp_frame timePos = 0 →
    reset (context p') = true.

(** "if expected == frame exactly, reset == false". *)
Definition no_reset_when_expected : Prop :=
  ∀ (F : FloatOps) cfg Engine stepBlock p m e timePos inputs outputs frames
    evs count p' m' e',
    is_u64 (fNextExpectedFrame p) → is_u64 (tp_frame timePos) →
    run cfg Engine stepBlock p m e timePos inputs outputs frames evs count
      = Some (p', m', e') →
    tp_playing timePos = true →
    fNextExpectedFrame p = tp_frame timePos →
    reset (context p') = false.

(** "when a channel's input pointer equals its output pointer, the engine
    observes input values equal to the pre-call host buffer contents". *)
Definition aliased_channel_sees_host_input : Prop :=
  ∀ (F : FloatOps) cfg p m timePos inputs outputs frames evs count p1 m1,
    run_prepare cfg p m timePos inputs outputs frames evs count = Some (p1, m1) →
    scratch_separate cfg p m inputs outputs →
    ∀ i a buf, (i < NUM_INPUTS cfg)%nat →
      load_ptr m inputs i = Some a → load_ptr m outputs i = Some a → a ≠ 0 →
      samples m !! a = Some buf →
      engine_input (context p1) m1 i (Z.to_nat frames)
        = Some (take (Z.to_nat frames) buf).

(** "if the input array's base differs from the output array's base, and no
    corresponding channel pointers are equal, pass host buffers through":
    the zero-copy path is taken only then. *)
Definition zero_copy_only_without_aliasing : Prop :=
  ∀ (F : FloatOps) cfg p m timePos inputs outputs frames evs count p1 m1,
    run_prepare cfg p m timePos inputs outputs frames evs count = Some (p1, m1) →
    separate_buffers m inputs outputs = Some true →
    inputs ≠ outputs
    ∧ ∀ i a, (i < NUM_INPUTS cfg)%nat → a ≠ 0 →
        load_ptr m inputs i = Some a → load_ptr m outputs i ≠ Some a.

End AsStated.

(** * Properties *)

(** ** Machine arithmetic *)

Lemma u64_id z : is_u64 z → u64 z = z.
Proof. intros Hz. unfold u64. apply Z.mod_small. exact Hz. Qed.

(** On 64-bit values the helper compares the absolute difference. *)
Lemma d_isDiffHigherThanLimit_abs v1 v2 limit :
  is_u64 v1 → is_u64 v2 → 0 ≤ limit →
  d_isDiffHigherThanLimit v1 v2 limit = (Z.abs (v1 - v2) >? limit).
Proof.
  unfold is_u64, d_isDiffHigherThanLimit. intros H1 H2 Hl.
  destruct (Z.eqb_spec v1 v2) as [->|Hne]; simpl.
  - rewrite Z.sub_diag. simpl. symmetry. rewrite Z.gtb_ltb. apply Z.ltb_ge. exact Hl.
  - destruct (Z.ltb_spec v2 v1).
    + rewrite u64_id by (unfold is_u64; lia). f_equal. lia.
    + rewrite u64_id by (unfold is_u64; lia). f_equal. lia.
Qed.

(** ** What [run] leaves behind *)

Section RunFacts.
Context `{FloatOps}.
Variable cfg : Config.
Variable Engine : Type.
Variable stepBlock : Z → Context → Mem * Engine → Mem * Engine.

(** [run] succeeds exactly when its preparation does, and the engine is
    called once, on the prepared context. *)
Lemma run_inv p m e timePos inputs outputs frames evs count p' m' e' :
  run cfg Engine stepBlock p m e timePos inputs outputs frames evs count = Some (p', m', e') →
  ∃ p1 m1,
    run_prepare cfg p m timePos inputs outputs frames evs count = Some (p1, m1)
    ∧ p' = set_fWasBypassed (bypassed (context p)) p1
    ∧ stepBlock frames (context p1) (m1, e) = (m', e').
Proof.
  unfold run. intros Hrun.
  destruct (run_prepare cfg p m timePos inputs outputs frames evs count)
    as [[p1 m1]|] eqn:Hprep; simpl in Hrun; [|discriminate].
  destruct (stepBlock frames (context p1) (m1, e)) as [m2 e2] eqn:Hstep.
  injection Hrun as <- <- <-. by exists p1, m1.
Qed.

(** [run] returns as soon as the two buffer loops stay within memory. *)
Lemma run_is_Some p m e timePos inputs outputs frames evs count :
  is_Some ('(_, _, m1) ← select_buffers cfg p m inputs outputs (Z.to_nat frames);
           for_range (NUM_OUTPUTS cfg)
             (clear_output cfg outputs (Z.to_nat frames)) m1) →
  is_Some (run cfg Engine stepBlock p m e timePos inputs outputs frames evs count).
Proof.
  unfold run, run_prepare. intros [m2 Hm2].
  destruct (select_buffers cfg p m inputs outputs (Z.to_nat frames))
    as [[[ins outs] m1]|]; simpl in *; [|discriminate].
  rewrite Hm2. simpl.
  destruct (select_midi p (bypassed (context p)) evs count). simpl.
  destruct (stepBlock _ _ _). eauto.
Qed.

(** The fields that [run_prepare] computes without touching memory. *)
Lemma run_prepare_fields p m timePos inputs outputs frames evs count p1 m1 :
  run_prepare cfg p m timePos inputs outputs frames evs count = Some (p1, m1) →
  reset (context p1) = transport_reset p timePos
  ∧ playing (context p1) = tp_playing timePos
  ∧ frame (context p1) = tp_frame timePos
  ∧ bypassed (context p1) = bypassed (context p)
  ∧ fNextExpectedFrame p1 = next_expected_frame timePos frames
  ∧ (midiEvents (context p1), midiEventCount (context p1))
    = select_midi p (bypassed (context p)) evs count
  ∧ fWasBypassed p1 = fWasBypassed p
  ∧ bypassMidiEvents p1 = bypassMidiEvents p
  ∧ fAudioBufferCopy p1 = fAudioBufferCopy p.
Proof.
  unfold run_prepare. intros Hprep.
  destruct (select_buffers cfg p m inputs outputs (Z.to_nat frames))
    as [[[ins outs] mm]|]; simpl in Hprep; [|discriminate].
  destruct (for_range (NUM_OUTPUTS cfg) (clear_output cfg outputs (Z.to_nat frames)) mm)
    as [m2|]; simpl in Hprep; [|discriminate].
  destruct (select_midi p (bypassed (context p)) evs count) as [evs' count'].
  injection Hprep as <- <-. simpl. by repeat split.
Qed.

Lemma run_fields p m e timePos inputs outputs frames evs count p' m' e' :
  run cfg Engine stepBlock p m e timePos inputs outputs frames evs count = Some (p', m', e') →
  reset (context p') = transport_reset p timePos
  ∧ fNextExpectedFrame p' = next_expected_frame timePos frames
  ∧ (midiEvents (context p'), midiEventCount (context p'))
    = select_midi p (bypassed (context p)) evs count
  ∧ fWasBypassed p' = bypassed (context p)
  ∧ bypassMidiEvents p' = bypassMidiEvents p.
Proof.
  intros Hrun. apply run_inv in Hrun as (p1 & m1 & Hprep & -> & _).
  apply run_prepare_fields in Hprep.
  destruct Hprep as (Hr & _ & _ & _ & Hn & Hm & _ & Hb & _).
  simpl. by repeat split.
Qed.

(** The reset flag in closed form: the suppression only matters when both
    calls show playing, because a stopped transport never resets. *)
Lemma transport_reset_closed p timePos :
  is_u64 (fNextExpectedFrame p) → is_u64 (tp_frame timePos) →
  transport_reset p timePos =
    if playing (context p) && tp_playing timePos
       && (tp_frame timePos =? 0) && (frame (context p) =? 0)
    then false
    else tp_playing timePos
         && ((tp_frame timePos =? 0)
             || (Z.abs (fNextExpectedFrame p - tp_frame timePos) >? 2)).
Proof.
  intros He Hf. unfold transport_reset.
  rewrite d_isDiffHigherThanLimit_abs by (done || lia).
  destruct (playing (context p)), (tp_playing timePos),
    (tp_frame timePos =? 0), (frame (context p) =? 0); reflexivity.
Qed.

End RunFacts.

(** ** Transport synchronisation *)

Section Transport.
Context `{FloatOps}.
Variable cfg : Config.
Variable Engine : Type.
Variable stepBlock : Z → Context → Mem * Engine → Mem * Engine.

(** C5.  The reset flag that a block stores into the context is
    [playing && (frame == 0 || |expected − frame| > 2)], except that it is
    false when the context still shows playing at frame 0 from the previous
    call and the snapshot shows playing at frame 0 again. *)
Theorem reset_flag_formula p m e timePos inputs outputs frames evs count p' m' e' :
  run cfg Engine stepBlock p m e timePos inputs outputs frames evs count
    = Some (p', m', e') →
  is_u64 (fNextExpectedFrame p) → is_u64 (tp_frame timePos) →
  reset (context p') =
    if playing (context p) && tp_playing timePos
       && (tp_frame timePos =? 0) && (frame (context p) =? 0)
    then false
    else tp_playing timePos
         && ((tp_frame timePos =? 0)
             || (Z.abs (fNextExpectedFrame p - tp_frame timePos) >? 2)).
Proof.
  intros Hrun He Hf.
  apply run_fields in Hrun as (-> & _).
  by apply transport_reset_closed.
Qed.

(** C4, amended.  With the snapshot playing: a frame other than 0 that is
    more than 2 away from the expected one sets the reset flag; frame 0 sets
    it unless the context already shows playing at frame 0, in which case the
    flag is cleared; and a frame other than 0 that is the expected one clears
    it. *)
Theorem reset_flag_cases p m e timePos inputs outputs frames evs count p' m' e' :
  run cfg Engine stepBlock p m e timePos inputs outputs frames evs count
    = Some (p', m', e') →
  is_u64 (fNextExpectedFrame p) → is_u64 (tp_frame timePos) →
  tp_playing timePos = true →
  (tp_frame timePos ≠ 0 →
   Z.abs (tp_frame timePos - fNextExpectedFrame p) > 2 →
   reset (context p') = true)
  ∧ (tp_frame timePos = 0 →
     ¬ (playing (context p) = true ∧ frame (context p) = 0) →
     reset (context p') = true)
  ∧ (tp_frame timePos = 0 →
     playing (context p) = true → frame (context p) = 0 →
     reset (context p') = false)
  ∧ (tp_frame timePos ≠ 0 →
     fNextExpectedFrame p = tp_frame timePos →
     reset (context p') = false).
Proof.
  intros Hrun He Hf Hplay.
  apply run_fields in Hrun as (-> & _).
  rewrite transport_reset_closed, Hplay by done.
  repeat split.
  - intros Hnz Hfar.
    destruct (Z.eqb_spec (tp_frame timePos) 0) as [|_]; [done|].
    rewrite !andb_false_r. simpl.
    apply Z.gtb_gt. lia.
  - intros Hz Hnot. rewrite Hz. simpl.
    destruct (playing (context p)) eqn:Hp; [|done].
    destruct (Z.eqb_spec (frame (context p)) 0) as [Hc|_]; [|done].
    exfalso. by apply Hnot.
  - intros Hz Hp Hc. by rewrite Hz, Hp, Hc.
  - intros Hnz Heq.
    destruct (Z.eqb_spec (tp_frame timePos) 0) as [|_]; [done|].
    rewrite !andb_false_r, Heq, Z.sub_diag. reflexivity.
Qed.

(** C7.  After a block the stored next-expected frame is the snapshot's frame
    plus the block length, in 64-bit unsigned arithmetic, if the snapshot was
    playing, and 0 otherwise. *)
Theorem next_expected_frame_after_run
    p m e timePos inputs outputs frames evs count p' m' e' :
  run cfg Engine stepBlock p m e timePos inputs outputs frames evs count
    = Some (p', m', e') →
  fNextExpectedFrame p' =
    (if tp_playing timePos then u64 (tp_frame timePos + frames) else 0)
  ∧ (tp_playing timePos = true → is_u64 (tp_frame timePos + frames) →
     fNextExpectedFrame p' = tp_frame timePos + frames).
Proof.
  intros Hrun. apply run_fields in Hrun as (_ & -> & _).
  unfold next_expected_frame. split; [done|].
  intros -> Hsum. by apply u64_id.
Qed.

End Transport.

(** ** Transport synchronisation on concrete blocks *)

Section TransportExamples.
Import InMemory.
#[local] Existing Instance int_floats.

(** A block of the in-memory scenario does run. *)
Lemma block_runs p timePos evs : is_Some (block p timePos evs).
Proof.
  apply run_is_Some. apply (bool_decide_unpack _). vm_compute. exact I.
Qed.

(** The specification's example: expected 1512, new frame 2600. *)
Lemma reset_flag_formula_witness :
  ∃ p' m' e',
    block (active 1512 true 1000 false false) (snapshot true 2600) []
      = Some (p', m', e')
    ∧ reset (context p') = true.
Proof.
  destruct (block_runs (active 1512 true 1000 false false) (snapshot true 2600) [])
    as [[[p' m'] e'] Hrun].
  exists p', m', e'. split; [exact Hrun|].
  rewrite (reset_flag_formula fx unit idle _ _ _ _ _ _ _ _ _ _ _ _ Hrun);
    [reflexivity | vm_compute; split; [discriminate | reflexivity]
                 | vm_compute; split; [discriminate | reflexivity]].
Defined.

Lemma reset_flag_cases_witness :
  ∃ p' m' e',
    block (active 1512 true 1000 false false) (snapshot true 2600) []
      = Some (p', m', e')
    ∧ reset (context p') = true.
Proof.
  destruct (block_runs (active 1512 true 1000 false false) (snapshot true 2600) [])
    as [[[p' m'] e'] Hrun].
  exists p', m', e'. split; [exact Hrun|].
  refine (proj1 (reset_flag_cases fx unit idle _ _ _ _ _ _ _ _ _ _ _ _ Hrun
                   _ _ eq_refl) _ _);
    vm_compute; try (split; [discriminate | reflexivity]); try discriminate;
    reflexivity.
Defined.

Lemma next_expected_frame_after_run_witness :
  ∃ p' m' e',
    block (active 1512 true 1000 false false) (snapshot true 1512) []
      = Some (p', m', e')
    ∧ fNextExpectedFrame p' = 1514.
Proof.
  destruct (block_runs (active 1512 true 1000 false false) (snapshot true 1512) [])
    as [[[p' m'] e'] Hrun].
  exists p', m', e'. split; [exact Hrun|].
  exact (proj1 (next_expected_frame_after_run fx unit idle
                  _ _ _ _ _ _ _ _ _ _ _ _ Hrun)).
Defined.

(** C4, as written, fails twice.  A host whose frame stays at 0 while playing
    gets no reset although the frame is 0 (and 512 away from the expected
    one); and a transport that starts at frame 0 gets a reset although 0 is
    the expected frame. *)
Lemma reset_claim_counterexample :
  ¬ AsStated.reset_on_discontinuity ∧ ¬ AsStated.no_reset_when_expected.
Proof.
  split; intros Hclaim.
  - destruct (block_runs (active 512 true 0 false false) (snapshot true 0) [])
      as [[[p' m'] e'] Hrun].
    assert (Hset : reset (context p') = true).
    { apply (Hclaim int_floats fx unit idle
               (active 512 true 0 false false) mem0 tt (snapshot true 0)
               100 200 2 [] 0 p' m' e'); try exact Hrun; try reflexivity;
        try (vm_compute; split; [discriminate | reflexivity]).
      right. reflexivity. }
    apply run_fields in Hrun as (Hreset & _).
    rewrite Hreset in Hset. vm_compute in Hset. discriminate.
  - destruct (block_runs (active 0 false 0 false false) (snapshot true 0) [])
      as [[[p' m'] e'] Hrun].
    assert (Hclear : reset (context p') = false).
    { apply (Hclaim int_floats fx unit idle
               (active 0 false 0 false false) mem0 tt (snapshot true 0)
               100 200 2 [] 0 p' m' e'); try exact Hrun; try reflexivity;
        (vm_compute; split; [discriminate | reflexivity]). }
    apply run_fields in Hrun as (Hreset & _).
    rewrite Hreset in Hclear. vm_compute in Hclear. discriminate.
Qed.

End TransportExamples.

(** ** Bypass *)

(** The constructor's loop builds, for each channel 0..15, the three-byte
    message "controller 0x7B, value 0". *)
Lemma initBypassMidiEvents_all_sound_off :
  initBypassMidiEvents = all_sound_off <$> seqZ 0 16.
Proof. reflexivity. Qed.

Section Bypass.
Context `{FloatOps}.
Variable cfg : Config.
Variable Engine : Type.
Variable stepBlock : Z → Context → Mem * Engine → Mem * Engine.

(** What one block hands to the engine, by the bypass flag of the block and
    of the block before. *)
Lemma run_delivers b p m e timePos inputs outputs frames evs count p' m' e' :
  run cfg Engine stepBlock (set_bypassed b p) m e timePos inputs outputs frames
      evs count = Some (p', m', e') →
  (midiEvents (context p'), midiEventCount (context p'))
    = (if b then if fWasBypassed p then ([], 0) else (bypassMidiEvents p, 16)
       else (evs, count))
  ∧ fWasBypassed p' = b
  ∧ bypassMidiEvents p' = bypassMidiEvents p.
Proof.
  intros Hrun. apply run_fields in Hrun as (_ & _ & Hmidi & Hwas & Hevs).
  simpl in *. rewrite Hmidi. unfold select_midi. simpl.
  repeat split; [|done..].
  destruct b; [|done]. by destruct (fWasBypassed p).
Qed.

(** C6.  Over three blocks with bypass flags (false, true, true) the engine
    is handed the host's events unchanged, then exactly the 16 precomputed
    all-sound-off events (status [0xB0 + channel], [0x7B], [0], size 3, one
    per channel 0..15) instead of the host's, then no event; and a block
    whose bypass flag is off is handed the host's events unchanged whatever
    the flag of the block before was. *)
Theorem bypass_edge_events :
  (∀ p0 m1 e1 t1 i1 o1 f1 evs1 n1 p1 m1' e1'
       m2 e2 t2 i2 o2 f2 evs2 n2 p2 m2' e2'
       m3 e3 t3 i3 o3 f3 evs3 n3 p3 m3' e3',
      bypassMidiEvents p0 = initBypassMidiEvents →
      run cfg Engine stepBlock (set_bypassed false p0) m1 e1 t1 i1 o1 f1 evs1 n1
        = Some (p1, m1', e1') →
      run cfg Engine stepBlock (set_bypassed true p1) m2 e2 t2 i2 o2 f2 evs2 n2
        = Some (p2, m2', e2') →
      run cfg Engine stepBlock (set_bypassed true p2) m3 e3 t3 i3 o3 f3 evs3 n3
        = Some (p3, m3', e3') →
      (midiEvents (context p1) = evs1 ∧ midiEventCount (context p1) = n1)
      ∧ (midiEvents (context p2) = all_sound_off <$> seqZ 0 16
         ∧ midiEventCount (context p2) = 16)
      ∧ (midiEvents (context p3) = [] ∧ midiEventCount (context p3) = 0))
  ∧ (∀ p m e t i o f evs n p' m' e',
      run cfg Engine stepBlock (set_bypassed false p) m e t i o f evs n
        = Some (p', m', e') →
      midiEvents (context p') = evs ∧ midiEventCount (context p') = n).
Proof.
  split.
  - intros * Hinit Hrun1 Hrun2 Hrun3.
    apply run_delivers in Hrun1 as (Hd1 & Hw1 & Hb1).
    apply run_delivers in Hrun2 as (Hd2 & Hw2 & Hb2).
    apply run_delivers in Hrun3 as (Hd3 & _ & _).
    rewrite Hw1, Hb1, Hinit, initBypassMidiEvents_all_sound_off in Hd2.
    rewrite Hw2 in Hd3.
    injection Hd1 as -> ->. injection Hd2 as -> ->. injection Hd3 as -> ->.
    done.
  - intros * Hrun. apply run_delivers in Hrun as (Hd & _).
    by injection Hd as -> ->.
Qed.

End Bypass.

(** ** MIDI output *)

Section MidiOut.
Context `{FloatOps}.

(** C10.  While the instance is bypassed [writeMidiMessage] hands no event
    to the host and reports nothing: it returns at once. *)
Theorem writeMidiMessage_bypassed c uninit message channel :
  bypassed c = true →
  writeMidiMessage c uninit message channel = ([], []).
Proof. intros Hb. unfold writeMidiMessage. by rewrite Hb. Qed.

(** Without bypass a complete channel message is forwarded. *)
Lemma writeMidiMessage_forwards c uninit message channel status :
  bypassed c = false →
  msg_bytes message !! 0%nat = Some status →
  0 ≤ msg_frame message →
  event_size status = Some (Z.of_nat (length (msg_bytes message))) →
  ∃ ev, writeMidiMessage c uninit message channel = ([ev], []).
Proof.
  intros Hb Hst Hfr Hsz. unfold writeMidiMessage. rewrite Hb, Hst. simpl.
  destruct (msg_bytes message) as [|b bs] eqn:Hbytes; [done|].
  rewrite Hsz.
  assert (Hpos : (Z.of_nat (length (b :: bs)) >? 0) = true)
    by (apply Z.gtb_gt; simpl length; lia).
  assert (Hfr' : (msg_frame message >=? 0) = true) by (apply Z.geb_le; lia).
  assert (Hge : (Z.of_nat (length (b :: bs)) >=? Z.of_nat (length (b :: bs))) = true)
    by (apply Z.geb_le; lia).
  rewrite Hpos, Hfr', Hge. simpl. eauto.
Qed.

End MidiOut.

Section BypassExamples.
Import InMemory.
#[local] Existing Instance int_floats.

Lemma bypass_edge_events_witness :
  ∃ p1 p2 p3 m1 m2 m3,
    block (set_bypassed false (active 0 false 0 false false)) (snapshot false 0)
          [note_on] = Some (p1, m1, tt)
    ∧ block (set_bypassed true p1) (snapshot false 0) [note_on] = Some (p2, m2, tt)
    ∧ block (set_bypassed true p2) (snapshot false 0) [note_on] = Some (p3, m3, tt)
    ∧ midiEvents (context p1) = [note_on]
    ∧ midiEventCount (context p2) = 16
    ∧ midiEventCount (context p3) = 0.
Proof.
  destruct (block_runs (set_bypassed false (active 0 false 0 false false))
              (snapshot false 0) [note_on]) as [[[p1 m1] []] Hrun1].
  destruct (block_runs (set_bypassed true p1) (snapshot false 0) [note_on])
    as [[[p2 m2] []] Hrun2].
  destruct (block_runs (set_bypassed true p2) (snapshot false 0) [note_on])
    as [[[p3 m3] []] Hrun3].
  exists p1, p2, p3, m1, m2, m3.
  edestruct (proj1 (bypass_edge_events fx unit idle))
    as ((Hev1 & _) & (_ & Hn2) & (_ & Hn3));
    [ | exact Hrun1 | exact Hrun2 | exact Hrun3 | ]; [reflexivity|].
  by repeat split.
Defined.

Lemma writeMidiMessage_bypassed_witness :
  writeMidiMessage (context (active 0 false 0 true true)) zero_event
    {| msg_bytes := [0x90; 60; 100]; msg_frame := 0 |} 1 = ([], []).
Proof. apply writeMidiMessage_bypassed. reflexivity. Defined.

(** The same message does reach the host when the instance is not bypassed. *)
Example writeMidiMessage_live :
  writeMidiMessage (context (active 0 false 0 false false)) zero_event
    {| msg_bytes := [0x90; 60; 100]; msg_frame := 7 |} 1
  = ([{| ev_frame := 7; ev_size := 3; ev_data := [0x91; 60; 100; 0];
         ev_dataExt := 0 |}], []).
Proof. reflexivity. Qed.

End BypassExamples.

(** ** Aliased buffers *)

Section Buffers.
Context `{FloatOps}.
Variable cfg : Config.

Lemma load_ptr_ext m m' arr i :
  parrays m' = parrays m → load_ptr m' arr i = load_ptr m arr i.
Proof. intros Heq. unfold load_ptr. by rewrite Heq. Qed.

Lemma load_buf_ext m m' p n :
  samples m' !! p = samples m !! p → load_buf m' p n = load_buf m p n.
Proof. intros Heq. unfold load_buf. by rewrite Heq. Qed.

Lemma load_buf_Some m p n l :
  load_buf m p n = Some l →
  ∃ buf, samples m !! p = Some buf ∧ (n ≤ length buf)%nat ∧ l = take n buf.
Proof.
  unfold load_buf. intros Hl.
  destruct (decide (p = 0)); [done|].
  destruct (samples m !! p) as [buf|]; simpl in Hl; [|done].
  destruct (decide (n ≤ length buf)%nat); [|done].
  injection Hl as <-. eauto.
Qed.

(** A store changes one buffer and no pointer array. *)
Lemma store_buf_Some m p new m' :
  store_buf m p new = Some m' →
  parrays m' = parrays m
  ∧ (∀ a, a ≠ p → samples m' !! a = samples m !! a)
  ∧ load_buf m' p (length new) = Some new.
Proof.
  unfold store_buf. intros Hs.
  destruct (decide (p = 0)) as [|Hp]; [done|].
  destruct (samples m !! p) as [old|]; simpl in Hs; [|done].
  destruct (decide (length new ≤ length old)%nat); [|done].
  injection Hs as <-. simpl. repeat split.
  - intros a Ha. by rewrite lookup_insert_ne.
  - unfold load_buf. simpl. rewrite decide_False by done.
    rewrite lookup_insert_eq. simpl.
    rewrite decide_True by (rewrite length_app; lia).
    by rewrite take_app_length.
Qed.

Lemma memcpy_Some dst src n m m' buf :
  memcpy dst src n m = Some m' →
  samples m !! src = Some buf →
  parrays m' = parrays m
  ∧ (∀ a, a ≠ dst → samples m' !! a = samples m !! a)
  ∧ load_buf m' dst n = Some (take n buf).
Proof.
  unfold memcpy. intros Hc Hsrc.
  destruct (load_buf m src n) as [new|] eqn:Hload; simpl in Hc; [|done].
  apply load_buf_Some in Hload as (buf' & Hbuf' & Hn & ->).
  rewrite Hsrc in Hbuf'. injection Hbuf' as <-.
  apply store_buf_Some in Hc as (Hp & Hframe & Hdst).
  rewrite length_take, Nat.min_l in Hdst by done. done.
Qed.

(** *** Loops over the memory *)

Lemma for_each_app (l1 l2 : list nat) body m :
  for_each (l1 ++ l2) body m = for_each l1 body m ≫= for_each l2 body.
Proof.
  revert m. induction l1 as [|i l1 IH]; intros m; simpl; [done|].
  destruct (body i m) as [m'|]; simpl; [apply IH | done].
Qed.

(** A loop whose round [i] only writes the buffers [W i] leaves every other
    buffer and every pointer array as in the memory [m0] it started from. *)
Lemma for_each_frame (W : nat → Z → Prop) body m0 :
  (∀ i m m', parrays m = parrays m0 → body i m = Some m' →
     parrays m' = parrays m0
     ∧ ∀ a, ¬ W i a → samples m' !! a = samples m !! a) →
  ∀ idx m m', parrays m = parrays m0 → for_each idx body m = Some m' →
    parrays m' = parrays m0
    ∧ ∀ a, (∀ i, i ∈ idx → ¬ W i a) → samples m' !! a = samples m !! a.
Proof.
  intros Hbody. induction idx as [|i idx IH]; intros m m' Hp Hloop; simpl in Hloop.
  - injection Hloop as <-. done.
  - destruct (body i m) as [mi|] eqn:Hi; simpl in Hloop; [|done].
    destruct (Hbody _ _ _ Hp Hi) as (Hpi & Hframe_i).
    destruct (IH _ _ Hpi Hloop) as (Hp' & Hframe).
    split; [done|]. intros a Ha.
    rewrite Hframe by (intros j Hj; apply Ha; by right).
    apply Hframe_i, Ha. by left.
Qed.

(** Round [i] of the copy loop writes [fAudioBufferCopy[i]] only. *)
Lemma copy_input_frame inputs scratch n m0 i m m' :
  parrays m = parrays m0 → copy_input cfg inputs scratch n i m = Some m' →
  parrays m' = parrays m0
  ∧ ∀ a, ¬ load_ptr m0 scratch i = Some a → samples m' !! a = samples m !! a.
Proof.
  unfold copy_input. intros Hp Hc.
  destruct (load_ptr m inputs i) as [src|]; simpl in Hc; [|done].
  destruct (VARIANT_MAIN cfg && bool_decide (src = 0)).
  { injection Hc as <-. done. }
  rewrite (load_ptr_ext m0 m) in Hc by done.
  destruct (load_ptr m0 scratch i) as [dst|]; simpl in Hc; [|done].
  unfold memcpy in Hc.
  destruct (load_buf m src n) as [new|]; simpl in Hc; [|done].
  apply store_buf_Some in Hc as (Hp' & Hframe & _).
  split; [congruence|]. intros a Ha. apply Hframe. congruence.
Qed.

(** Round [k] of the clearing loop writes [outputs[k]] only. *)
Lemma clear_output_frame outputs n m0 k m m' :
  parrays m = parrays m0 → clear_output cfg outputs n k m = Some m' →
  parrays m' = parrays m0
  ∧ ∀ a, ¬ load_ptr m0 outputs k = Some a → samples m' !! a = samples m !! a.
Proof.
  unfold clear_output. intros Hp Hc.
  rewrite (load_ptr_ext m0 m) in Hc by done.
  destruct (load_ptr m0 outputs k) as [dst|]; simpl in Hc; [|done].
  destruct (VARIANT_MAIN cfg && bool_decide (dst = 0)).
  { injection Hc as <-. done. }
  apply store_buf_Some in Hc as (Hp' & Hframe & _).
  split; [congruence|]. intros a Ha. apply Hframe. congruence.
Qed.

(** Round [i] of the copy loop leaves the first [n] samples of the input
    buffer in [fAudioBufferCopy[i]]. *)
Lemma copy_input_copies inputs scratch n i m m' src buf :
  copy_input cfg inputs scratch n i m = Some m' →
  load_ptr m inputs i = Some src → src ≠ 0 →
  samples m !! src = Some buf →
  ∃ dst, load_ptr m scratch i = Some dst
         ∧ load_buf m' dst n = Some (take n buf).
Proof.
  unfold copy_input. intros Hc Hsrc Hnz Hbuf.
  rewrite Hsrc in Hc. simpl in Hc.
  rewrite bool_decide_eq_false_2, andb_false_r in Hc by done.
  destruct (load_ptr m scratch i) as [dst|]; simpl in Hc; [|done].
  exists dst. split; [done|].
  by apply (memcpy_Some _ _ _ _ _ _ Hc Hbuf).
Qed.

(** The copy loop as a whole: afterwards [fAudioBufferCopy[i]] starts with
    the samples the host had in input [i] before the call. *)
Lemma copy_loop_copies p m inputs outputs n m1 i a buf :
  scratch_separate cfg p m inputs outputs →
  for_range (NUM_INPUTS cfg) (copy_input cfg inputs (fAudioBufferCopy p) n) m
    = Some m1 →
  (i < NUM_INPUTS cfg)%nat →
  load_ptr m inputs i = Some a → a ≠ 0 → samples m !! a = Some buf →
  parrays m1 = parrays m
  ∧ ∃ dst, load_ptr m (fAudioBufferCopy p) i = Some dst
           ∧ load_buf m1 dst n = Some (take n buf).
Proof.
  intros Hsep Hloop Hi Ha Hnz Hbuf. unfold for_range in Hloop.
  replace (NUM_INPUTS cfg) with (i + S (NUM_INPUTS cfg - S i))%nat in Hloop by lia.
  rewrite seq_app, for_each_app in Hloop. simpl in Hloop.
  set (body := copy_input cfg inputs (fAudioBufferCopy p) n) in *.
  set (W := λ (j : nat) (x : Z), load_ptr m (fAudioBufferCopy p) j = Some x).
  assert (Hbody : ∀ j mx mx', parrays mx = parrays m → body j mx = Some mx' →
            parrays mx' = parrays m
            ∧ ∀ x, ¬ W j x → samples mx' !! x = samples mx !! x)
    by (intros j mx mx'; apply copy_input_frame).
  destruct (for_each (seq 0 i) body m) as [ma|] eqn:Hpre; simpl in Hloop; [|done].
  destruct (body i ma) as [mb|] eqn:Hround; simpl in Hloop; [|done].
  destruct (for_each_frame W body m Hbody _ _ _ eq_refl Hpre) as (Hpa & Hfa).
  destruct (Hbody _ _ _ Hpa Hround) as (Hpb & _).
  destruct (for_each_frame W body m Hbody _ _ _ Hpb Hloop) as (Hp1 & Hf1).
  split; [done|].
  (* the input buffer is still as the host left it *)
  assert (Hsrc : samples ma !! a = Some buf).
  { rewrite Hfa; [done|]. intros j Hj Hw.
    apply elem_of_seq in Hj.
    destruct (Hsep j a ltac:(lia) Hw) as (_ & Hins & _).
    by apply (Hins i Hi). }
  destruct (copy_input_copies _ _ _ _ _ _ _ _ Hround
              ltac:(by rewrite (load_ptr_ext m ma)) Hnz Hsrc)
    as (dst & Hdst & Hcopied).
  rewrite (load_ptr_ext m ma) in Hdst by done.
  exists dst. split; [done|].
  rewrite <- Hcopied. apply load_buf_ext, Hf1.
  intros j Hj Hw. apply elem_of_seq in Hj.
  destruct (Hsep i dst Hi Hdst) as (Huniq & _).
  specialize (Huniq j ltac:(lia) Hw). lia.
Qed.

(** [run_prepare], seen from the buffers. *)
Lemma run_prepare_buffers p m timePos inputs outputs frames evs count p1 m1 :
  run_prepare cfg p m timePos inputs outputs frames evs count = Some (p1, m1) →
  ∃ mm, select_buffers cfg p m inputs outputs (Z.to_nat frames)
          = Some (dataIns (context p1), dataOuts (context p1), mm)
        ∧ for_range (NUM_OUTPUTS cfg)
            (clear_output cfg outputs (Z.to_nat frames)) mm = Some m1.
Proof.
  unfold run_prepare. intros Hprep.
  destruct (select_buffers cfg p m inputs outputs (Z.to_nat frames))
    as [[[ins outs] mm]|]; simpl in Hprep; [|discriminate].
  destruct (for_range (NUM_OUTPUTS cfg) (clear_output cfg outputs (Z.to_nat frames)) mm)
    as [m2|] eqn:Hclear; simpl in Hprep; [|discriminate].
  destruct (select_midi p (bypassed (context p)) evs count) as [evs' count'].
  injection Hprep as <- <-. simpl. by exists mm.
Qed.

(** The test of the source, read as a proposition. *)
Lemma separate_buffers_true m inputs outputs sep :
  separate_buffers m inputs outputs = Some sep →
  sep = true ↔
    inputs ≠ outputs
    ∧ (inputs = 0 ∨ load_ptr m inputs 0 ≠ load_ptr m outputs 0).
Proof.
  unfold separate_buffers. intros Hsep.
  destruct (bool_decide_reflect (inputs ≠ outputs)) as [Hne|Heq].
  - destruct (bool_decide_reflect (inputs = 0)) as [Hnull|Hnn].
    + injection Hsep as <-. split; [by auto | done].
    + destruct (load_ptr m inputs 0) as [i0|]; simpl in Hsep; [|done].
      destruct (load_ptr m outputs 0) as [o0|]; simpl in Hsep; [|done].
      injection Hsep as <-.
      destruct (bool_decide_reflect (i0 ≠ o0)) as [Hd|Hs].
      * split; [|done]. intros _. split; [done|]. right. congruence.
      * split; [done|]. intros (_ & [Hnull|Hd]); [done|].
        exfalso. apply Hd. f_equal. by apply dec_stable.
  - injection Hsep as <-. split; [done|]. by intros (Hne & _).
Qed.

(** The two branches of the buffer block.  On the branch the source calls
    "separate buffers, use them" the host buffers are passed on and nothing
    is copied.  On the branch it calls "inline processing, use a safe copy"
    (taken whenever the arrays are the same or channel 0 is processed in
    place) every non-null input channel is copied to the scratch buffers
    before the outputs are cleared, and the engine reads as its input the
    samples the host had in that channel before the call. *)
Lemma aliasing_guard p m timePos inputs outputs frames evs count p1 m1 :
  run_prepare cfg p m timePos inputs outputs frames evs count = Some (p1, m1) →
  ∃ sep,
    separate_buffers m inputs outputs = Some sep
    ∧ (sep = true ↔
         inputs ≠ outputs
         ∧ (inputs = 0 ∨ load_ptr m inputs 0 ≠ load_ptr m outputs 0))
    ∧ (sep = true →
         dataIns (context p1) = inputs ∧ dataOuts (context p1) = outputs
         ∧ for_range (NUM_OUTPUTS cfg)
             (clear_output cfg outputs (Z.to_nat frames)) m = Some m1)
    ∧ (sep = false → NUM_INPUTS cfg ≠ 0%nat →
         scratch_separate cfg p m inputs outputs →
         dataIns (context p1) = fAudioBufferCopy p
         ∧ ∀ i a buf, (i < NUM_INPUTS cfg)%nat →
             load_ptr m inputs i = Some a → a ≠ 0 →
             samples m !! a = Some buf →
             engine_input (context p1) m1 i (Z.to_nat frames)
               = Some (take (Z.to_nat frames) buf)).
Proof.
  intros Hprep.
  apply run_prepare_buffers in Hprep as (mm & Hsel & Hclear).
  unfold select_buffers in Hsel.
  destruct (separate_buffers m inputs outputs) as [sep|] eqn:Hsep;
    simpl in Hsel; [|done].
  exists sep. split; [done|].
  split; [by apply separate_buffers_true|].
  destruct sep.
  - injection Hsel as <- <- <-. split; [done|]. by intros.
  - split; [done|]. intros _ Hin Hscr.
    destruct (NUM_INPUTS cfg) as [|k] eqn:Hk; [done|].
    destruct (for_range (S k) (copy_input cfg inputs (fAudioBufferCopy p)
                                 (Z.to_nat frames)) m) as [mc|] eqn:Hcopy;
      simpl in Hsel; [|done].
    injection Hsel as Hins Houts <-.
    split; [done|]. intros i a buf Hi Ha Hnz Hbuf.
    rewrite <- Hk in Hcopy.
    destruct (copy_loop_copies _ _ _ _ _ _ _ _ _ Hscr Hcopy
                ltac:(by rewrite Hk) Ha Hnz Hbuf) as (Hpc & dst & Hdst & Hcopied).
    destruct (for_each_frame (λ k x, load_ptr m outputs k = Some x)
                (clear_output cfg outputs (Z.to_nat frames)) m
                ltac:(intros j mx mx'; apply clear_output_frame)
                _ _ _ Hpc Hclear) as (Hp1 & Hf1).
    unfold engine_input. rewrite <- Hins, (load_ptr_ext m m1), Hdst by done.
    simpl. rewrite <- Hcopied. apply load_buf_ext, Hf1.
    intros j Hj Hw. apply elem_of_seq in Hj.
    destruct (Hscr i dst ltac:(by rewrite Hk) Hdst) as (_ & _ & Houtsep).
    by apply (Houtsep j ltac:(lia)).
Qed.

End Buffers.

Section BufferExamples.
Import InMemory.
#[local] Existing Instance int_floats.

(** In the scenario the scratch buffers 30 and 31 are apart from the host's. *)
Lemma scenario_scratch_separate inputs outputs :
  inputs ∈ [100; 200; 400] → outputs ∈ [100; 200; 400] →
  scratch_separate fx (active 0 false 0 false false) mem0 inputs outputs.
Proof.
  intros Hin Hout i s Hi Hs. cbn in Hi.
  assert (Hcases : i = 0%nat ∨ i = 1%nat) by lia.
  repeat (apply elem_of_cons in Hin as [->|Hin]);
    try (by apply elem_of_nil in Hin);
    repeat (apply elem_of_cons in Hout as [->|Hout]);
    try (by apply elem_of_nil in Hout);
    destruct Hcases as [-> | ->]; vm_compute in Hs; injection Hs as <-;
    (split; [|split]); intros j Hj; cbn in Hj;
    (assert (Hjc : j = 0%nat ∨ j = 1%nat) by lia);
    destruct Hjc as [-> | ->]; vm_compute; congruence.
Qed.

(** A block processed in place: the engine reads what the host had. *)
Lemma in_place_block_sees_host_input :
  ∃ p1 m1, in_place_block = Some (p1, m1)
           ∧ engine_input (context p1) m1 1 2 = Some [3; 4].
Proof.
  assert (Hruns : is_Some in_place_block)
    by (apply (bool_decide_unpack _); vm_compute; exact I).
  destruct Hruns as [[p1 m1] Hrun]. exists p1, m1. split; [exact Hrun|].
  unfold in_place_block in Hrun.
  assert (Hscr : scratch_separate fx (active 0 false 0 false false) mem0 100 100)
    by (apply scenario_scratch_separate; set_solver).
  assert (Hins : NUM_INPUTS fx ≠ 0%nat) by discriminate.
  destruct (aliasing_guard fx _ _ _ _ _ _ _ _ _ _ Hrun)
    as (sep & Hsep & _ & _ & Hcopy).
  vm_compute in Hsep. injection Hsep as <-.
  pose proof (proj2 (Hcopy eq_refl Hins Hscr)) as Hsees.
  apply (Hsees 1%nat 11 [3; 4]); [cbn; lia | reflexivity | discriminate | reflexivity].
Defined.

(** The code does not meet the two halves of the aliasing property when a
    channel other than the first is shared: with inputs (10, 11) and outputs
    (20, 11) the host buffers are passed through, the clearing loop zeroes
    buffer 11, and the engine reads zeros on channel 1 where the host had
    (3, 4). *)
Lemma aliasing_claim_counterexample :
  ¬ AsStated.aliased_channel_sees_host_input
  ∧ ¬ AsStated.zero_copy_only_without_aliasing.
Proof.
  assert (Hsees : engine_sees shared_channel_block 1 = Some [0; 0])
    by (vm_compute; reflexivity).
  destruct shared_channel_block as [[p1 m1]|] eqn:Hrun; [|discriminate].
  unfold shared_channel_block in Hrun. simpl in Hsees.
  split; intros Hclaim.
  - assert (Hhost : engine_input (context p1) m1 1 (Z.to_nat 2) = Some [3; 4]).
    { apply (Hclaim int_floats fx _ _ _ _ _ _ _ _ _ _ Hrun
               (scenario_scratch_separate 100 400
                  ltac:(set_solver) ltac:(set_solver))
               1%nat 11 [3; 4]);
        [cbn; lia | reflexivity | reflexivity | discriminate | reflexivity]. }
    change (Z.to_nat 2) with 2%nat in Hhost.
    rewrite Hhost in Hsees. discriminate.
  - destruct (Hclaim int_floats fx _ _ _ _ _ _ _ _ _ _ Hrun
                ltac:(vm_compute; reflexivity)) as (_ & Hdiffer).
    apply (Hdiffer 1%nat 11); [cbn; lia | discriminate | reflexivity
                               | reflexivity].
Qed.

End BufferExamples.

(** ** Patch state: [getState] and [setState] with key "patch" *)

Section PatchState.
Context `{FloatOps}.
Context {Ext : Type} `{Collaborators Ext}.
Variable cfg : Config.

(** With key "patch" none of the other keys' branches is taken. *)
Lemma setState_patch p value w :
  setState cfg p "patch" value w =
  function (
    (if bool_decide (fAutosavePath p = "") then ret_ p else mret tt) ;;'
    let data := d_getChunkFromBase64String value in
    SAFE_ASSERT_RETURN (bool_decide (4 ≤ length data)%nat) "data.size() >= 4" p ;;'
    call (EvRemoveRecursively (fAutosavePath p))
         (removeRecursively (fAutosavePath p)) ;;'
    call (EvCreateDirectories (fAutosavePath p))
         (createDirectories (fAutosavePath p)) ;;'
    (if is_raw_document data then
       let file := join (fAutosavePath p) "patch.json" in
       f ←' call_c (EvFopen file "w") (fopen file "w");
       match f with
       | None => emit (EvSafeAssert "f != nullptr") ;;' ret_ p
       | Some f =>
           call_c (EvFwrite data) (λ x, (fwrite data f x, tt)) ;;'
           call_c EvFclose (λ x, (fclose f x, tt))
       end
     else
       try_catch
         (call (EvUnarchiveToDirectory data (fAutosavePath p))
               (unarchiveToDirectory data (fAutosavePath p)))
         (SAFE_EXCEPTION_RETURN "setState unarchiveToDirectory" p)) ;;'
    scoped_context (
      try_catch
        (call EvLoadAutosave loadAutosave)
        (SAFE_EXCEPTION_RETURN "setState loadAutosave" p)) ;;'
    mret p) w.
Proof.
  unfold setState.
  rewrite !(bool_decide_eq_false_2 ("patch" = _)) by done.
  rewrite (bool_decide_eq_false_2 ("patch" ≠ "patch")) by (intros Hne; by apply Hne).
  rewrite !andb_false_r. reflexivity.
Qed.

Lemma getState_patch p w :
  getState cfg p "patch" w =
  function (
    (if bool_decide (fAutosavePath p = "") then ret_ "" else mret tt) ;;'
    data ←' scoped_context (
      call EvPrepareSave prepareSave ;;'
      call EvSaveAutosave saveAutosave ;;'
      call EvCleanAutosave cleanAutosave ;;'
      try_catch
        (call (EvArchiveDirectory (fAutosavePath p) 1)
              (archiveDirectory (fAutosavePath p) 1))
        (SAFE_EXCEPTION_RETURN "getState archiveDirectory" ""));
    mret (asBase64 data)) w.
Proof.
  unfold getState.
  rewrite !(bool_decide_eq_false_2 ("patch" = _)) by done.
  rewrite (bool_decide_eq_false_2 ("patch" ≠ "patch")) by (intros Hne; by apply Hne).
  rewrite !andb_false_r. reflexivity.
Qed.

(** Without a staging directory both operations return at once. *)
Lemma getState_no_directory p w :
  fAutosavePath p = "" → getState cfg p "patch" w = (w, Ok "").
Proof.
  intros Hempty. rewrite getState_patch.
  by rewrite (bool_decide_eq_true_2 _ Hempty).
Qed.

Lemma setState_no_directory p value w :
  fAutosavePath p = "" → setState cfg p "patch" value w = (w, Ok p).
Proof.
  intros Hempty. rewrite setState_patch.
  by rewrite (bool_decide_eq_true_2 _ Hempty).
Qed.

(** C2.  A value that decodes to fewer than 4 bytes leaves the collaborators'
    state (the staging directory with it) as it was: [setState] returns
    after at most reporting the failed length check, it asks for no removal,
    no write and no load. *)
Theorem setState_short_blob p value w :
  (length (d_getChunkFromBase64String value) < 4)%nat →
  ext (setState cfg p "patch" value w).1 = ext w
  ∧ (setState cfg p "patch" value w).2 = Ok p
  ∧ ∃ log, trace (setState cfg p "patch" value w).1 = trace w ++ log
           ∧ ∀ e, e ∈ log → e = EvSafeAssert "data.size() >= 4".
Proof.
  intros Hshort. rewrite setState_patch.
  destruct (bool_decide_reflect (fAutosavePath p = "")) as [Hempty|Hdir].
  - simpl. split; [done|]. split; [done|].
    exists []. rewrite app_nil_r. split; [done|].
    intros e He. by apply elem_of_nil in He.
  - unfold function, mbind, mret. cbn zeta.
    rewrite bool_decide_eq_false_2 by lia. simpl.
    split; [done|]. split; [done|].
    exists [EvSafeAssert "data.size() >= 4"]. split; [done|].
    intros e He. by apply list_elem_of_singleton in He.
Qed.

(** C8.  If archiving the staging directory throws, [getState] returns the
    empty string. *)
Theorem getState_archive_throws p w x1 x2 x3 x4 :
  fAutosavePath p ≠ "" →
  prepareSave (ext w) = (x1, Ok tt) →
  saveAutosave x1 = (x2, Ok tt) →
  cleanAutosave x2 = (x3, Ok tt) →
  archiveDirectory (fAutosavePath p) 1 x3 = (x4, Raised) →
  (getState cfg p "patch" w).2 = Ok ""
  ∧ ext (getState cfg p "patch" w).1 = x4.
Proof.
  intros Hdir H1 H2 H3 H4. rewrite getState_patch.
  rewrite (bool_decide_eq_false_2 _ Hdir).
  unfold function, mbind, mret, scoped_context, try_catch, call, emit.
  simpl. rewrite H1. simpl. rewrite H2. simpl. rewrite H3. simpl.
  rewrite H4. simpl. done.
Qed.

(** *** Sniffing the container *)

(** The comparison covers the four signature bytes and the byte after them,
    which has to be zero. *)
Lemma is_raw_document_five b0 b1 b2 b3 b4 rest :
  is_raw_document ([b0; b1; b2; b3; b4] ++ rest) = false
  ↔ [b0; b1; b2; b3] = [Byte.x28; Byte.xb5; Byte.x2f; Byte.xfd] ∧ b4 = Byte.x00.
Proof.
  unfold is_raw_document, memcmp_ne, sizeof_zstdMagic, zstdMagic. simpl.
  rewrite bool_decide_eq_false. split.
  - intros Hsame. apply dec_stable in Hsame. by injection Hsame as -> -> -> -> ->.
  - intros [Hmagic ->]. injection Hmagic as -> -> -> ->. by intros Hne.
Qed.

(** A blob whose first four bytes are not the signature is a raw document,
    whatever follows. *)
Lemma is_raw_document_other_signature data :
  (4 ≤ length data)%nat →
  take 4 data ≠ [Byte.x28; Byte.xb5; Byte.x2f; Byte.xfd] →
  is_raw_document data = true.
Proof.
  intros Hlen Hsig. unfold is_raw_document, memcmp_ne.
  apply bool_decide_eq_true_2. intros Hsame. apply Hsig.
  apply (f_equal (take 4)) in Hsame.
  rewrite take_take, take_app_le in Hsame by done.
  exact Hsame.
Qed.

(** The outcome when the blob is taken for a raw document and the directory
    could be cleared: the blob is written to [patch.json] as it is, and the
    load step follows. *)
Lemma setState_raw_document p value w x1 n1 x2 b2 x3 f :
  let data := d_getChunkFromBase64String value in
  let path := fAutosavePath p in
  let file := join path "patch.json" in
  path ≠ "" → (4 ≤ length data)%nat →
  is_raw_document data = true →
  removeRecursively path (ext w) = (x1, Ok n1) →
  createDirectories path x1 = (x2, Ok b2) →
  fopen file "w" x2 = (x3, Some f) →
  setState cfg p "patch" value w =
  function (
    scoped_context (
      try_catch
        (call EvLoadAutosave loadAutosave)
        (SAFE_EXCEPTION_RETURN "setState loadAutosave" p)) ;;'
    mret p)
    {| ext := fclose f (fwrite data f x3);
       trace := trace w ++ [EvRemoveRecursively path; EvCreateDirectories path;
                            EvFopen file "w"; EvFwrite data; EvFclose] |}.
Proof.
  intros data path file Hdir Hlen Hraw Hrm Hmk Hopen.
  subst data path file. rewrite setState_patch.
  rewrite (bool_decide_eq_false_2 _ Hdir). cbn zeta. rewrite Hraw.
  unfold function at 1, mbind at 1 2 3 4 5, mret at 1, SAFE_ASSERT_RETURN.
  rewrite (bool_decide_eq_true_2 _ Hlen).
  unfold mret at 1, call at 1 2. simpl. rewrite Hrm. simpl. rewrite Hmk. simpl.
  unfold mbind at 1, call_c at 1, call at 1. simpl. rewrite Hopen. simpl.
  rewrite <- !app_assoc. reflexivity.
Qed.

(** The outcome when the blob is taken for an archive. *)
Lemma setState_archive p value w x1 n1 x2 b2 x3 :
  let data := d_getChunkFromBase64String value in
  let path := fAutosavePath p in
  path ≠ "" → (4 ≤ length data)%nat →
  is_raw_document data = false →
  removeRecursively path (ext w) = (x1, Ok n1) →
  createDirectories path x1 = (x2, Ok b2) →
  unarchiveToDirectory data path x2 = (x3, Ok tt) →
  setState cfg p "patch" value w =
  function (
    scoped_context (
      try_catch
        (call EvLoadAutosave loadAutosave)
        (SAFE_EXCEPTION_RETURN "setState loadAutosave" p)) ;;'
    mret p)
    {| ext := x3;
       trace := trace w ++ [EvRemoveRecursively path; EvCreateDirectories path;
                            EvUnarchiveToDirectory data path] |}.
Proof.
  intros data path Hdir Hlen Hraw Hrm Hmk Hun.
  subst data path. rewrite setState_patch.
  rewrite (bool_decide_eq_false_2 _ Hdir). cbn zeta. rewrite Hraw.
  unfold function at 1, mbind at 1 2 3 4 5, mret at 1, SAFE_ASSERT_RETURN.
  rewrite (bool_decide_eq_true_2 _ Hlen).
  unfold mret at 1, call at 1 2. simpl. rewrite Hrm. simpl. rewrite Hmk. simpl.
  unfold try_catch at 1, call at 1. simpl. rewrite Hun. simpl.
  rewrite <- !app_assoc. reflexivity.
Qed.

(** C1, where the code departs from it.  A blob that starts with the four
    signature bytes [28 B5 2F FD] followed by a byte other than zero is not
    unarchived: it is written to [patch.json] as it is. *)
Theorem setState_signature_then_nonzero p value w b rest x1 n1 x2 b2 x3 f :
  let data := d_getChunkFromBase64String value in
  let path := fAutosavePath p in
  let file := join path "patch.json" in
  path ≠ "" →
  data = [Byte.x28; Byte.xb5; Byte.x2f; Byte.xfd; b] ++ rest → b ≠ Byte.x00 →
  removeRecursively path (ext w) = (x1, Ok n1) →
  createDirectories path x1 = (x2, Ok b2) →
  fopen file "w" x2 = (x3, Some f) →
  setState cfg p "patch" value w =
  function (
    scoped_context (
      try_catch
        (call EvLoadAutosave loadAutosave)
        (SAFE_EXCEPTION_RETURN "setState loadAutosave" p)) ;;'
    mret p)
    {| ext := fclose f (fwrite data f x3);
       trace := trace w ++ [EvRemoveRecursively path; EvCreateDirectories path;
                            EvFopen file "w"; EvFwrite data; EvFclose] |}.
Proof.
  intros data path file Hdir Hdata Hb Hrm Hmk Hopen.
  apply (setState_raw_document p value w x1 n1 x2 b2 x3 f); try done.
  - fold data. rewrite Hdata. simpl. lia.
  - fold data. rewrite Hdata.
    destruct (is_raw_document _) eqn:Hraw; [done|].
    apply is_raw_document_five in Hraw as [_ ->]. done.
Qed.

End PatchState.

(** ** The staging directory *)

Section StagingDirectory.
Context `{FloatOps}.
Context {Ext : Type} `{Collaborators Ext}.
Variable cfg : Config.

(** If the candidates [i .. i+k-1] exist and candidate [i+k] does not, the
    loop tests them in this order and asks for the directory [i+k], and
    [k+1] rounds are enough for that. *)
Lemma find_unused_finds {R} tmp k : ∀ i fuel w,
  (∀ j, i ≤ j < i + Z.of_nat k →
     sys_exists (join tmp (uidBuf j)) (ext w) = Ok true) →
  sys_exists (join tmp (uidBuf (i + Z.of_nat k))) (ext w) = Ok false →
  (k < fuel)%nat →
  find_unused (R:=R) fuel tmp i w =
    let path := join tmp (uidBuf (i + Z.of_nat k)) in
    (created ←' call (EvCreateDirectories path) (createDirectories path);
     mret (Some (if created : bool then Some path else None)))
      {| ext := ext w; trace := trace w ++ exists_tests tmp i (S k) |}.
Proof.
  induction k as [|k IH]; intros i fuel w Hused Hfree Hfuel;
    (destruct fuel as [|fuel]; [lia|]); simpl find_unused.
  - rewrite Z.add_0_r in *.
    unfold mbind at 1, query, call. rewrite Hfree. reflexivity.
  - unfold mbind at 1, query, call. rewrite (Hused i) by lia. simpl negb. cbv iota.
    rewrite (IH (i + 1) fuel); simpl ext; simpl trace.
    + replace (i + 1 + Z.of_nat k) with (i + Z.of_nat (S k)) by lia.
      cbn zeta. do 2 f_equal. rewrite <- app_assoc. f_equal.
      unfold exists_tests. rewrite (seqZ_cons i (Z.of_nat (S (S k)))) by lia.
      simpl fmap. do 3 f_equal; lia.
    + intros j Hj. apply Hused. lia.
    + replace (i + 1 + Z.of_nat k) with (i + Z.of_nat (S k)) by lia. done.
    + lia.
Qed.

(** The first free candidate is found and created. *)
Lemma createAutosavePath_finds fuel w tmp (n : nat) :
  getTempDirectory (ext w) = Ok tmp →
  (∀ j, 1 ≤ j < 1 + Z.of_nat n →
     sys_exists (join tmp (uidBuf j)) (ext w) = Ok true) →
  sys_exists (join tmp (uidBuf (1 + Z.of_nat n))) (ext w) = Ok false →
  (n < fuel)%nat →
  let path := join tmp (uidBuf (1 + Z.of_nat n)) in
  let made := createDirectories path (ext w) in
  createAutosavePath fuel w =
    ({| ext := made.1;
        trace := trace w ++ [EvGetTempDirectory] ++ exists_tests tmp 1 (S n)
                 ++ [EvCreateDirectories path]
                 ++ match made.2 with
                    | Raised => [EvSafeException "create unique temporary path"]
                    | Ok _ => []
                    end |},
     Some (match made.2 with Ok true => path | _ => "" end)).
Proof.
  intros Htmp Hused Hfree Hfuel path made.
  unfold createAutosavePath, try_catch.
  unfold mbind at 1, query at 1, call at 1. rewrite Htmp.
  rewrite (find_unused_finds tmp n 1 fuel); [|done..].
  cbn zeta. unfold mbind, call. simpl ext. simpl trace. fold path. fold made.
  destruct made as [x [[] |]]; simpl;
    rewrite <- ?app_assoc; simpl; rewrite ?app_nil_r; reflexivity.
Qed.

(** Without a temporary root nothing is tested or created. *)
Lemma createAutosavePath_no_root fuel w :
  getTempDirectory (ext w) = Raised →
  createAutosavePath fuel w =
    ({| ext := ext w;
        trace := trace w ++ [EvGetTempDirectory;
                             EvSafeException "create unique temporary path"] |},
     Some "").
Proof.
  intros Htmp. unfold createAutosavePath, try_catch.
  unfold mbind at 1, query at 1, call at 1. rewrite Htmp. simpl.
  rewrite <- app_assoc. reflexivity.
Qed.

(** The constructor stores what the search produced. *)
Lemma CardinalPlugin_path fuel context0 bufsize rate w w' p :
  CardinalPlugin fuel context0 bufsize rate w = (w', Some (Ok p)) →
  (createAutosavePath fuel w).2 = Some (fAutosavePath p)
  ∧ bypassMidiEvents p = initBypassMidiEvents
  ∧ fWasBypassed p = false ∧ fNextExpectedFrame p = 0.
Proof.
  unfold CardinalPlugin. intros Hctor.
  destruct (createAutosavePath fuel w) as [w1 [path|]]; [|done].
  unfold function, scoped_context, mbind, call, emit, mret in Hctor.
  simpl in Hctor.
  destruct (createRackContext path (ext w1)) as [x [[]|]]; simpl in Hctor; [|done].
  injection Hctor as _ <-. done.
Qed.

(** C9.  The constructor tries the suffixes 1, 2, 3, ... in this order, tests
    each candidate for existence and creates the first one that does not
    exist; the managed path is that candidate if the creation succeeds and is
    empty if the creation fails or if there is no temporary root; and with an
    empty managed path [getState] and [setState] with key "patch" return
    without asking anything of their collaborators. *)
Theorem staging_directory :
  (∀ fuel context0 bufsize rate w w' p tmp (n : nat),
     CardinalPlugin fuel context0 bufsize rate w = (w', Some (Ok p)) →
     getTempDirectory (ext w) = Ok tmp →
     (∀ j, 1 ≤ j < 1 + Z.of_nat n →
        sys_exists (join tmp (uidBuf j)) (ext w) = Ok true) →
     sys_exists (join tmp (uidBuf (1 + Z.of_nat n))) (ext w) = Ok false →
     (n < fuel)%nat →
     let path := join tmp (uidBuf (1 + Z.of_nat n)) in
     fAutosavePath p
       = match (createDirectories path (ext w)).2 with
         | Ok true => path
         | _ => ""
         end
     ∧ ∃ rest, trace w' = trace w ++ [EvGetTempDirectory]
                 ++ exists_tests tmp 1 (S n)
                 ++ [EvCreateDirectories path] ++ rest)
  ∧ (∀ fuel context0 bufsize rate w w' p,
       CardinalPlugin fuel context0 bufsize rate w = (w', Some (Ok p)) →
       getTempDirectory (ext w) = Raised →
       fAutosavePath p = "")
  ∧ (∀ p value w,
       fAutosavePath p = "" →
       getState cfg p "patch" w = (w, Ok "")
       ∧ setState cfg p "patch" value w = (w, Ok p)).
Proof.
  split; [|split].
  - intros * Hctor Htmp Hused Hfree Hfuel path.
    pose proof (CardinalPlugin_path _ _ _ _ _ _ _ Hctor) as (Hpath & _).
    pose proof (createAutosavePath_finds fuel w tmp n Htmp Hused Hfree Hfuel)
      as Hfound.
    cbn zeta in Hfound. fold path in Hfound.
    rewrite Hfound in Hpath. simpl in Hpath. injection Hpath as <-.
    split; [done|].
    unfold CardinalPlugin in Hctor. rewrite Hfound in Hctor.
    unfold function, scoped_context, mbind, call, emit, mret in Hctor.
    simpl in Hctor.
    match type of Hctor with
    | context [createRackContext ?a ?b] =>
        destruct (createRackContext a b) as [x [[]|]]
    end; simpl in Hctor; [|done].
    injection Hctor as Hw' _. rewrite <- Hw'. simpl.
    eexists. repeat (rewrite <- app_assoc; simpl). reflexivity.
  - intros * Hctor Htmp.
    pose proof (CardinalPlugin_path _ _ _ _ _ _ _ Hctor) as (Hpath & _).
    rewrite (createAutosavePath_no_root _ _ Htmp) in Hpath.
    by injection Hpath as <-.
  - intros p value w Hempty. split.
    + by apply getState_no_directory.
    + by apply setState_no_directory.
Qed.

End StagingDirectory.

Section PatchStateExamples.
Import InMemory.
#[local] Existing Instance int_floats.
#[local] Existing Instance disk_collaborators.

Lemma setState_short_blob_witness :
  ext (setState fx plugin0 "patch" "abc" (world staged_disk)).1 = staged_disk
  ∧ (setState fx plugin0 "patch" "abc" (world staged_disk)).2 = Ok plugin0.
Proof.
  assert (Hshort : (length (d_getChunkFromBase64String "abc") < 4)%nat)
    by (simpl; lia).
  destruct (setState_short_blob fx plugin0 "abc" (world staged_disk) Hshort)
    as (Hext & Hret & _).
  split; [exact Hext | exact Hret].
Defined.

(** Four bytes or more do reach the directory and the engine. *)
Example setState_raw_json :
  let w := (setState fx plugin0 "patch" "{} x" (world staged_disk)).1 in
  find "/tmp/Cardinal.0001/patch.json" (ext w)
    = Some (Reg (String.list_byte_of_string "{} x"))
  ∧ loads (ext w) = 1%nat.
Proof. vm_compute. done. Qed.

Lemma getState_archive_throws_witness :
  (getState fx plugin0 "patch" (world no_archive_disk)).2 = Ok "".
Proof.
  assert (Hdir : fAutosavePath plugin0 ≠ "") by discriminate.
  exact (proj1 (getState_archive_throws fx plugin0 (world no_archive_disk)
                  no_archive_disk no_archive_disk no_archive_disk no_archive_disk
                  Hdir eq_refl eq_refl eq_refl eq_refl)).
Defined.

(** When archiving works the result is not empty. *)
Example getState_archives :
  (getState fx plugin0 "patch" (world staged_disk)).2
  = Ok (String.string_of_list_byte container).
Proof. vm_compute. reflexivity. Qed.

Lemma setState_signature_then_nonzero_witness :
  let value := String.string_of_list_byte checksummed_frame in
  let w := (setState fx plugin0 "patch" value (world staged_disk)).1 in
  find "/tmp/Cardinal.0001/patch.json" (ext w) = Some (Reg checksummed_frame)
  ∧ EvUnarchiveToDirectory checksummed_frame "/tmp/Cardinal.0001" ∉ trace w.
Proof.
  intros value w. subst w.
  assert (Hdir : fAutosavePath plugin0 ≠ "") by discriminate.
  assert (Hb : Byte.x04 ≠ Byte.x00) by discriminate.
  erewrite (setState_signature_then_nonzero fx plugin0 value (world staged_disk)
              Byte.x04 []);
    [ | exact Hdir | vm_compute; reflexivity | exact Hb
      | vm_compute; reflexivity | vm_compute; reflexivity
      | vm_compute; reflexivity ].
  split; [vm_compute; reflexivity|].
  apply (bool_decide_unpack _). vm_compute. exact I.
Defined.

(** The same frame with a zero descriptor byte is unarchived. *)
Example setState_plain_frame :
  let value := String.string_of_list_byte (container ++ [Byte.x7b; Byte.x7d]) in
  let w := (setState fx plugin0 "patch" value (world staged_disk)).1 in
  EvUnarchiveToDirectory (container ++ [Byte.x7b; Byte.x7d]) "/tmp/Cardinal.0001"
    ∈ trace w.
Proof. apply (bool_decide_unpack _). vm_compute. exact I. Qed.

Lemma staging_directory_witness :
  ∃ w' p,
    CardinalPlugin 5 context0 512 48000 (world staged_disk) = (w', Some (Ok p))
    ∧ fAutosavePath p = "/tmp/Cardinal.0002".
Proof.
  destruct (CardinalPlugin 5 context0 512 48000 (world staged_disk))
    as [w' [[p|]|]] eqn:Hctor;
    [| exfalso; vm_compute in Hctor; discriminate
     | exfalso; vm_compute in Hctor; discriminate].
  exists w', p. split; [reflexivity|].
  assert (Hused : ∀ j, 1 ≤ j < 1 + Z.of_nat 1 →
            sys_exists (join "/tmp" (uidBuf j)) (ext (world staged_disk)) = Ok true).
  { intros j Hj. assert (j = 1) as -> by lia. vm_compute. reflexivity. }
  assert (Hfree : sys_exists (join "/tmp" (uidBuf (1 + Z.of_nat 1)))
                    (ext (world staged_disk)) = Ok false)
    by (vm_compute; reflexivity).
  destruct (proj1 (staging_directory fx) 5%nat context0 512 48000
              (world staged_disk)
              w' p "/tmp" 1%nat Hctor eq_refl Hused Hfree ltac:(lia))
    as [Hpath _].
  vm_compute in Hpath. exact Hpath.
Defined.

(** Without a temporary root the instance has no staging directory. *)
Example no_temporary_root :
  let d := {| entries := []; tmpdir := None; can_create := true;
              can_archive := true; loads := 0 |} in
  createAutosavePath 5 (world d)
  = ({| ext := d;
        trace := [EvGetTempDirectory;
                  EvSafeException "create unique temporary path"] |}, Some "").
Proof. reflexivity. Qed.

End PatchStateExamples.

(** * Further properties of the modelled code *)

(** ** MIDI output: what is forwarded and what is dropped *)

(** The sizes [writeMidiMessage] gives to the status bytes, as a table over
    the byte range. *)
Lemma event_size_table s :
  0 ≤ s < 256 →
  event_size s =
    if bool_decide (s < 0x80) then None
    else if bool_decide (s < 0xC0) then Some 3
    else if bool_decide (s < 0xE0) then Some 2
    else if bool_decide (s < 0xF0) then Some 3
    else if bool_decide (s ∈ [0xF0; 0xF4; 0xF5; 0xF7; 0xF9; 0xFD]) then None
    else if bool_decide (s ∈ [0xF1; 0xF2; 0xF3; 0xFE]) then Some 3
    else Some 1.
Proof.
  intros Hs.
  assert (Hall : Forall (λ s, event_size s =
    if bool_decide (s < 0x80) then None
    else if bool_decide (s < 0xC0) then Some 3
    else if bool_decide (s < 0xE0) then Some 2
    else if bool_decide (s < 0xF0) then Some 3
    else if bool_decide (s ∈ [0xF0; 0xF4; 0xF5; 0xF7; 0xF9; 0xFD]) then None
    else if bool_decide (s ∈ [0xF1; 0xF2; 0xF3; 0xFE]) then Some 3
    else Some 1) (seqZ 0 256))
    by (apply (bool_decide_unpack _); vm_compute; exact I).
  rewrite Forall_forall in Hall. apply Hall, elem_of_seqZ. lia.
Qed.

Lemma event_size_range s sz : event_size s = Some sz → sz = 1 ∨ sz = 2 ∨ sz = 3.
Proof.
  unfold event_size. repeat case_bool_decide; intros Hsz;
    try discriminate; injection Hsz as <-; auto.
Qed.

Section MidiForwarding.
Context `{FloatOps}.

(** X1.  [writeMidiMessage] hands the host at most one event.  An event it
    hands over carries the frame of the message (as a 32-bit value), has
    size 1, 2 or 3 and no more than the message has bytes, repeats the
    message's bytes after the first, and has as first byte the status of
    the message with the low four bits of a non-zero [channel] or-ed in
    when the status is below [0xF0]. *)
Theorem writeMidiMessage_event c uninit message channel evs log :
  writeMidiMessage c uninit message channel = (evs, log) →
  evs = [] ∨
  ∃ ev status,
    evs = [ev] ∧ log = []
    ∧ bypassed c = false
    ∧ msg_bytes message !! 0%nat = Some status
    ∧ 0 ≤ msg_frame message
    ∧ ev_frame ev = u32 (msg_frame message)
    ∧ event_size status = Some (ev_size ev)
    ∧ (ev_size ev = 1 ∨ ev_size ev = 2 ∨ ev_size ev = 3)
    ∧ ev_size ev ≤ Z.of_nat (length (msg_bytes message))
    ∧ ev_data ev !! 0%nat
        = Some (if negb (channel =? 0) && (status <? 0xF0)
                then Z.lor status (Z.land channel 0x0F) else status)
    ∧ ∀ i, (1 ≤ i)%nat → Z.of_nat i < ev_size ev →
        ev_data ev !! i = msg_bytes message !! i.
Proof.
  unfold writeMidiMessage. intros Hw.
  destruct (bypassed c); [injection Hw as <- <-; by left|].
  destruct (_ >? 0) eqn:Hpos; simpl in Hw; [|injection Hw as <- <-; by left].
  destruct (_ >=? 0) eqn:Hfr; simpl in Hw; [|injection Hw as <- <-; by left].
  destruct (msg_bytes message) as [|status bytes] eqn:Hbytes; [done|].
  simpl in Hw.
  destruct (event_size status) as [esize|] eqn:Hsize;
    [|injection Hw as <- <-; by left].
  destruct (_ >=? esize) eqn:Hlen; simpl in Hw; [|injection Hw as <- <-; by left].
  injection Hw as <- <-. right.
  apply Z.geb_le in Hfr, Hlen.
  pose proof (event_size_range _ _ Hsize) as Hrange.
  eexists _, status. simpl.
  repeat (split; [done || lia|]).
  assert (Hk : ∃ k, Z.to_nat esize = S k)
    by (exists (Z.to_nat esize - 1)%nat; lia).
  destruct Hk as [k Hk]. rewrite Hk. simpl.
  split.
  - by destruct (negb (channel =? 0) && (status <? 0xF0)).
  - intros i Hi Hlt.
    assert (Hi' : (i - 1 < k)%nat) by lia.
    assert (Hin : (i - 1 < length bytes)%nat) by (simpl in Hlen; lia).
    destruct i as [|i]; [lia|]. simpl in *.
    replace (i - 0)%nat with i in * by lia.
    destruct (negb (channel =? 0) && (status <? 0xF0)); simpl;
      rewrite lookup_app_l, lookup_take_lt by (rewrite ?length_take; lia);
      done.
Qed.

(** X2.  What is forwarded and what is dropped: a message reaches the host
    exactly when the instance is not bypassed, the message is not empty, its
    frame is not negative, its first byte is a status byte the table
    supports, and it holds at least as many bytes as the table asks for. *)
Theorem writeMidiMessage_forwards_iff c uninit message channel :
  (writeMidiMessage c uninit message channel).1 ≠ []
  ↔ bypassed c = false
    ∧ 0 ≤ msg_frame message
    ∧ ∃ status sz, msg_bytes message !! 0%nat = Some status
                   ∧ event_size status = Some sz
                   ∧ sz ≤ Z.of_nat (length (msg_bytes message)).
Proof.
  unfold writeMidiMessage. split.
  - intros Hne.
    destruct (bypassed c); [done|].
    destruct (_ >? 0) eqn:Hpos; simpl in Hne; [|done].
    destruct (_ >=? 0) eqn:Hfr; simpl in Hne; [|done].
    destruct (msg_bytes message) as [|status bytes] eqn:Hbytes; [done|].
    simpl in Hne.
    destruct (event_size status) as [esize|] eqn:Hsize; [|done].
    destruct (_ >=? esize) eqn:Hlen; simpl in Hne; [|done].
    apply Z.geb_le in Hfr, Hlen. repeat split; [lia|]. by exists status, esize.
  - intros (-> & Hfr & status & sz & Hst & Hsz & Hlen).
    destruct (msg_bytes message) as [|b bytes] eqn:Hbytes; [done|].
    injection Hst as ->.
    assert (Hpos : (Z.of_nat (length (status :: bytes)) >? 0) = true)
      by (apply Z.gtb_gt; simpl length; lia).
    apply Z.geb_le in Hfr, Hlen. rewrite Hpos, Hfr.
    change (default 0 ((status :: bytes) !! 0%nat)) with status.
    rewrite Hsz, Hlen. simpl. done.
Qed.

End MidiForwarding.

(** ** The host's state keys *)

Section StateKeys.
Context `{FloatOps}.
Context {Ext : Type} `{Collaborators Ext}.
Variable cfg : Config.

(** X3.  The keys "comment" and "screenshot" round-trip in every build:
    what [setState] stored is what [getState] returns, the other members of
    the instance stay as they are, and the collaborators are left alone,
    except that a build with liblo and a UI also passes a screenshot on to
    the remote, once. *)
Theorem comment_and_screenshot_round_trip p value w :
  (∃ p', setState cfg p "comment" value w = (w, Ok p')
         ∧ (∀ w', getState cfg p' "comment" w' = (w', Ok value))
         ∧ p' = set_fState value (fState_screenshot p) (fState_windowSize p) p)
  ∧ (∃ p' w1, setState cfg p "screenshot" value w = (w1, Ok p')
         ∧ (∀ w', getState cfg p' "screenshot" w' = (w', Ok value))
         ∧ p' = set_fState (fState_comment p) value (fState_windowSize p) p
         ∧ w1 = if HAVE_LIBLO cfg && negb (HEADLESS cfg)
                then {| ext := sendScreenshotToRemote value (ext w);
                        trace := trace w ++ [EvSendScreenshot value] |}
                else w).
Proof.
  split.
  - eexists. unfold setState, getState.
    rewrite !(bool_decide_eq_false_2 ("comment" = "moduleInfos")),
      !(bool_decide_eq_false_2 ("comment" = "windowSize")) by done.
    rewrite !andb_false_r. simpl. done.
  - unfold setState, getState.
    rewrite !(bool_decide_eq_false_2 ("screenshot" = "moduleInfos")),
      !(bool_decide_eq_false_2 ("screenshot" = "windowSize")),
      !(bool_decide_eq_false_2 ("screenshot" = "comment")) by done.
    rewrite !andb_false_r.
    destruct (HAVE_LIBLO cfg && negb (HEADLESS cfg)); simpl; eauto 10.
Qed.

(** X4.  The key "windowSize" round-trips in a build with a UI; a headless
    build ignores it: [setState] changes nothing and [getState] returns the
    empty string. *)
Theorem windowSize_by_build p value w :
  if HEADLESS cfg
  then setState cfg p "windowSize" value w = (w, Ok p)
       ∧ getState cfg p "windowSize" w = (w, Ok "")
  else ∃ p', setState cfg p "windowSize" value w = (w, Ok p')
             ∧ (∀ w', getState cfg p' "windowSize" w' = (w', Ok value))
             ∧ p' = set_fState (fState_comment p) (fState_screenshot p) value p.
Proof.
  unfold setState, getState.
  rewrite !(bool_decide_eq_false_2 ("windowSize" = "moduleInfos")) by done.
  rewrite !andb_false_r.
  destruct (HEADLESS cfg); simpl; [done|]. eauto.
Qed.

(** X5.  A key that is none of the five is ignored: [setState] leaves the
    instance and the collaborators as they are, and [getState] returns the
    empty string. *)
Theorem unknown_key_ignored p key value w :
  key ∉ ["moduleInfos"; "windowSize"; "comment"; "screenshot"; "patch"] →
  setState cfg p key value w = (w, Ok p)
  ∧ getState cfg p key w = (w, Ok "").
Proof.
  intros Hkey.
  assert (key ≠ "moduleInfos" ∧ key ≠ "windowSize" ∧ key ≠ "comment"
          ∧ key ≠ "screenshot" ∧ key ≠ "patch") as (H1 & H2 & H3 & H4 & H5)
    by (repeat split; intros ->; apply Hkey; set_solver).
  unfold setState, getState.
  rewrite !(bool_decide_eq_false_2 (key = _)) by done.
  rewrite (bool_decide_eq_true_2 (key ≠ "patch")) by done.
  rewrite !andb_false_r. done.
Qed.

End StateKeys.

(** ** Exceptions and the ambient context on the control path *)

Section Ambient.
Context {Ext : Type}.

Lemma ambient_snoc before log e :
  ambient before (log ++ [e])
  = match e with EvContextSet b => b | _ => ambient before log end.
Proof. unfold ambient. rewrite foldl_app. simpl. by destruct e. Qed.

Lemma ambient_quiet before log e :
  quiet e → ambient before (log ++ [e]) = ambient before log.
Proof. intros Hq. rewrite ambient_snoc. by destruct e. Qed.

Lemma settles_mret {R A} (a : A) : settles (Ext:=Ext) (R:=R) (mret a).
Proof. by intros w Hw. Qed.

Lemma settles_ret {R A} (r : R) : settles (Ext:=Ext) (A:=A) (ret_ r).
Proof. by intros w Hw. Qed.

Lemma settles_emit {R} e : quiet e → settles (Ext:=Ext) (R:=R) (emit e).
Proof. intros Hq w Hw. simpl. by rewrite ambient_quiet. Qed.

Lemma settles_call {R A} e (op : Ext → Ext * result A) :
  quiet e → settles (R:=R) (call e op).
Proof.
  intros Hq w Hw. unfold call. destruct (op (ext w)) as [x r]. simpl.
  by rewrite ambient_quiet.
Qed.

Lemma settles_call_c {R A} e (op : Ext → Ext * A) :
  quiet e → settles (R:=R) (call_c e op).
Proof. intros Hq. by apply settles_call. Qed.

Lemma settles_bind {R A B} (m : M (Ext:=Ext) R A) (k : A → M (Ext:=Ext) R B) :
  settles m → (∀ a, settles (k a)) → settles (mbind m k).
Proof.
  intros Hm Hk w Hw. unfold mbind. specialize (Hm w Hw).
  destruct (m w) as [w' [a|r|]]; simpl in *; [by apply Hk | done | done].
Qed.

Lemma settles_try {R A} (body handler : M (Ext:=Ext) R A) :
  settles body → settles handler → settles (try_catch body handler).
Proof.
  intros Hb Hh w Hw. unfold try_catch. specialize (Hb w Hw).
  destruct (body w) as [w' [a|r|]]; simpl in *; [done | done | by apply Hh].
Qed.

(** The destructor of [ScopedContext] unbinds the context, whatever the
    body did. *)
Lemma settles_scoped {R A} (body : M (Ext:=Ext) R A) : settles (scoped_context body).
Proof.
  intros w Hw. unfold scoped_context, emit. simpl.
  match goal with |- context [body ?w1] => destruct (body w1) end.
  simpl. by rewrite ambient_snoc.
Qed.

Lemma settles_function {R} (body : M (Ext:=Ext) R R) w :
  settles body → ambient false (trace w) = false →
  ambient false (trace (function body w).1) = false.
Proof.
  intros Hb Hw. unfold function. specialize (Hb w Hw).
  by destruct (body w) as [w' [a|r'|]].
Qed.

End Ambient.

Ltac settle :=
  repeat first
    [ apply settles_scoped
    | apply settles_bind; [|intros ?]
    | apply settles_try
    | apply settles_mret
    | apply settles_ret
    | apply settles_emit; exact I
    | apply settles_call; exact I
    | apply settles_call_c; exact I
    | match goal with
      | |- settles (if ?b then _ else _) => destruct b
      | |- settles (match ?x with _ => _ end) => destruct x
      end ].

Section AmbientContext.
Context `{FloatOps}.
Context {Ext : Type} `{Collaborators Ext}.
Variable cfg : Config.

(** X6.  [getState] and [setState] give the engine's ambient context back:
    when no context is bound before the call, none is bound after it,
    whatever the key, the value and the answers of the collaborators, also
    when a collaborator throws and when the call itself ends in an
    exception. *)
Theorem ambient_context_released p key value w :
  ambient false (trace w) = false →
  ambient false (trace (getState cfg p key w).1) = false
  ∧ ambient false (trace (setState cfg p key value w).1) = false.
Proof.
  intros Hw. split; apply settles_function; try done.
  - unfold SAFE_EXCEPTION_RETURN. settle.
  - unfold SAFE_EXCEPTION_RETURN, SAFE_ASSERT_RETURN.
    apply settles_bind; [|intros ?; settle].
    destruct (negb (HEADLESS cfg) && bool_decide (key = "moduleInfos"));
      [|apply settles_mret].
    intros w0 Hw0. destruct (loadModuleInfos value (ext w0)); simpl;
      rewrite ?ambient_quiet; done.
Qed.
End AmbientContext.

(** Splits on the outcomes the goal still branches on. *)
Ltac split_goal :=
  repeat match goal with
    | |- context [match ?x with _ => _ end] =>
        lazymatch x with
        | context [match _ with _ => _ end] => fail
        | _ => destruct x eqn:?; simpl
        end
    end.

Section EscapingExceptions.
Context `{FloatOps}.
Context {Ext : Type} `{Collaborators Ext}.
Variable cfg : Config.

(** X7.  The only exceptions that leave [setState] are those of
    [removeRecursively] and [createDirectories] on the staging directory,
    the two calls made outside a [try] block: when [setState] throws, the key
    is "patch", the instance has a staging directory, the decoded value holds
    at least four bytes, and one of the two calls threw. *)
Theorem setState_throws_only p key value w :
  (setState cfg p key value w).2 = Raised →
  key = "patch" ∧ fAutosavePath p ≠ ""
  ∧ (4 ≤ length (d_getChunkFromBase64String value))%nat
  ∧ ((removeRecursively (fAutosavePath p) (ext w)).2 = Raised
     ∨ (createDirectories (fAutosavePath p)
          (removeRecursively (fAutosavePath p) (ext w)).1).2 = Raised).
Proof.
  unfold setState, function, mbind, mret, ret_, SAFE_ASSERT_RETURN,
    SAFE_EXCEPTION_RETURN, scoped_context, try_catch, call_c, call, emit.
  simpl. split_goal; try discriminate.
  all: intros _.
  all: repeat match goal with
         | E : bool_decide _ = true |- _ => apply bool_decide_eq_true_1 in E
         | E : bool_decide _ = false |- _ => apply bool_decide_eq_false_1 in E
         end.
  all: match goal with E : ¬ _ ≠ "patch" |- _ => apply dec_stable in E; subst end.
  all: repeat split; try done.
  all: repeat match goal with E : _ = (_, _) |- _ => rewrite E; clear E end.
  all: simpl; auto.
Qed.
End EscapingExceptions.

Section FailedRestore.
Context `{FloatOps}.
Context {Ext : Type} `{Collaborators Ext}.
Variable cfg : Config.

(** X8.  The only exceptions that leave [getState] are those of
    [prepareSave], [saveAutosave] and [cleanAutosave], the three calls made
    outside the [try] block: when [getState] throws, the key is "patch", the
    instance has a staging directory, and one of the three threw. *)
Theorem getState_throws_only p key w :
  (getState cfg p key w).2 = Raised →
  key = "patch" ∧ fAutosavePath p ≠ ""
  ∧ let saved := saveAutosave (prepareSave (ext w)).1 in
    (prepareSave (ext w)).2 = Raised
    ∨ saved.2 = Raised
    ∨ (cleanAutosave saved.1).2 = Raised.
Proof.
  unfold getState, function, mbind, mret, ret_, SAFE_EXCEPTION_RETURN,
    scoped_context, try_catch, call_c, call, emit.
  simpl. split_goal; try discriminate.
  all: intros _.
  all: repeat match goal with
         | E : bool_decide _ = true |- _ => apply bool_decide_eq_true_1 in E
         | E : bool_decide _ = false |- _ => apply bool_decide_eq_false_1 in E
         end.
  all: match goal with E : ¬ _ ≠ "patch" |- _ => apply dec_stable in E; subst end.
  all: repeat split; try done.
  all: repeat match goal with E : _ = (_, _) |- _ => rewrite E; clear E end.
  all: simpl; auto.
Qed.

(** X9.  [setState] leaves alone what the audio thread works with: when it
    returns, the context, the scratch pointer, the staging path, the
    expected frame, the bypass memory and the bypass events of the instance
    are what they were, for every key and value; only the three state
    strings can change. *)
Theorem setState_keeps_audio_members p key value w p' :
  (setState cfg p key value w).2 = Ok p' →
  context p' = context p
  ∧ fAudioBufferCopy p' = fAudioBufferCopy p
  ∧ fAutosavePath p' = fAutosavePath p
  ∧ fNextExpectedFrame p' = fNextExpectedFrame p
  ∧ fWasBypassed p' = fWasBypassed p
  ∧ bypassMidiEvents p' = bypassMidiEvents p.
Proof.
  unfold setState, function, mbind, mret, ret_, SAFE_ASSERT_RETURN,
    SAFE_EXCEPTION_RETURN, scoped_context, try_catch, call_c, call, emit.
  simpl. split_goal; try discriminate.
  all: intros Hp'; injection Hp' as <-; done.
Qed.

(** X10.  When unarchiving throws, [setState] logs
    "setState unarchiveToDirectory" and returns with the instance unchanged.
    The staging directory has been removed and created again by then, and
    the engine is not asked to load: the trace ends with the log entry. *)
Theorem setState_failed_unarchive p value w x1 n1 x2 b2 x3 :
  let data := d_getChunkFromBase64String value in
  let path := fAutosavePath p in
  path ≠ "" → (4 ≤ length data)%nat →
  is_raw_document data = false →
  removeRecursively path (ext w) = (x1, Ok n1) →
  createDirectories path x1 = (x2, Ok b2) →
  unarchiveToDirectory data path x2 = (x3, Raised) →
  setState cfg p "patch" value w =
    ({| ext := x3;
        trace := trace w ++ [EvRemoveRecursively path; EvCreateDirectories path;
                             EvUnarchiveToDirectory data path;
                             EvSafeException "setState unarchiveToDirectory"] |},
     Ok p).
Proof.
  intros data path Hdir Hlen Hraw Hrm Hmk Hun.
  subst data path. rewrite setState_patch.
  rewrite (bool_decide_eq_false_2 _ Hdir). cbn zeta. rewrite Hraw.
  unfold function, mbind, mret, ret_, SAFE_ASSERT_RETURN, SAFE_EXCEPTION_RETURN,
    try_catch, call, emit.
  rewrite (bool_decide_eq_true_2 _ Hlen). simpl.
  rewrite Hrm. simpl. rewrite Hmk. simpl. rewrite Hun. simpl.
  repeat (rewrite <- app_assoc; simpl). reflexivity.
Qed.

(** X11.  When a raw document cannot be opened for writing ([fopen]
    returns null), [setState] reports the failed assertion and returns with
    the instance unchanged: nothing is written and the engine is not asked
    to load. *)
Theorem setState_failed_fopen p value w x1 n1 x2 b2 x3 :
  let data := d_getChunkFromBase64String value in
  let path := fAutosavePath p in
  let file := join path "patch.json" in
  path ≠ "" → (4 ≤ length data)%nat →
  is_raw_document data = true →
  removeRecursively path (ext w) = (x1, Ok n1) →
  createDirectories path x1 = (x2, Ok b2) →
  fopen file "w" x2 = (x3, None) →
  setState cfg p "patch" value w =
    ({| ext := x3;
        trace := trace w ++ [EvRemoveRecursively path; EvCreateDirectories path;
                             EvFopen file "w"; EvSafeAssert "f != nullptr"] |},
     Ok p).
Proof.
  intros data path file Hdir Hlen Hraw Hrm Hmk Hopen.
  subst data path file. rewrite setState_patch.
  rewrite (bool_decide_eq_false_2 _ Hdir). cbn zeta. rewrite Hraw.
  unfold function, mbind, mret, ret_, SAFE_ASSERT_RETURN, call_c, call, emit.
  rewrite (bool_decide_eq_true_2 _ Hlen). simpl.
  rewrite Hrm. simpl. rewrite Hmk. simpl. rewrite Hopen. simpl.
  repeat (rewrite <- app_assoc; simpl). reflexivity.
Qed.

(** X12.  When the engine throws while loading the unarchived patch, the
    exception is caught inside the scope of the bound context:
    [setState] logs "setState loadAutosave", unbinds the context and returns
    with the instance unchanged. *)
Theorem setState_failed_load p value w x1 n1 x2 b2 x3 x4 :
  let data := d_getChunkFromBase64String value in
  let path := fAutosavePath p in
  path ≠ "" → (4 ≤ length data)%nat →
  is_raw_document data = false →
  removeRecursively path (ext w) = (x1, Ok n1) →
  createDirectories path x1 = (x2, Ok b2) →
  unarchiveToDirectory data path x2 = (x3, Ok tt) →
  loadAutosave x3 = (x4, Raised) →
  setState cfg p "patch" value w =
    ({| ext := x4;
        trace := trace w ++ [EvRemoveRecursively path; EvCreateDirectories path;
                             EvUnarchiveToDirectory data path;
                             EvContextSet true; EvLoadAutosave;
                             EvSafeException "setState loadAutosave";
                             EvContextSet false] |},
     Ok p).
Proof.
  intros data path Hdir Hlen Hraw Hrm Hmk Hun Hload.
  rewrite (setState_archive cfg p value w x1 n1 x2 b2 x3); try done.
  unfold function, mbind, mret, ret_, SAFE_EXCEPTION_RETURN, scoped_context,
    try_catch, call, emit.
  simpl. rewrite Hload. simpl.
  repeat (rewrite <- app_assoc; simpl). reflexivity.
Qed.

End FailedRestore.

Section RoundTrip.
Context `{FloatOps}.
Context {Ext : Type} `{Collaborators Ext}.
Variable cfg : Config.

Lemma is_raw_document_archive bytes :
  take 5 bytes = zstdMagic → is_raw_document bytes = false.
Proof.
  intros Hmagic. unfold is_raw_document, memcmp_ne, sizeof_zstdMagic.
  apply bool_decide_eq_false_2. intros Hne. apply Hne.
  assert (Hlen : (5 ≤ length bytes)%nat).
  { apply (f_equal length) in Hmagic. rewrite length_take in Hmagic.
    change (length zstdMagic) with 5%nat in Hmagic. lia. }
  change (length zstdMagic) with 5%nat.
  rewrite take_app_le by lia. exact Hmagic.
Qed.

(** X13.  What [getState] returns for "patch" is read by [setState] as an
    archive.  With a base64 codec that decodes what it encoded, and an
    archive that starts with the zstd signature followed by a zero byte,
    [getState] returns the encoded archive, and [setState] of that value, on
    any state of the collaborators, unarchives exactly the archived bytes
    into the staging directory and goes on to load them; the raw-document
    branch is not taken. *)
Theorem patch_round_trip p w x1 x2 x3 x4 bytes :
  let path := fAutosavePath p in
  path ≠ "" →
  prepareSave (ext w) = (x1, Ok tt) →
  saveAutosave x1 = (x2, Ok tt) →
  cleanAutosave x2 = (x3, Ok tt) →
  archiveDirectory path 1 x3 = (x4, Ok bytes) →
  d_getChunkFromBase64String (asBase64 bytes) = bytes →
  take 5 bytes = zstdMagic →
  getState cfg p "patch" w =
    ({| ext := x4;
        trace := trace w ++ [EvContextSet true; EvPrepareSave; EvSaveAutosave;
                             EvCleanAutosave; EvArchiveDirectory path 1;
                             EvContextSet false] |},
     Ok (asBase64 bytes))
  ∧ ∀ w2 y1 n y2 b y3,
      removeRecursively path (ext w2) = (y1, Ok n) →
      createDirectories path y1 = (y2, Ok b) →
      unarchiveToDirectory bytes path y2 = (y3, Ok tt) →
      setState cfg p "patch" (asBase64 bytes) w2 =
      function (
        scoped_context (
          try_catch
            (call EvLoadAutosave loadAutosave)
            (SAFE_EXCEPTION_RETURN "setState loadAutosave" p)) ;;'
        mret p)
        {| ext := y3;
           trace := trace w2 ++ [EvRemoveRecursively path;
                                 EvCreateDirectories path;
                                 EvUnarchiveToDirectory bytes path] |}.
Proof.
  intros path Hdir H1 H2 H3 H4 Hcodec Hmagic. split.
  - rewrite getState_patch. rewrite (bool_decide_eq_false_2 _ Hdir).
    unfold function, mbind, mret, scoped_context, try_catch, call, emit.
    simpl. rewrite H1. simpl. rewrite H2. simpl. rewrite H3. simpl.
    fold path. rewrite H4. simpl.
    repeat (rewrite <- app_assoc; simpl). reflexivity.
  - intros w2 y1 n y2 b y3 Hrm Hmk Hun.
    assert (Hlen : (4 ≤ length bytes)%nat).
    { apply (f_equal length) in Hmagic. rewrite length_take in Hmagic.
      change (length zstdMagic) with 5%nat in Hmagic. lia. }
    pose proof (setState_archive cfg p (asBase64 bytes) w2 y1 n y2 b y3) as Hset.
    cbn zeta in Hset. rewrite Hcodec in Hset.
    apply Hset; try done. by apply is_raw_document_archive.
Qed.

End RoundTrip.

Section Directory.
Context `{FloatOps}.
Context {Ext : Type} `{Collaborators Ext}.

Lemma find_unused_found {R} tmp fuel : ∀ i w w' path,
  find_unused (R:=R) fuel tmp i w = (w', Normal (Some (Some path))) →
  ∃ k : nat,
    path = join tmp (uidBuf (i + Z.of_nat k))
    ∧ (∀ j, i ≤ j < i + Z.of_nat k →
         sys_exists (join tmp (uidBuf j)) (ext w) = Ok true)
    ∧ sys_exists path (ext w) = Ok false
    ∧ createDirectories path (ext w) = (ext w', Ok true).
Proof.
  induction fuel as [|fuel IH]; intros i w w' path Hfind; [done|].
  simpl in Hfind. unfold mbind at 1, query, call in Hfind.
  destruct (sys_exists (join tmp (uidBuf i)) (ext w)) as [[]|] eqn:Hex;
    simpl in Hfind; [| |done].
  - apply IH in Hfind as (k & -> & Hused & Hfree & Hmk). simpl in *.
    exists (S k). replace (i + Z.of_nat (S k)) with (i + 1 + Z.of_nat k) by lia.
    repeat split; [|done..]. intros j Hj.
    destruct (decide (j = i)) as [->|]; [done|]. apply Hused. lia.
  - unfold mbind, call, mret in Hfind. simpl in Hfind.
    destruct (createDirectories (join tmp (uidBuf i)) (ext w)) as [x [[]|]] eqn:Hmk;
      simpl in Hfind; [|done..].
    injection Hfind as <- <-. simpl. exists 0%nat. rewrite Z.add_0_r.
    repeat split; [|done..]. intros j Hj. lia.
Qed.

(** X14.  A staging directory the constructor found is new: when the
    search yields a non-empty path, the path is "Cardinal." and a number
    [1 + k] under the temporary root, every candidate with a lower number
    existed, the path itself did not exist before the call, and
    [createDirectories] reported that it created it. *)
Theorem staging_directory_is_new fuel w w' path :
  createAutosavePath fuel w = (w', Some path) → path ≠ "" →
  ∃ tmp (k : nat),
    getTempDirectory (ext w) = Ok tmp
    ∧ path = join tmp (uidBuf (1 + Z.of_nat k))
    ∧ (∀ j, 1 ≤ j < 1 + Z.of_nat k →
         sys_exists (join tmp (uidBuf j)) (ext w) = Ok true)
    ∧ sys_exists path (ext w) = Ok false
    ∧ createDirectories path (ext w) = (ext w', Ok true).
Proof.
  unfold createAutosavePath, try_catch. intros Hpath Hne.
  unfold mbind at 1, query at 1, call at 1 in Hpath.
  destruct (getTempDirectory (ext w)) as [tmp|] eqn:Htmp; simpl in Hpath.
  - match type of Hpath with
    | context [find_unused fuel tmp 1 ?w1] =>
        destruct (find_unused (R:=unit) fuel tmp 1 w1) as [w1' [[[found|]|]|r|]]
          eqn:Hfind
    end; simpl in Hpath; try done.
    + injection Hpath as <- <-.
      apply find_unused_found in Hfind as (k & -> & Hused & Hfree & Hmk).
      exists tmp, k. done.
    + injection Hpath as _ <-. done.
    + injection Hpath as _ <-. done.
  - injection Hpath as _ <-. done.
Qed.

End Directory.

(** ** The buffers after the preparation of a block *)

Section BufferFrame.
Context `{FloatOps}.
Variable cfg : Config.

(** The copy loop and the clearing loop leave the pointer arrays alone. *)
Lemma select_buffers_parrays p m inputs outputs n ins outs mm :
  select_buffers cfg p m inputs outputs n = Some (ins, outs, mm) →
  parrays mm = parrays m
  ∧ ∀ a, (∀ j, (j < NUM_INPUTS cfg)%nat →
            load_ptr m (fAudioBufferCopy p) j ≠ Some a) →
         samples mm !! a = samples m !! a.
Proof.
  unfold select_buffers. intros Hsel.
  destruct (separate_buffers m inputs outputs) as [[]|]; simpl in Hsel; [|..|done].
  - by injection Hsel as _ _ <-.
  - destruct (NUM_INPUTS cfg) as [|k] eqn:Hk; [by injection Hsel as _ _ <-|].
    destruct (for_range (S k) _ m) as [mc|] eqn:Hcopy; simpl in Hsel; [|done].
    injection Hsel as _ _ <-.
    destruct (for_each_frame (λ j x, load_ptr m (fAudioBufferCopy p) j = Some x)
                (copy_input cfg inputs (fAudioBufferCopy p) n) m
                ltac:(intros j mx mx'; apply copy_input_frame)
                _ _ _ eq_refl Hcopy) as (Hp & Hf).
    split; [done|]. intros a Ha. apply Hf.
    intros j Hj. apply elem_of_seq in Hj. apply Ha. lia.
Qed.

(** Once a buffer starts with [n] zeros, a round of the clearing loop keeps
    it so. *)
Lemma clear_output_keeps_zero outputs n k m m' a :
  clear_output cfg outputs n k m = Some m' →
  load_buf m a n = Some (replicate n zero_sample) →
  load_buf m' a n = Some (replicate n zero_sample).
Proof.
  unfold clear_output, memset0. intros Hc Hz.
  destruct (load_ptr m outputs k) as [dst|]; simpl in Hc; [|done].
  destruct (VARIANT_MAIN cfg && bool_decide (dst = 0)); [by injection Hc as <-|].
  apply store_buf_Some in Hc as (_ & Hframe & Hdst).
  rewrite length_replicate in Hdst.
  destruct (decide (a = dst)) as [->|Hne]; [done|].
  rewrite <- Hz. apply load_buf_ext, Hframe, Hne.
Qed.

Lemma clear_loop_keeps_zero outputs n idx : ∀ m m' a,
  for_each idx (clear_output cfg outputs n) m = Some m' →
  load_buf m a n = Some (replicate n zero_sample) →
  load_buf m' a n = Some (replicate n zero_sample).
Proof.
  induction idx as [|j idx IH]; intros m m' a Hloop Hz; simpl in Hloop.
  - by injection Hloop as <-.
  - destruct (clear_output cfg outputs n j m) as [mj|] eqn:Hj; simpl in Hloop; [|done].
    eapply IH; [exact Hloop|]. by eapply clear_output_keeps_zero.
Qed.

Lemma clear_loop_zeroes outputs n idx : ∀ m m' k a,
  for_each idx (clear_output cfg outputs n) m = Some m' →
  k ∈ idx → load_ptr m outputs k = Some a → a ≠ 0 →
  load_buf m' a n = Some (replicate n zero_sample).
Proof.
  induction idx as [|j idx IH]; intros m m' k a Hloop Hk Ha Hnz; simpl in Hloop.
  - by apply elem_of_nil in Hk.
  - destruct (clear_output cfg outputs n j m) as [mj|] eqn:Hj; simpl in Hloop; [|done].
    destruct (clear_output_frame cfg outputs n m j m mj eq_refl Hj) as (Hp & _).
    apply elem_of_cons in Hk as [->|Hk].
    + eapply clear_loop_keeps_zero; [exact Hloop|].
      unfold clear_output in Hj. rewrite Ha in Hj. simpl in Hj.
      rewrite bool_decide_eq_false_2, andb_false_r in Hj by done.
      apply store_buf_Some in Hj as (_ & _ & Hdst).
      by rewrite length_replicate in Hdst.
    + eapply IH; [exact Hloop | exact Hk | | exact Hnz].
      by rewrite (load_ptr_ext m mj).
Qed.

(** X15.  After the preparation of a block every non-null output buffer
    starts with [frames] zeros, on both buffer paths and also when the same
    buffer serves as an input. *)
Theorem outputs_cleared p m timePos inputs outputs frames evs count p1 m1 k a :
  run_prepare cfg p m timePos inputs outputs frames evs count = Some (p1, m1) →
  (k < NUM_OUTPUTS cfg)%nat → load_ptr m outputs k = Some a → a ≠ 0 →
  load_buf m1 a (Z.to_nat frames)
    = Some (replicate (Z.to_nat frames) zero_sample).
Proof.
  intros Hprep Hk Ha Hnz.
  apply run_prepare_buffers in Hprep as (mm & Hsel & Hclear).
  apply select_buffers_parrays in Hsel as (Hp & _).
  eapply (clear_loop_zeroes _ _ _ _ _ k); [exact Hclear | | | exact Hnz].
  - apply elem_of_seq. lia.
  - by rewrite (load_ptr_ext m mm).
Qed.

(** X16.  The preparation of a block writes to the output buffers and, on
    the in-place path, to the scratch buffers, and to nothing else: the
    pointer arrays are unchanged, and a buffer that is no output channel
    keeps its samples when the buffers are separate or when it is no scratch
    buffer. *)
Theorem run_prepare_writes p m timePos inputs outputs frames evs count p1 m1 :
  run_prepare cfg p m timePos inputs outputs frames evs count = Some (p1, m1) →
  parrays m1 = parrays m
  ∧ ∀ a,
      (∀ k, (k < NUM_OUTPUTS cfg)%nat → load_ptr m outputs k ≠ Some a) →
      (separate_buffers m inputs outputs = Some true
       ∨ ∀ j, (j < NUM_INPUTS cfg)%nat →
              load_ptr m (fAudioBufferCopy p) j ≠ Some a) →
      samples m1 !! a = samples m !! a.
Proof.
  intros Hprep.
  apply run_prepare_buffers in Hprep as (mm & Hsel & Hclear).
  pose proof (select_buffers_parrays _ _ _ _ _ _ _ _ Hsel) as (Hp & Hcopy).
  destruct (for_each_frame (λ k x, load_ptr m outputs k = Some x)
              (clear_output cfg outputs (Z.to_nat frames)) m
              ltac:(intros j mx mx'; apply clear_output_frame)
              _ _ _ Hp Hclear) as (Hp1 & Hf1).
  split; [done|]. intros a Hout Hscr.
  rewrite Hf1 by (intros k Hk; apply elem_of_seq in Hk; apply Hout; lia).
  destruct Hscr as [Hsep|Hscr]; [|by apply Hcopy].
  unfold select_buffers in Hsel. rewrite Hsep in Hsel. simpl in Hsel.
  by injection Hsel as _ _ <-.
Qed.

(** X17.  On the separate-buffers path the engine reads the host's input
    buffers themselves: [dataIns] is the host's array, and channel [i] reads
    the first [frames] samples the host had there, provided no output
    channel is that same buffer. *)
Theorem separate_buffers_pass_through
    p m timePos inputs outputs frames evs count p1 m1 i a buf :
  run_prepare cfg p m timePos inputs outputs frames evs count = Some (p1, m1) →
  separate_buffers m inputs outputs = Some true →
  load_ptr m inputs i = Some a → a ≠ 0 →
  samples m !! a = Some buf → (Z.to_nat frames ≤ length buf)%nat →
  (∀ k, (k < NUM_OUTPUTS cfg)%nat → load_ptr m outputs k ≠ Some a) →
  dataIns (context p1) = inputs
  ∧ engine_input (context p1) m1 i (Z.to_nat frames)
    = Some (take (Z.to_nat frames) buf).
Proof.
  intros Hprep Hsep Ha Hnz Hbuf Hlen Hout.
  pose proof (run_prepare_buffers _ _ _ _ _ _ _ _ _ _ _ Hprep)
    as (mm & Hsel & Hclear).
  unfold select_buffers in Hsel. rewrite Hsep in Hsel. simpl in Hsel.
  injection Hsel as Hins _ <-.
  destruct (for_each_frame (λ k x, load_ptr m outputs k = Some x)
              (clear_output cfg outputs (Z.to_nat frames)) m
              ltac:(intros j mx mx'; apply clear_output_frame)
              _ _ _ eq_refl Hclear) as (Hp1 & Hf1).
  split; [done|].
  unfold engine_input. rewrite <- Hins, (load_ptr_ext m m1), Ha by done. simpl.
  unfold load_buf. rewrite decide_False by done.
  rewrite Hf1 by (intros k Hk; apply elem_of_seq in Hk; apply Hout; lia).
  rewrite Hbuf. simpl. by rewrite decide_True.
Qed.

End BufferFrame.

(** ** A shared channel other than the first *)

Section SharedChannel.
Context `{FloatOps}.
Variable cfg : Config.

(** C3.  The code misses the case it allocates the scratch buffers for.  Its
    test compares the two arrays and the pointers of channel 0 only: when
    these differ, [run] takes the branch "separate buffers, use them" also
    for a block in which another channel [i] has one buffer as its input and
    as its output.  Nothing is copied to the scratch buffers then, the
    clearing loop zeroes the shared buffer, and the engine reads [frames]
    zeros as the input of channel [i], whatever samples the host had
    there. *)
Theorem shared_channel_cleared
    p m timePos inputs outputs frames evs count p1 m1 i a :
  run_prepare cfg p m timePos inputs outputs frames evs count = Some (p1, m1) →
  inputs ≠ outputs →
  load_ptr m inputs 0 ≠ load_ptr m outputs 0 →
  (i < NUM_OUTPUTS cfg)%nat →
  load_ptr m inputs i = Some a → load_ptr m outputs i = Some a → a ≠ 0 →
  separate_buffers m inputs outputs = Some true
  ∧ dataIns (context p1) = inputs
  ∧ dataOuts (context p1) = outputs
  ∧ engine_input (context p1) m1 i (Z.to_nat frames)
    = Some (replicate (Z.to_nat frames) zero_sample).
Proof.
  intros Hprep Hne Hzero Hi Hin Hout Hnz.
  apply run_prepare_buffers in Hprep as (mm & Hsel & Hclear).
  unfold select_buffers in Hsel.
  destruct (separate_buffers m inputs outputs) as [sep|] eqn:Hsep;
    simpl in Hsel; [|done].
  assert (sep = true) as ->
    by (apply (separate_buffers_true _ _ _ _ Hsep); auto).
  injection Hsel as Hins Houts <-.
  split; [done|]. split; [done|]. split; [done|].
  destruct (for_each_frame (λ k x, load_ptr m outputs k = Some x)
              (clear_output cfg outputs (Z.to_nat frames)) m
              ltac:(intros j mx mx'; apply clear_output_frame)
              _ _ _ eq_refl Hclear) as (Hp1 & _).
  unfold engine_input. rewrite <- Hins, (load_ptr_ext m m1), Hin by done. simpl.
  eapply (clear_loop_zeroes cfg _ _ _ _ _ i);
    [exact Hclear | apply elem_of_seq; lia | exact Hout | exact Hnz].
Qed.

End SharedChannel.

Section SharedChannelExample.
Import InMemory.
#[local] Existing Instance int_floats.

Lemma shared_channel_cleared_witness :
  ∃ p1 m1, shared_channel_block = Some (p1, m1)
           ∧ samples mem0 !! 11 = Some [3; 4]
           ∧ dataIns (context p1) = 100
           ∧ engine_input (context p1) m1 1 2 = Some [0; 0].
Proof.
  assert (Hruns : is_Some shared_channel_block)
    by (apply (bool_decide_unpack _); vm_compute; exact I).
  destruct Hruns as [[p1 m1] Hrun]. exists p1, m1. split; [exact Hrun|].
  split; [reflexivity|].
  unfold shared_channel_block in Hrun.
  destruct (shared_channel_cleared fx _ _ _ _ _ _ _ _ _ _ 1%nat 11 Hrun)
    as (_ & Hins & _ & Hsees);
    [ discriminate | vm_compute; congruence | cbn; lia | reflexivity
    | reflexivity | discriminate | ].
  split; [exact Hins | exact Hsees].
Defined.

End SharedChannelExample.

(** ** Transport over two blocks *)

Section TwoBlocks.
Context `{FloatOps}.
Variable cfg : Config.
Variable Engine : Type.
Variable stepBlock : Z → Context → Mem * Engine → Mem * Engine.

Lemma u64_is_u64 z : is_u64 (u64 z).
Proof. unfold is_u64, u64. apply Z.mod_pos_bound. done. Qed.

(** What a block leaves for the discontinuity test of the next one. *)
Lemma run_transport_state p m e timePos inputs outputs frames evs count p' m' e' :
  run cfg Engine stepBlock p m e timePos inputs outputs frames evs count
    = Some (p', m', e') →
  fNextExpectedFrame p' = next_expected_frame timePos frames
  ∧ playing (context p') = tp_playing timePos
  ∧ frame (context p') = tp_frame timePos.
Proof.
  intros Hrun. apply run_inv in Hrun as (p1 & m1 & Hprep & -> & _).
  apply run_prepare_fields in Hprep as (_ & Hpl & Hfr & _ & Hn & _).
  simpl. done.
Qed.

(** X18.  Two consecutive blocks while the transport plays, with any
    change of the bypass parameter in between: for a non-zero frame the
    second block raises the reset flag exactly when its frame is more than 2
    away from the frame of the first block plus its length (modulo 2^64). *)
Theorem continuous_playback
    p m1 e1 t1 i1 o1 n1 evs1 c1 p1 m1' e1' b
    m2 e2 t2 i2 o2 n2 evs2 c2 p2 m2' e2' :
  run cfg Engine stepBlock p m1 e1 t1 i1 o1 n1 evs1 c1 = Some (p1, m1', e1') →
  run cfg Engine stepBlock (set_bypassed b p1) m2 e2 t2 i2 o2 n2 evs2 c2
    = Some (p2, m2', e2') →
  tp_playing t1 = true → tp_playing t2 = true →
  is_u64 (tp_frame t2) → tp_frame t2 ≠ 0 →
  reset (context p2)
    = bool_decide (2 < Z.abs (u64 (tp_frame t1 + n1) - tp_frame t2)).
Proof.
  intros Hrun1 Hrun2 Hp1 Hp2 Hf2 Hnz.
  apply run_transport_state in Hrun1 as (Hexp & Hpl & Hfr).
  apply run_fields in Hrun2 as (-> & _).
  rewrite transport_reset_closed; simpl; rewrite ?Hexp; unfold next_expected_frame;
    rewrite ?Hp1; [|apply u64_is_u64|done].
  rewrite Hp2.
  destruct (Z.eqb_spec (tp_frame t2) 0) as [|_]; [done|].
  rewrite !andb_false_r. simpl.
  destruct (Z.gtb_spec (Z.abs (u64 (tp_frame t1 + n1) - tp_frame t2)) 2);
    symmetry; [apply bool_decide_eq_true_2 | apply bool_decide_eq_false_2]; lia.
Qed.

(** X19.  A block that plays after a block with the transport stopped
    raises the reset flag unless its frame is 1 or 2: the stopped block left
    0 as the expected frame, and a start at frame 0 counts as a change from
    stopped to playing. *)
Theorem restart_after_stop
    p m1 e1 t1 i1 o1 n1 evs1 c1 p1 m1' e1' b
    m2 e2 t2 i2 o2 n2 evs2 c2 p2 m2' e2' :
  run cfg Engine stepBlock p m1 e1 t1 i1 o1 n1 evs1 c1 = Some (p1, m1', e1') →
  run cfg Engine stepBlock (set_bypassed b p1) m2 e2 t2 i2 o2 n2 evs2 c2
    = Some (p2, m2', e2') →
  tp_playing t1 = false → tp_playing t2 = true → is_u64 (tp_frame t2) →
  reset (context p2) = bool_decide (tp_frame t2 ∉ [1; 2]).
Proof.
  intros Hrun1 Hrun2 Hp1 Hp2 Hf2.
  apply run_transport_state in Hrun1 as (Hexp & Hpl & Hfr).
  apply run_fields in Hrun2 as (-> & _).
  rewrite transport_reset_closed; simpl; rewrite ?Hexp; unfold next_expected_frame;
    rewrite ?Hp1; [|done|done].
  rewrite Hpl, Hp1, Hp2. simpl.
  unfold is_u64 in Hf2.
  destruct (Z.eqb_spec (tp_frame t2) 0) as [Hz|Hnz]; simpl.
  - symmetry. apply bool_decide_eq_true_2. rewrite Hz. intros Hin.
    repeat (apply elem_of_cons in Hin as [Hin|Hin]; [lia|]).
    by apply elem_of_nil in Hin.
  - destruct (Z.gtb_spec (Z.abs (0 - tp_frame t2)) 2); symmetry.
    + apply bool_decide_eq_true_2. intros Hin.
      repeat (apply elem_of_cons in Hin as [Hin|Hin]; [lia|]).
      by apply elem_of_nil in Hin.
    + apply bool_decide_eq_false_2. intros Hnot. apply Hnot.
      assert (tp_frame t2 = 1 ∨ tp_frame t2 = 2) as [-> | ->] by lia;
        rewrite !elem_of_cons; auto.
Qed.

End TwoBlocks.

Section FirstBlock.
Context `{FloatOps}.
Context {Ext : Type} `{Collaborators Ext}.
Variable cfg : Config.
Variable Engine : Type.
Variable stepBlock : Z → Context → Mem * Engine → Mem * Engine.

(** X20.  An instance that is bypassed before its first block hands the
    engine the sixteen all-sound-off events in that block: the constructor
    leaves [fWasBypassed] false and the events initialised. *)
Theorem first_block_bypassed fuel context0 bufsize rate w w' p
    m e timePos inputs outputs frames evs count p1 m1 e1 :
  CardinalPlugin fuel context0 bufsize rate w = (w', Some (Ok p)) →
  run cfg Engine stepBlock (set_bypassed true p) m e timePos inputs outputs
      frames evs count = Some (p1, m1, e1) →
  midiEvents (context p1) = all_sound_off <$> seqZ 0 16
  ∧ midiEventCount (context p1) = 16.
Proof.
  intros Hctor Hrun.
  apply CardinalPlugin_path in Hctor as (_ & Hevs & Hwas & _).
  apply run_delivers in Hrun as (Hd & _).
  rewrite Hwas, Hevs, initBypassMidiEvents_all_sound_off in Hd.
  by injection Hd as -> ->.
Qed.

End FirstBlock.

(** ** Parameters *)

Section ParameterFacts.
Context `{ParameterOps}.
Variable cfg : Config.

Lemma setParameterValue_well_sized s index value s' :
  well_sized s → setParameterValue cfg s index value = Some s' → well_sized s'.
Proof.
  unfold well_sized, setParameterValue. intros (Hk & Hw & Hfit & Hp & Hwp) Hset.
  repeat match type of Hset with
         | context [if ?b then _ else _] => destruct b
         end; try discriminate; injection Hset as <-; simpl;
    rewrite ?length_insert; done.
Qed.

(** X21.  A parameter the build has reads back as written: after
    [setParameterValue(index, value)], [getParameterValue(index)] returns
    [value], except for the bypass parameter, which returns 1.0 when the
    value was above 0.5 and 0.0 otherwise.  The bypass flag of the context
    changes for the bypass parameter only. *)
Theorem parameter_round_trip s index value :
  well_sized s → 0 ≤ index < kModuleParameters + 1 + window_parameters cfg →
  ∃ s', setParameterValue cfg s index value = Some s'
        ∧ getParameterValue cfg s' index = Some (stored index value)
        ∧ bypassed (context (instance s'))
          = (if index =? kModuleParameters then above_half value
             else bypassed (context (instance s))).
Proof.
  unfold well_sized, window_parameters, setParameterValue, getParameterValue, stored.
  intros (Hk & Hw & Hfit & Hp & Hwp) Hi.
  destruct (Z.ltb_spec index kModuleParameters) as [Hlt|Hge].
  - rewrite bool_decide_eq_true_2 by lia. eexists. split; [done|].
    simpl. destruct (Z.eqb_spec index kModuleParameters); [lia|].
    split; [|done]. apply list_lookup_insert_eq. lia.
  - destruct (Z.eqb_spec index kModuleParameters) as [->|Hne].
    + eexists. split; [done|]. simpl. done.
    + destruct (HEADLESS cfg); [lia|].
      assert (Hu : u32 (index - (kModuleParameters + 1))
                   = index - (kModuleParameters + 1))
        by (unfold u32; apply Z.mod_small; lia).
      rewrite Hu.
      destruct (Z.ltb_spec (index - (kModuleParameters + 1)) kWindowParameterCount);
        [|lia].
      rewrite bool_decide_eq_true_2 by lia. eexists. split; [done|]. simpl.
      split; [|done]. apply list_lookup_insert_eq. lia.
Qed.

(** X22.  Setting one parameter leaves the value of every other parameter
    as it was. *)
Theorem parameter_isolation s index value s' other :
  well_sized s → 0 ≤ index < 2 ^ 32 → 0 ≤ other < 2 ^ 32 → other ≠ index →
  setParameterValue cfg s index value = Some s' →
  getParameterValue cfg s' other = getParameterValue cfg s other.
Proof.
  unfold well_sized, setParameterValue, getParameterValue.
  intros (Hk & Hw & Hfit & Hp & Hwp) Hi Ho Hne Hset.
  destruct (Z.ltb_spec index kModuleParameters) as [Hlt|Hge].
  - case_bool_decide; [|done]. injection Hset as <-. simpl.
    destruct (Z.ltb_spec other kModuleParameters); [|done].
    apply list_lookup_insert_ne. lia.
  - destruct (Z.eqb_spec index kModuleParameters) as [->|Hnk].
    + injection Hset as <-. simpl.
      destruct (Z.eqb_spec other kModuleParameters); [lia|done].
    + destruct (HEADLESS cfg); [by injection Hset as <-|].
      cbn zeta in Hset.
      destruct (Z.ltb_spec (u32 (index - (kModuleParameters + 1)))
                  kWindowParameterCount) as [Hin|Hout];
        [|by injection Hset as <-].
      case_bool_decide; [|done]. injection Hset as <-. simpl.
      destruct (Z.ltb_spec other kModuleParameters); [done|].
      destruct (Z.eqb_spec other kModuleParameters); [done|].
      destruct (Z.ltb_spec (u32 (other - (kModuleParameters + 1)))
                  kWindowParameterCount); [|done].
      apply list_lookup_insert_ne.
      assert (Hu : ∀ z, kModuleParameters < z < 2 ^ 32 →
                u32 (z - (kModuleParameters + 1)) = z - (kModuleParameters + 1))
        by (intros z Hz; unfold u32; apply Z.mod_small; lia).
      rewrite !Hu in * by lia. lia.
Qed.

(** X23.  An index past the last parameter of the build (in a headless
    build: past the bypass parameter) is ignored by [setParameterValue] and
    reads as 0.0. *)
Theorem parameter_out_of_range s index value :
  well_sized s →
  kModuleParameters + 1 + window_parameters cfg ≤ index < 2 ^ 32 →
  setParameterValue cfg s index value = Some s
  ∧ getParameterValue cfg s index = Some zero_sample.
Proof.
  unfold well_sized, window_parameters, setParameterValue, getParameterValue.
  intros (Hk & Hw & Hfit & Hp & Hwp) Hi.
  assert (0 ≤ if HEADLESS cfg then 0 else kWindowParameterCount)
    by (destruct (HEADLESS cfg); lia).
  destruct (Z.ltb_spec index kModuleParameters); [lia|].
  destruct (Z.eqb_spec index kModuleParameters); [lia|].
  destruct (HEADLESS cfg); [done|].
  assert (Hu : u32 (index - (kModuleParameters + 1))
               = index - (kModuleParameters + 1))
    by (unfold u32; apply Z.mod_small; lia).
  rewrite Hu.
  destruct (Z.ltb_spec (index - (kModuleParameters + 1)) kWindowParameterCount);
    [lia|done].
Qed.

End ParameterFacts.

(** ** Activation *)

Section ActivationFacts.
Context `{Allocator}.
Variable cfg : Config.

(** What [new] guarantees: an address that is not in use and not null, and
    as many floats as were asked for. *)
Hypothesis new_address_fresh :
  ∀ used, (new_address used ∉ used) ∧ new_address used ≠ 0.
Hypothesis uninitialised_length : ∀ n, length (uninitialised n) = n.

Lemma scratch_allocated_in_use n m arr bs rest m' a :
  scratch_allocated n m arr bs rest m' →
  a ∈ in_use m ∨ a = arr ∨ a ∈ bs → a ∈ in_use m'.
Proof.
  intros (_ & _ & _ & _ & Hp & Hs) Ha. unfold in_use in *.
  rewrite elem_of_union, !elem_of_dom, Hp, Hs.
  destruct (decide (a ∈ bs)) as [|Hnb]; [left; eauto|].
  destruct (decide (a = arr)) as [->|Hna];
    [right; rewrite lookup_insert_eq; eauto|].
  rewrite lookup_insert_ne by done.
  destruct Ha as [Ha|[Ha|Ha]]; [|done..].
  by rewrite elem_of_union, !elem_of_dom in Ha.
Qed.

Lemma allocate_copy_step n m arr bs rest mi :
  scratch_allocated n m arr bs (S rest) mi →
  ∃ b m', allocate_copy arr n (length bs) mi = Some m'
          ∧ scratch_allocated n m arr (bs ++ [b]) rest m'.
Proof.
  intros Halloc.
  pose proof Halloc as (Harr & Hnew & Hnd & Hbs & Hp & Hs).
  set (b := new_address (in_use mi)).
  destruct (new_address_fresh (in_use mi)) as [Hfresh Hnz]. fold b in Hfresh, Hnz.
  assert (Hb : (b ∉ in_use m) ∧ b ≠ arr ∧ (b ∉ bs)).
  { repeat split; intros Hin; apply Hfresh;
      apply (scratch_allocated_in_use _ _ _ _ _ _ _ Halloc); auto. }
  destruct Hb as (Hbm & Hba & Hbb).
  exists b. eexists. unfold allocate_copy, new_floats. fold b. simpl.
  rewrite Hp, lookup_insert_eq. simpl.
  rewrite decide_True by (rewrite length_app; simpl; rewrite length_replicate; lia).
  split; [reflexivity|].
  split; [done|]. split; [done|]. split; [|split; [|split]]; simpl.
  - apply NoDup_app. repeat split; [done| |apply NoDup_singleton].
    intros x Hx Hx'. apply list_elem_of_singleton in Hx' as ->. done.
  - intros x Hx. apply elem_of_app in Hx as [Hx|Hx]; [by apply Hbs|].
    by apply list_elem_of_singleton in Hx as ->.
  - rewrite insert_insert_eq. f_equal.
    rewrite insert_app_r_alt, Nat.sub_diag by done. simpl.
    by rewrite <- app_assoc.
  - intros a. destruct (decide (a = b)) as [->|Hne].
    + rewrite lookup_insert_eq. rewrite decide_True; [done|].
      apply elem_of_app. right. by apply list_elem_of_singleton.
    + rewrite lookup_insert_ne, Hs by done.
      destruct (decide (a ∈ bs)) as [Hin|Hnin].
      * rewrite decide_True; [done|]. apply elem_of_app. by left.
      * rewrite decide_False; [done|]. intros [Hx|Hx]%elem_of_app; [done|].
        by apply list_elem_of_singleton in Hx.
Qed.

Lemma allocate_copy_loop n m arr k : ∀ bs mi,
  scratch_allocated n m arr bs k mi →
  ∃ bs' m',
    for_each (seq (length bs) k)
      (allocate_copy arr n) mi = Some m'
    ∧ length bs' = k
    ∧ scratch_allocated n m arr (bs ++ bs') 0 m'.
Proof.
  induction k as [|k IH]; intros bs mi Halloc.
  - exists [], mi. simpl. by rewrite app_nil_r.
  - destruct (allocate_copy_step _ _ _ _ _ _ Halloc) as (b & m1 & Hstep & Halloc1).
    destruct (IH _ _ Halloc1) as (bs' & m' & Hloop & Hlen & Halloc').
    exists (b :: bs'), m'. simpl. rewrite Hstep. simpl.
    rewrite length_app in Hloop. simpl in Hloop.
    replace (length bs + 1)%nat with (S (length bs)) in Hloop by lia.
    rewrite Hloop. rewrite <- app_assoc in Halloc'. simpl in *.
    by rewrite Hlen.
Qed.

(** [activate] as a whole. *)
Lemma activate_allocates bufsize p m :
  NUM_INPUTS cfg ≠ 0%nat →
  ∃ arr bs m',
    activate cfg bufsize p m
      = Some (set_activation bufsize arr 0 p, m')
    ∧ length bs = NUM_INPUTS cfg
    ∧ scratch_allocated (Z.to_nat bufsize) m arr bs 0 m'.
Proof.
  intros Hin. unfold activate.
  destruct (NUM_INPUTS cfg) as [|k] eqn:Hk; [done|].
  unfold new_pointers.
  set (arr := new_address (in_use m)).
  destruct (new_address_fresh (in_use m)) as [Hfresh Hnz]. fold arr in Hfresh, Hnz.
  simpl.
  destruct (allocate_copy_loop (Z.to_nat bufsize) m arr (S k) []
              {| samples := samples m;
                 parrays := <[arr := replicate (S k) 0]> (parrays m) |})
    as (bs & m' & Hloop & Hlen & Halloc).
  { split; [done|]. split; [done|]. split; [apply NoDup_nil_2|].
    split; [intros b Hb; by apply elem_of_nil in Hb|].
    split; [done|]. intros a. cbn.
    first [ done
          | destruct (decide (a ∈ [])) as [Hin|];
            [by apply elem_of_nil in Hin | done] ]. }
  exists arr, bs, m'. unfold for_range in *. simpl in Hloop |- *.
  rewrite Hloop. simpl. done.
Qed.


(** The freeing loop of [deactivate], from index [j] on. *)
Lemma free_loop arr bs k : ∀ j mi,
  arr ≠ 0 → parrays mi !! arr = Some bs → (j + k = length bs)%nat →
  NoDup bs → (∀ b, b ∈ bs → b ≠ 0) →
  (∀ b, b ∈ drop j bs → is_Some (samples mi !! b)) →
  ∃ m', for_each (seq j k) (free_copy arr) mi = Some m'
        ∧ parrays m' = parrays mi
        ∧ ∀ a, samples m' !! a
               = if decide (a ∈ drop j bs) then None else samples mi !! a.
Proof.
  induction k as [|k IH]; intros j mi Harr Hp Hlen Hnd Hnz Hlive.
  - exists mi. repeat split. intros a.
    rewrite drop_ge by lia.
    destruct (decide (a ∈ [])) as [Hin|]; [by apply elem_of_nil in Hin|done].
  - assert (Hj : (j < length bs)%nat) by lia.
    destruct (lookup_lt_is_Some_2 bs j Hj) as [b Hb].
    pose proof (drop_S _ _ _ Hb) as Hdrop.
    assert (Hnd' : NoDup (drop j bs))
      by (eapply sublist_NoDup; [exact Hnd|apply sublist_drop]).
    rewrite Hdrop in Hnd'. apply NoDup_cons in Hnd' as [Hfirst Hnd'].
    assert (Hbz : b ≠ 0) by (eapply Hnz, list_elem_of_lookup_2, Hb).
    assert (Hbl : is_Some (samples mi !! b))
      by (apply Hlive; rewrite Hdrop; apply elem_of_cons; by left).
    set (m1 := {| samples := delete b (samples mi); parrays := parrays mi |}).
    assert (Hstep : free_copy arr j mi = Some m1).
    { unfold free_copy, load_ptr. rewrite decide_False by done.
      rewrite Hp. simpl. rewrite Hb. simpl. unfold delete_floats.
      rewrite decide_False by done. by rewrite decide_True by done. }
    destruct (IH (S j) m1 Harr Hp ltac:(lia) Hnd Hnz) as (m' & Hloop & Hp' & Hs').
    { intros x Hx. simpl. rewrite lookup_delete_ne by (by intros ->).
      apply Hlive. rewrite Hdrop. apply elem_of_cons. by right. }
    exists m'. simpl. rewrite Hstep. simpl. rewrite Hloop.
    split; [done|]. split; [done|]. intros a. rewrite Hs', Hdrop. simpl.
    destruct (decide (a = b)) as [->|Hne].
    + rewrite decide_False by done. rewrite lookup_delete_eq.
      rewrite decide_True; [done|]. apply elem_of_cons. by left.
    + rewrite lookup_delete_ne by done.
      destruct (decide (a ∈ drop (S j) bs)) as [Hin|Hnin].
      * rewrite decide_True; [done|]. apply elem_of_cons. by right.
      * rewrite decide_False; [done|].
        intros [?|?]%elem_of_cons; done.
Qed.

(** X24.  In a build with audio inputs [activate] succeeds: it records the
    buffer size, expects frame 0 next, and leaves [fAudioBufferCopy] pointing
    to one new buffer of [bufsize] floats per input.  Nothing that was in
    memory before is changed, and the new buffers are apart from each other
    and from every buffer the host had at the time: [scratch_separate] holds
    for any pointer arrays whose entries are null or were in use before. *)
Theorem activate_scratch bufsize p m :
  NUM_INPUTS cfg ≠ 0%nat →
  ∃ p' m',
    activate cfg bufsize p m = Some (p', m')
    ∧ fNextExpectedFrame p' = 0
    ∧ bufferSize (context p') = bufsize
    ∧ fAudioBufferCopy p' ≠ 0
    ∧ (∀ i, (i < NUM_INPUTS cfg)%nat →
         ∃ s buf, load_ptr m' (fAudioBufferCopy p') i = Some s ∧ s ≠ 0
                  ∧ samples m' !! s = Some buf
                  ∧ length buf = Z.to_nat bufsize)
    ∧ (∀ a, a ∈ in_use m →
         samples m' !! a = samples m !! a ∧ parrays m' !! a = parrays m !! a)
    ∧ ∀ inputs outputs,
        (∀ j s, load_ptr m' inputs j = Some s → s = 0 ∨ s ∈ in_use m) →
        (∀ k s, load_ptr m' outputs k = Some s → s = 0 ∨ s ∈ in_use m) →
        scratch_separate cfg p' m' inputs outputs.
Proof.
  intros Hin.
  destruct (activate_allocates bufsize p m Hin)
    as (arr & bs & m' & Hact & Hlen & Halloc).
  pose proof Halloc as (Harr & Hnew & Hnd & Hbs & Hp & Hs).
  rewrite app_nil_r in Hp.
  assert (Hload : ∀ i, load_ptr m' arr i = bs !! i).
  { intros i. unfold load_ptr. rewrite decide_False by done.
    by rewrite Hp, lookup_insert_eq. }
  eexists _, m'. split; [exact Hact|]. simpl.
  split; [done|]. split; [done|]. split; [done|].
  split; [|split].
  - intros i Hi. rewrite <- Hlen in Hi.
    destruct (lookup_lt_is_Some_2 bs i Hi) as [s Hsi].
    pose proof (list_elem_of_lookup_2 _ _ _ Hsi) as Hmem.
    exists s, (uninitialised (Z.to_nat bufsize)).
    rewrite Hload, Hs, decide_True by done.
    split; [done|]. split; [by apply Hbs|]. split; [done|].
    apply uninitialised_length.
  - intros a Ha. rewrite Hs, Hp. split.
    + rewrite decide_False; [done|]. intros Hx. by apply Hbs in Hx as (_ & _ & ?).
    + rewrite lookup_insert_ne; [done|]. by intros ->.
  - intros inputs outputs Hins Houts i s Hi. rewrite Hload. intros Hsi.
    pose proof (list_elem_of_lookup_2 _ _ _ Hsi) as Hmem.
    destruct (Hbs s Hmem) as (Hsz & _ & Hsnew).
    split; [|split].
    + intros j _. rewrite Hload. intros Hsj.
      by apply (NoDup_lookup bs j i s).
    + intros j _ Hj. by destruct (Hins j s Hj).
    + intros k _ Hk. by destruct (Houts k s Hk).
Qed.

(** X25.  [deactivate] undoes [activate]: after the pair the memory is
    exactly what it was, so every buffer [activate] allocated is freed once
    and nothing else is; in a build with audio inputs [fAudioBufferCopy] is
    null again, and a second [deactivate] does nothing. *)
Theorem activate_deactivate bufsize p m :
  ∃ p1 m1 p2,
    activate cfg bufsize p m = Some (p1, m1)
    ∧ deactivate cfg p1 m1 = Some (p2, m)
    ∧ (NUM_INPUTS cfg ≠ 0%nat → fAudioBufferCopy p2 = 0)
    ∧ deactivate cfg p2 m = Some (p2, m).
Proof.
  destruct (decide (NUM_INPUTS cfg = 0%nat)) as [Hz|Hin].
  - unfold activate, deactivate. rewrite Hz. eexists _, _, _.
    split; [reflexivity|]. split; [reflexivity|]. split; [done|reflexivity].
  - destruct (activate_allocates bufsize p m Hin)
      as (arr & bs & m1 & Hact & Hlen & Halloc).
    pose proof Halloc as (Harr & Hnew & Hnd & Hbs & Hp & Hs).
    rewrite app_nil_r in Hp.
    assert (Hparr : parrays m !! arr = None).
    { apply not_elem_of_dom. intros Hx. apply Hnew. unfold in_use.
      apply elem_of_union. by right. }
    destruct (free_loop arr bs (NUM_INPUTS cfg) 0%nat m1 Harr)
      as (m2 & Hloop & Hp2 & Hs2).
    { by rewrite Hp, lookup_insert_eq. }
    { lia. }
    { done. }
    { intros b Hb. by apply Hbs. }
    { intros b Hb. rewrite drop_0 in Hb. rewrite Hs, decide_True by done. eauto. }
    assert (Hm : {| samples := samples m2; parrays := delete arr (parrays m2) |} = m).
    { destruct m as [sm pm]. simpl in *. f_equal.
      - apply map_eq. intros a. rewrite Hs2, drop_0.
        destruct (decide (a ∈ bs)) as [Hx|Hx].
        + symmetry. apply not_elem_of_dom. intros Hd.
          destruct (Hbs a Hx) as (_ & _ & Hn). apply Hn. unfold in_use. simpl.
          apply elem_of_union. by left.
        + by rewrite Hs, decide_False by done.
      - rewrite Hp2, Hp, delete_insert_eq. by apply delete_id. }
    eexists _, m1, _. split; [exact Hact|].
    unfold deactivate. destruct (NUM_INPUTS cfg) as [|k] eqn:Hk; [done|].
    simpl fAudioBufferCopy.
    destruct (decide (arr = 0)) as [|_]; [done|].
    unfold for_range. rewrite Hloop. simpl.
    destruct (decide (is_Some (parrays m2 !! arr))) as [_|Hgone].
    + rewrite Hm. split; [reflexivity|]. split; [done|]. simpl.
      by destruct (decide (0 = 0)).
    + destruct Hgone. rewrite Hp2, Hp, lookup_insert_eq. eauto.
Qed.

End ActivationFacts.

(** ** Blocks that can be run *)

Section Defined.
Context `{FloatOps}.
Variable cfg : Config.

Lemma same_shape_refl m : same_shape m m.
Proof. by split. Qed.

Lemma same_shape_trans m1 m2 m3 :
  same_shape m1 m2 → same_shape m2 m3 → same_shape m1 m3.
Proof.
  intros [Hp1 Hs1] [Hp2 Hs2]. split; [congruence|].
  intros a. by rewrite Hs1.
Qed.

Lemma holds_shape m1 m2 n a : same_shape m1 m2 → holds m2 n a → holds m1 n a.
Proof.
  intros [_ Hs] (Hnz & buf & Hbuf & Hn). split; [done|].
  specialize (Hs a). rewrite Hbuf in Hs. simpl in Hs.
  destruct (samples m1 !! a) as [buf1|]; simpl in Hs; [|done].
  injection Hs as Hlen. exists buf1. split; [done|lia].
Qed.

Lemma channels_shape m1 m2 n arr count nullable :
  same_shape m1 m2 → channels m2 n arr count nullable →
  channels m1 n arr count nullable.
Proof.
  intros Hshape Hch i Hi. destruct (Hch i Hi) as (a & Ha & Hvalid).
  exists a. split.
  - by rewrite (load_ptr_ext m2 m1) by apply Hshape.
  - destruct Hvalid as [?|Hh]; [by left|right]. by eapply holds_shape.
Qed.

(** A store that fits is defined and keeps the shape. *)
Lemma store_buf_defined m a new n :
  holds m n a → (length new ≤ n)%nat →
  ∃ m', store_buf m a new = Some m' ∧ same_shape m' m.
Proof.
  intros (Hnz & buf & Hbuf & Hn) Hlen. unfold store_buf.
  rewrite decide_False by done. rewrite Hbuf. simpl.
  rewrite decide_True by lia. eexists. split; [done|].
  split; [done|]. intros x. simpl.
  destruct (decide (x = a)) as [->|Hne].
  - rewrite lookup_insert_eq, Hbuf. simpl. f_equal.
    rewrite length_app, length_drop. lia.
  - by rewrite lookup_insert_ne.
Qed.

Lemma load_buf_defined m a n : holds m n a → is_Some (load_buf m a n).
Proof.
  intros (Hnz & buf & Hbuf & Hn). unfold load_buf.
  rewrite decide_False by done. rewrite Hbuf. simpl.
  rewrite decide_True by done. eauto.
Qed.

Lemma copy_input_defined inputs scratch n i m :
  channels m n inputs (NUM_INPUTS cfg) (VARIANT_MAIN cfg) →
  channels m n scratch (NUM_INPUTS cfg) false →
  (i < NUM_INPUTS cfg)%nat →
  ∃ m', copy_input cfg inputs scratch n i m = Some m' ∧ same_shape m' m.
Proof.
  intros Hin Hscr Hi. unfold copy_input, memcpy.
  destruct (Hin i Hi) as (a & Ha & Hvalid). rewrite Ha. simpl.
  destruct Hvalid as [[Hmain ->]|Hholds].
  - rewrite Hmain. simpl. eexists. split; [done|]. apply same_shape_refl.
  - pose proof Hholds as (Hnz & _).
    rewrite (bool_decide_eq_false_2 (a = 0)), andb_false_r by done.
    destruct (Hscr i Hi) as (s & Hs & [[? _]|Hdst]); [done|].
    rewrite Hs. simpl.
    destruct (load_buf m a n) as [new|] eqn:Hload;
      [|by destruct (load_buf_defined _ _ _ Hholds) as [? Hx]; rewrite Hx in Hload].
    simpl. apply (store_buf_defined _ _ _ n); [done|].
    apply load_buf_Some in Hload as (buf & _ & Hn & ->).
    rewrite length_take. lia.
Qed.

Lemma clear_output_defined outputs n k m :
  channels m n outputs (NUM_OUTPUTS cfg) (VARIANT_MAIN cfg) →
  (k < NUM_OUTPUTS cfg)%nat →
  ∃ m', clear_output cfg outputs n k m = Some m' ∧ same_shape m' m.
Proof.
  intros Hout Hk. unfold clear_output, memset0.
  destruct (Hout k Hk) as (a & Ha & Hvalid). rewrite Ha. simpl.
  destruct Hvalid as [[Hmain ->]|Hholds].
  - rewrite Hmain. simpl. eexists. split; [done|]. apply same_shape_refl.
  - pose proof Hholds as (Hnz & _).
    rewrite (bool_decide_eq_false_2 (a = 0)), andb_false_r by done.
    apply (store_buf_defined _ _ _ n); [done|]. by rewrite length_replicate.
Qed.

(** A loop whose rounds are defined on every memory of the shape of [m0],
    and keep the shape, is defined. *)
Lemma for_each_defined body m0 idx : ∀ m,
  (∀ i mx, i ∈ idx → same_shape mx m0 →
     ∃ mx', body i mx = Some mx' ∧ same_shape mx' mx) →
  same_shape m m0 →
  ∃ m', for_each idx body m = Some m' ∧ same_shape m' m0.
Proof.
  induction idx as [|i idx IH]; intros m Hbody Hshape; simpl.
  - eauto.
  - destruct (Hbody i m ltac:(apply elem_of_cons; by left) Hshape)
      as (mi & Hi & Hshi).
    rewrite Hi. simpl. apply IH.
    + intros j mx Hj. apply Hbody. apply elem_of_cons. by right.
    + by eapply same_shape_trans.
Qed.

(** The buffer selection is defined and keeps the shape of the memory. *)
Lemma select_buffers_defined p m inputs outputs n :
  channels m n inputs (NUM_INPUTS cfg) (VARIANT_MAIN cfg) →
  channels m n outputs (NUM_OUTPUTS cfg) (VARIANT_MAIN cfg) →
  channels m n (fAudioBufferCopy p) (NUM_INPUTS cfg) false →
  (inputs ≠ outputs → inputs ≠ 0 →
     NUM_INPUTS cfg ≠ 0%nat ∧ NUM_OUTPUTS cfg ≠ 0%nat) →
  ∃ ins outs mm,
    select_buffers cfg p m inputs outputs n = Some (ins, outs, mm)
    ∧ same_shape mm m.
Proof.
  intros Hin Hout Hscr Hzero.
  assert (Hcopy : ∀ k, NUM_INPUTS cfg = S k →
            ∃ mm, for_range (S k)
                    (copy_input cfg inputs (fAudioBufferCopy p) n) m = Some mm
                  ∧ same_shape mm m).
  { intros k Hk. apply for_each_defined; [|apply same_shape_refl].
    intros i mx Hi Hmx. apply elem_of_seq in Hi.
    apply copy_input_defined; [by eapply channels_shape..|rewrite Hk; lia]. }
  unfold select_buffers, separate_buffers.
  destruct (bool_decide (inputs ≠ outputs)) eqn:Hne; simpl.
  - apply bool_decide_eq_true_1 in Hne.
    destruct (bool_decide (inputs = 0)) eqn:Hnull; simpl.
    + eexists _, _, _. split; [done|]. apply same_shape_refl.
    + apply bool_decide_eq_false_1 in Hnull.
      destruct (Hzero Hne Hnull) as [Hni Hno].
      destruct (Hin 0%nat ltac:(lia)) as (i0 & Hi0 & _).
      destruct (Hout 0%nat ltac:(lia)) as (o0 & Ho0 & _).
      rewrite Hi0, Ho0. simpl.
      destruct (bool_decide (i0 ≠ o0)).
      * eexists _, _, _. split; [done|]. apply same_shape_refl.
      * destruct (NUM_INPUTS cfg) as [|k] eqn:Hk; [done|].
        destruct (Hcopy k eq_refl) as (mm & Hloop & Hshape).
        rewrite Hloop. simpl. eauto.
  - destruct (NUM_INPUTS cfg) as [|k] eqn:Hk.
    + eexists _, _, _. split; [done|]. apply same_shape_refl.
    + destruct (Hcopy k eq_refl) as (mm & Hloop & Hshape).
      rewrite Hloop. simpl. eauto.
Qed.

(** So is the clearing loop, from any memory of the same shape. *)
Lemma clear_loop_defined m outputs n mm :
  channels m n outputs (NUM_OUTPUTS cfg) (VARIANT_MAIN cfg) →
  same_shape mm m →
  ∃ m1, for_range (NUM_OUTPUTS cfg) (clear_output cfg outputs n) mm = Some m1
        ∧ same_shape m1 m.
Proof.
  intros Hout Hshape. apply for_each_defined; [|done].
  intros k mx Hk Hmx. apply elem_of_seq in Hk.
  apply clear_output_defined; [by eapply channels_shape|lia].
Qed.

(** Nothing else in [run_prepare] can be undefined. *)
Lemma run_prepare_of_loops p m timePos inputs outputs frames evs count
    ins outs mm m1 :
  select_buffers cfg p m inputs outputs (Z.to_nat frames) = Some (ins, outs, mm) →
  for_range (NUM_OUTPUTS cfg) (clear_output cfg outputs (Z.to_nat frames)) mm
    = Some m1 →
  ∃ p1, run_prepare cfg p m timePos inputs outputs frames evs count
        = Some (p1, m1).
Proof.
  intros Hsel Hclear. unfold run_prepare. rewrite Hsel. simpl.
  rewrite Hclear. simpl.
  destruct (select_midi p (bypassed (context p)) evs count). eauto.
Qed.

(** X26.  The preparation of a block is defined, with no access through a
    null or dangling pointer and none past the end of a buffer, whenever the
    host's input and output arrays hold the configured numbers of channels
    of at least [frames] floats each (a null channel in the main variant
    only), the scratch array holds a buffer of at least [frames] floats for
    every input, and both arrays have a channel 0 when the comparison of
    channel 0 is reached.  It leaves every pointer array and the length of
    every buffer as they are. *)
Theorem run_prepare_defined p m timePos inputs outputs frames evs count :
  let n := Z.to_nat frames in
  channels m n inputs (NUM_INPUTS cfg) (VARIANT_MAIN cfg) →
  channels m n outputs (NUM_OUTPUTS cfg) (VARIANT_MAIN cfg) →
  channels m n (fAudioBufferCopy p) (NUM_INPUTS cfg) false →
  (inputs ≠ outputs → inputs ≠ 0 →
     NUM_INPUTS cfg ≠ 0%nat ∧ NUM_OUTPUTS cfg ≠ 0%nat) →
  ∃ p1 m1,
    run_prepare cfg p m timePos inputs outputs frames evs count = Some (p1, m1)
    ∧ same_shape m1 m.
Proof.
  intros n Hin Hout Hscr Hzero.
  destruct (select_buffers_defined p m inputs outputs n Hin Hout Hscr Hzero)
    as (ins & outs & mm & Hsel & Hshape).
  destruct (clear_loop_defined m outputs n mm Hout Hshape)
    as (m1 & Hclear & Hshape1).
  destruct (run_prepare_of_loops p m timePos inputs outputs frames evs count
              _ _ _ _ Hsel Hclear) as (p1 & Hprep).
  exists p1, m1. split; [exact Hprep | exact Hshape1].
Qed.

End Defined.

Section DefinedAfterActivation.
Context `{Allocator}.
Variable cfg : Config.
Variable Engine : Type.
Variable stepBlock : Z → Context → Mem * Engine → Mem * Engine.

Hypothesis new_address_fresh :
  ∀ used, (new_address used ∉ used) ∧ new_address used ≠ 0.
Hypothesis uninitialised_length : ∀ n, length (uninitialised n) = n.

(** What was in memory before [activate] is there after it. *)
Lemma scratch_allocated_keeps n m arr bs m' :
  scratch_allocated n m arr bs 0 m' →
  (∀ a l, parrays m !! a = Some l → parrays m' !! a = Some l)
  ∧ (∀ a buf, samples m !! a = Some buf → samples m' !! a = Some buf).
Proof.
  intros (Harr & Hnew & Hnd & Hbs & Hp & Hs). split.
  - intros a l Ha. rewrite Hp, lookup_insert_ne; [done|]. intros <-.
    apply Hnew. unfold in_use. apply elem_of_union. right.
    apply elem_of_dom. eauto.
  - intros a buf Ha. rewrite Hs, decide_False; [done|]. intros Hin.
    destruct (Hbs a Hin) as (_ & _ & Hn). apply Hn. unfold in_use.
    apply elem_of_union. left. apply elem_of_dom. eauto.
Qed.

Lemma channels_kept m m' n arr count nullable :
  (∀ a l, parrays m !! a = Some l → parrays m' !! a = Some l) →
  (∀ a buf, samples m !! a = Some buf → samples m' !! a = Some buf) →
  channels m n arr count nullable → channels m' n arr count nullable.
Proof.
  intros Hp Hs Hch i Hi. destruct (Hch i Hi) as (a & Ha & Hvalid).
  exists a. split.
  - unfold load_ptr in *. destruct (decide (arr = 0)); [done|].
    destruct (parrays m !! arr) as [l|] eqn:Hl; [|done].
    by rewrite (Hp _ _ Hl).
  - destruct Hvalid as [?|(Hnz & buf & Hbuf & Hn)]; [by left|right].
    split; [done|]. exists buf. split; [by apply Hs|done].
Qed.

(** X27.  After [activate], [run] is defined on every block of at most
    [bufferSize] frames, on either buffer path, when the host's arrays hold
    the configured numbers of channels of at least [frames] floats each: the
    scratch buffers [activate] allocated are large enough for the copy. *)
Theorem run_after_activate bufsize p m p' m' e timePos inputs outputs frames
    evs count :
  let n := Z.to_nat frames in
  activate cfg bufsize p m = Some (p', m') →
  0 ≤ frames ≤ bufsize →
  channels m n inputs (NUM_INPUTS cfg) (VARIANT_MAIN cfg) →
  channels m n outputs (NUM_OUTPUTS cfg) (VARIANT_MAIN cfg) →
  (inputs ≠ outputs → inputs ≠ 0 →
     NUM_INPUTS cfg ≠ 0%nat ∧ NUM_OUTPUTS cfg ≠ 0%nat) →
  ∃ p2 m2 e2,
    run cfg Engine stepBlock p' m' e timePos inputs outputs frames evs count
      = Some (p2, m2, e2).
Proof.
  intros n Hact Hframes Hin Hout Hzero.
  assert (Hmem : channels m' n inputs (NUM_INPUTS cfg) (VARIANT_MAIN cfg)
                 ∧ channels m' n outputs (NUM_OUTPUTS cfg) (VARIANT_MAIN cfg)
                 ∧ channels m' n (fAudioBufferCopy p') (NUM_INPUTS cfg) false).
  { destruct (decide (NUM_INPUTS cfg = 0%nat)) as [Hni|Hni].
    - unfold activate in Hact. rewrite Hni in Hact. injection Hact as <- <-.
      split; [done|]. split; [done|]. intros i Hi. lia.
    - destruct (activate_allocates cfg new_address_fresh bufsize p m Hni)
        as (arr & bs & mx & Hact' & Hlen & Halloc).
      rewrite Hact in Hact'. injection Hact' as -> ->.
      destruct (scratch_allocated_keeps _ _ _ _ _ Halloc) as (Hp & Hs).
      destruct Halloc as (Harr & _ & _ & Hbs & Hpm & Hsm).
      split; [by eapply channels_kept|]. split; [by eapply channels_kept|].
      simpl. intros i Hi. rewrite <- Hlen in Hi.
      destruct (lookup_lt_is_Some_2 bs i Hi) as [s Hsi].
      pose proof (list_elem_of_lookup_2 _ _ _ Hsi) as Hmem.
      exists s. split.
      + unfold load_ptr. rewrite decide_False by done.
        rewrite Hpm, lookup_insert_eq, app_nil_r. done.
      + right. split; [by apply Hbs|].
        exists (uninitialised (Z.to_nat bufsize)).
        rewrite Hsm, decide_True by done. split; [done|].
        rewrite uninitialised_length. lia. }
  destruct Hmem as (Hin' & Hout' & Hscr').
  destruct (select_buffers_defined cfg p' m' inputs outputs n Hin' Hout' Hscr'
              Hzero) as (ins & outs & mm & Hsel & Hshape).
  destruct (clear_loop_defined cfg m' outputs n mm Hout' Hshape)
    as (m1 & Hclear & _).
  destruct (run_prepare_of_loops cfg p' m' timePos inputs outputs frames evs
              count _ _ _ _ Hsel Hclear) as (p1 & Hprep).
  unfold run. rewrite Hprep. simpl.
  destruct (stepBlock frames (context p1) (m1, e)) as [m2 e2]. eauto.
Qed.

(** X28.  The scratch buffers hold [bufferSize] floats and [run] does not
    compare [frames] with that size: a block processed in place that is
    longer than the buffer size [activate] saw, with a non-null first input
    channel, copies past the end of the first scratch buffer, so [run] has
    no defined result. *)
Theorem run_overflows_scratch bufsize p m p' m' timePos inputs outputs frames
    evs count a :
  NUM_INPUTS cfg ≠ 0%nat →
  activate cfg bufsize p m = Some (p', m') →
  0 ≤ bufsize < frames →
  separate_buffers m' inputs outputs = Some false →
  load_ptr m' inputs 0 = Some a → a ≠ 0 →
  run_prepare cfg p' m' timePos inputs outputs frames evs count = None.
Proof.
  intros Hni Hact Hframes Hsep Ha Hnz.
  destruct (activate_allocates cfg new_address_fresh bufsize p m Hni)
    as (arr & bs & mx & Hact' & Hlen & Halloc).
  rewrite Hact in Hact'. injection Hact' as -> ->.
  destruct Halloc as (Harr & _ & _ & Hbs & Hpm & Hsm).
  unfold run_prepare, select_buffers. rewrite Hsep. simpl.
  destruct (NUM_INPUTS cfg) as [|k] eqn:Hk; [done|].
  assert (Hround : copy_input cfg inputs arr (Z.to_nat frames) 0 mx = None).
  { unfold copy_input. rewrite Ha. simpl.
    rewrite (bool_decide_eq_false_2 (a = 0)), andb_false_r by done.
    destruct bs as [|s bs]; [done|].
    assert (Hs : load_ptr mx arr 0 = Some s).
    { unfold load_ptr. rewrite decide_False by done.
      by rewrite Hpm, lookup_insert_eq. }
    rewrite Hs. simpl. unfold memcpy.
    destruct (load_buf mx a (Z.to_nat frames)) as [new|] eqn:Hload; [|done].
    apply load_buf_Some in Hload as (buf & _ & Hn & ->). simpl.
    unfold store_buf.
    destruct (Hbs s ltac:(apply elem_of_cons; by left)) as (Hsz & _).
    rewrite decide_False by done.
    rewrite Hsm, decide_True by (apply elem_of_cons; by left). simpl.
    rewrite decide_False; [done|].
    rewrite length_take, uninitialised_length. lia. }
  unfold for_range. simpl. rewrite Hround. done.
Qed.

End DefinedAfterActivation.

(** ** The further properties on concrete inputs *)

Section FurtherExamples.
Import InMemory.
#[local] Existing Instance int_floats.
#[local] Existing Instance disk_collaborators.
#[local] Existing Instance int_parameters.
#[local] Existing Instance fresh_allocator.

Lemma writeMidiMessage_event_witness :
  ∃ ev, (writeMidiMessage context0 zero_event
           {| msg_bytes := [0x90; 60; 100]; msg_frame := 7 |} 1).1 = [ev]
        ∧ ev_frame ev = 7 ∧ ev_size ev = 3 ∧ ev_data ev !! 0%nat = Some 0x91.
Proof.
  destruct (writeMidiMessage_event context0 zero_event
              {| msg_bytes := [0x90; 60; 100]; msg_frame := 7 |} 1 _ _ eq_refl)
    as [Hnone | (ev & status & Hev & _ & _ & Hst & _ & Hfr & Hsz & _ & _ & Hd0 & _)];
    [discriminate|].
  exists ev. split; [exact Hev|]. injection Hst as <-.
  vm_compute in Hsz. injection Hsz as Hsz.
  split; [exact Hfr|]. split; [symmetry; exact Hsz|]. exact Hd0.
Defined.

Lemma unknown_key_ignored_witness :
  setState fx plugin0 "colour" "red" (world staged_disk)
    = (world staged_disk, Ok plugin0)
  ∧ getState fx plugin0 "colour" (world staged_disk) = (world staged_disk, Ok "").
Proof.
  apply unknown_key_ignored. intros Hin.
  repeat (apply elem_of_cons in Hin as [Hin|Hin]; [discriminate|]).
  by apply elem_of_nil in Hin.
Defined.

Lemma ambient_context_released_witness :
  ambient false (trace (getState fx plugin0 "patch" (world staged_disk)).1) = false
  ∧ ambient false
      (trace (setState fx plugin0 "patch" "{} x" (world staged_disk)).1) = false.
Proof. apply ambient_context_released. reflexivity. Defined.

Lemma setState_keeps_audio_members_witness :
  ∃ p', (setState fx (active 1512 true 1000 false true) "comment" "hello"
           (world staged_disk)).2 = Ok p'
        ∧ fNextExpectedFrame p' = 1512 ∧ fWasBypassed p' = true.
Proof.
  eexists. split; [reflexivity|].
  destruct (setState_keeps_audio_members fx (active 1512 true 1000 false true)
              "comment" "hello" (world staged_disk) _ eq_refl)
    as (_ & _ & _ & Hexp & Hwas & _).
  split; [exact Hexp | exact Hwas].
Defined.

Lemma patch_round_trip_witness :
  (getState fx plugin0 "patch" (world staged_disk)).2
  = Ok (String.string_of_list_byte container).
Proof.
  assert (Hdir : fAutosavePath plugin0 ≠ "") by discriminate.
  destruct (patch_round_trip (H0:=disk_collaborators) fx plugin0 (world staged_disk)
              staged_disk staged_disk staged_disk staged_disk container
              Hdir eq_refl eq_refl eq_refl eq_refl eq_refl eq_refl)
    as [Hget _].
  rewrite Hget. reflexivity.
Defined.

Lemma staging_directory_is_new_witness :
  sys_exists "/tmp/Cardinal.0002" staged_disk = Ok false
  ∧ sys_exists "/tmp/Cardinal.0001" staged_disk = Ok true.
Proof.
  destruct (createAutosavePath 5 (world staged_disk)) as [w' [path|]] eqn:Hpath;
    [|exfalso; vm_compute in Hpath; discriminate].
  assert (Hne : path ≠ "")
    by (vm_compute in Hpath; injection Hpath as _ <-; discriminate).
  destruct (staging_directory_is_new 5 (world staged_disk) w' path Hpath Hne)
    as (tmp & k & Htmp & Hp & Hused & Hfree & _).
  vm_compute in Hpath. injection Hpath as _ <-.
  split; [exact Hfree | reflexivity].
Defined.

Lemma outputs_cleared_witness :
  ∃ p1 m1, separate_block = Some (p1, m1) ∧ load_buf m1 21 2 = Some [0; 0].
Proof.
  assert (Hruns : is_Some separate_block)
    by (apply (bool_decide_unpack _); vm_compute; exact I).
  destruct Hruns as [[p1 m1] Hrun]. exists p1, m1. split; [exact Hrun|].
  unfold separate_block in Hrun.
  apply (outputs_cleared fx _ _ _ _ _ _ _ _ _ _ 1%nat 21 Hrun);
    [cbn; lia | reflexivity | discriminate].
Defined.

Lemma run_prepare_writes_witness :
  ∃ p1 m1, separate_block = Some (p1, m1)
           ∧ parrays m1 = parrays mem0
           ∧ samples m1 !! 10 = Some [1; 2].
Proof.
  assert (Hruns : is_Some separate_block)
    by (apply (bool_decide_unpack _); vm_compute; exact I).
  destruct Hruns as [[p1 m1] Hrun]. exists p1, m1. split; [exact Hrun|].
  unfold separate_block in Hrun.
  destruct (run_prepare_writes fx _ _ _ _ _ _ _ _ _ _ Hrun) as (Hp & Hs).
  split; [exact Hp|].
  transitivity (samples mem0 !! 10); [|reflexivity].
  apply (Hs 10); [|left; reflexivity].
  intros k Hk. cbn in Hk. assert (k = 0%nat ∨ k = 1%nat) as [-> | ->] by lia;
    vm_compute; congruence.
Defined.

Lemma separate_buffers_pass_through_witness :
  ∃ p1 m1, separate_block = Some (p1, m1)
           ∧ engine_input (context p1) m1 1 2 = Some [3; 4].
Proof.
  assert (Hruns : is_Some separate_block)
    by (apply (bool_decide_unpack _); vm_compute; exact I).
  destruct Hruns as [[p1 m1] Hrun]. exists p1, m1. split; [exact Hrun|].
  unfold separate_block in Hrun.
  apply (separate_buffers_pass_through (H:=int_floats) fx _ _ _ _ _ _ _ _ _ _ 1%nat 11 [3; 4] Hrun);
    [reflexivity | reflexivity | discriminate | reflexivity | cbn; lia |].
  intros k Hk. cbn in Hk. assert (k = 0%nat ∨ k = 1%nat) as [-> | ->] by lia;
    vm_compute; congruence.
Defined.

Lemma continuous_playback_witness :
  ∃ p1 m1 p2 m2,
    block (active 0 false 0 false false) (snapshot true 1000) [] = Some (p1, m1, tt)
    ∧ block (set_bypassed false p1) (snapshot true 1002) [] = Some (p2, m2, tt)
    ∧ reset (context p2) = false.
Proof.
  destruct (block_runs (active 0 false 0 false false) (snapshot true 1000) [])
    as [[[p1 m1] []] Hrun1].
  destruct (block_runs (set_bypassed false p1) (snapshot true 1002) [])
    as [[[p2 m2] []] Hrun2].
  exists p1, m1, p2, m2. split; [exact Hrun1|]. split; [exact Hrun2|].
  rewrite (continuous_playback fx unit idle _ _ _ _ _ _ _ _ _ _ _ _ _
             _ _ _ _ _ _ _ _ _ _ _ Hrun1 Hrun2);
    [reflexivity | reflexivity | reflexivity
     | vm_compute; split; [discriminate | reflexivity] | discriminate].
Defined.

Lemma restart_after_stop_witness :
  ∃ p1 m1 p2 m2,
    block (active 512 true 510 false false) (snapshot false 512) []
      = Some (p1, m1, tt)
    ∧ block (set_bypassed false p1) (snapshot true 2) [] = Some (p2, m2, tt)
    ∧ reset (context p2) = false.
Proof.
  destruct (block_runs (active 512 true 510 false false) (snapshot false 512) [])
    as [[[p1 m1] []] Hrun1].
  destruct (block_runs (set_bypassed false p1) (snapshot true 2) [])
    as [[[p2 m2] []] Hrun2].
  exists p1, m1, p2, m2. split; [exact Hrun1|]. split; [exact Hrun2|].
  rewrite (restart_after_stop fx unit idle _ _ _ _ _ _ _ _ _ _ _ _ _
             _ _ _ _ _ _ _ _ _ _ _ Hrun1 Hrun2);
    [reflexivity | reflexivity | reflexivity
     | vm_compute; split; [discriminate | reflexivity]].
Defined.

Lemma first_block_bypassed_witness :
  ∃ w' p p1 m1,
    CardinalPlugin 5 context0 512 48000 (world staged_disk) = (w', Some (Ok p))
    ∧ block (set_bypassed true p) (snapshot false 0) [note_on] = Some (p1, m1, tt)
    ∧ midiEventCount (context p1) = 16.
Proof.
  destruct (CardinalPlugin 5 context0 512 48000 (world staged_disk))
    as [w' [[p|]|]] eqn:Hctor;
    [| exfalso; vm_compute in Hctor; discriminate
     | exfalso; vm_compute in Hctor; discriminate].
  destruct (block_runs (set_bypassed true p) (snapshot false 0) [note_on])
    as [[[p1 m1] []] Hrun].
  exists w', p, p1, m1. split; [reflexivity|]. split; [exact Hrun|].
  exact (proj2 (first_block_bypassed fx unit idle _ _ _ _ _ _ _ _ _ _ _ _ _ _ _
                  _ _ _ Hctor Hrun)).
Defined.

Lemma int_parameters_well_sized : well_sized parameterised0.
Proof. repeat split; vm_compute; congruence. Qed.

Lemma parameter_round_trip_witness :
  ∃ s', setParameterValue fx parameterised0 4 9 = Some s'
        ∧ getParameterValue fx s' 4 = Some 9.
Proof.
  destruct (parameter_round_trip fx parameterised0 4 9 int_parameters_well_sized)
    as (s' & Hset & Hget & _); [vm_compute; split; congruence|].
  exists s'. split; [exact Hset | exact Hget].
Defined.

Lemma parameter_isolation_witness :
  getParameterValue fx
    {| instance := set_bypassed true plugin0; parameters := [0; 0; 0];
       fWindowParameters := [0; 0] |} 4
  = getParameterValue fx parameterised0 4.
Proof.
  apply (parameter_isolation fx parameterised0 3 9 _ 4 int_parameters_well_sized);
    [vm_compute; split; congruence | vm_compute; split; congruence
     | discriminate | reflexivity].
Defined.

Lemma parameter_out_of_range_witness :
  setParameterValue fx parameterised0 6 9 = Some parameterised0
  ∧ getParameterValue fx parameterised0 6 = Some 0.
Proof.
  apply (parameter_out_of_range fx parameterised0 6 9 int_parameters_well_sized).
  vm_compute. split; congruence.
Defined.

Lemma fresh_allocator_fresh (used : gset Z) :
  (new_address used ∉ used) ∧ new_address used ≠ 0.
Proof.
  pose proof (is_fresh ({[0]} ∪ used)) as Hfresh. simpl.
  split.
  - intros Hin. apply Hfresh, elem_of_union. by right.
  - intros Hz. apply Hfresh, elem_of_union. left. by apply elem_of_singleton.
Qed.

Lemma fresh_allocator_length n : length (uninitialised n) = n.
Proof. apply length_replicate. Qed.

Lemma activate_scratch_witness :
  ∃ p' m', activate fx 2 plugin0 mem0 = Some (p', m')
           ∧ fNextExpectedFrame p' = 0
           ∧ scratch_separate fx p' m' 100 200.
Proof.
  destruct (activate_scratch fx fresh_allocator_fresh fresh_allocator_length
              2 plugin0 mem0 ltac:(discriminate))
    as (p' & m' & Hact & Hexp & _ & _ & _ & Hold & Hsep).
  exists p', m'. split; [exact Hact|]. split; [exact Hexp|].
  assert (Hhost : ∀ arr, arr ∈ [100; 200] →
            ∀ j s, load_ptr m' arr j = Some s → s = 0 ∨ s ∈ in_use mem0).
  { intros arr Harr j s. unfold load_ptr.
    assert (Hin : arr ∈ in_use mem0)
      by (repeat (apply elem_of_cons in Harr as [->|Harr];
                    [apply (bool_decide_unpack _); vm_compute; exact I|]);
          by apply elem_of_nil in Harr).
    rewrite (proj2 (Hold arr Hin)).
    repeat (apply elem_of_cons in Harr as [->|Harr];
              [destruct j as [|[|j]]; vm_compute; intros Hs; try discriminate;
               injection Hs as <-; right;
               apply (bool_decide_unpack _); vm_compute; exact I|]).
    by apply elem_of_nil in Harr. }
  apply Hsep; apply Hhost; rewrite !elem_of_cons; auto.
Defined.

Lemma activate_deactivate_witness :
  ∃ p1 m1 p2,
    activate fx 2 plugin0 mem0 = Some (p1, m1)
    ∧ deactivate fx p1 m1 = Some (p2, mem0)
    ∧ fAudioBufferCopy p2 = 0.
Proof.
  destruct (activate_deactivate fx fresh_allocator_fresh 2 plugin0 mem0) as (p1 & m1 & p2 & Hact & Hde & Hnull & _).
  exists p1, m1, p2. split; [exact Hact|]. split; [exact Hde|].
  apply Hnull. discriminate.
Defined.

(** In the scenario every pointer array has two channels of two floats. *)
Lemma mem0_channels arr nullable :
  arr ∈ [100; 200; 300; 400] → channels mem0 2 arr 2 nullable.
Proof.
  intros Harr i Hi.
  assert (Hcases : i = 0%nat ∨ i = 1%nat) by lia.
  repeat (apply elem_of_cons in Harr as [->|Harr]);
    try (by apply elem_of_nil in Harr);
    destruct Hcases as [-> | ->]; eexists; (split; [reflexivity|]); right;
    (split; [discriminate|]); eexists; (split; [reflexivity|]); simpl; lia.
Qed.

Lemma run_prepare_defined_witness : is_Some in_place_block.
Proof.
  destruct (run_prepare_defined fx (active 0 false 0 false false) mem0
              (snapshot false 0) 100 100 2 [] 0)
    as (p1 & m1 & Hrun & _);
    [ apply mem0_channels; rewrite !elem_of_cons; auto
    | apply mem0_channels; rewrite !elem_of_cons; auto
    | apply mem0_channels; rewrite !elem_of_cons; auto
    | done
    | unfold in_place_block; rewrite Hrun; eauto ].
Defined.

Lemma run_after_activate_witness :
  ∃ p' m' p2 m2,
    activate fx 2 plugin0 mem0 = Some (p', m')
    ∧ run fx unit idle p' m' tt (snapshot false 0) 100 100 2 [] 0
      = Some (p2, m2, tt).
Proof.
  destruct (activate_allocates fx fresh_allocator_fresh 2 plugin0 mem0
              ltac:(discriminate)) as (arr & bs & m' & Hact & _).
  destruct (run_after_activate fx unit idle fresh_allocator_fresh
              fresh_allocator_length 2 plugin0 mem0 _ m' tt (snapshot false 0)
              100 100 2 [] 0 Hact)
    as (p2 & m2 & [] & Hrun);
    [ lia
    | apply mem0_channels; rewrite !elem_of_cons; auto
    | apply mem0_channels; rewrite !elem_of_cons; auto
    | done | ].
  eexists _, m', p2, m2. split; [exact Hact | exact Hrun].
Defined.

Lemma run_overflows_scratch_witness :
  ∃ p' m',
    activate fx 2 plugin0 mem0 = Some (p', m')
    ∧ run_prepare fx p' m' (snapshot false 0) 100 100 3 [] 0 = None.
Proof.
  destruct (activate_allocates fx fresh_allocator_fresh 2 plugin0 mem0
              ltac:(discriminate)) as (arr & bs & m' & Hact & _ & Halloc).
  eexists _, m'. split; [exact Hact|].
  destruct (scratch_allocated_keeps _ _ _ _ _ Halloc) as (Hp & _).
  apply (run_overflows_scratch fx fresh_allocator_fresh fresh_allocator_length
           2 plugin0 mem0 _ m' (snapshot false 0) 100 100 3 [] 0 10);
    [ discriminate | exact Hact | lia | | | discriminate ].
  - unfold separate_buffers.
    by rewrite (bool_decide_eq_false_2 (100 ≠ 100)) by (intros Hx; by apply Hx).
  - unfold load_ptr. rewrite decide_False by discriminate.
    by rewrite (Hp 100 [10; 11]).
Defined.

End FurtherExamples.

(** ** The failure paths with one collaborator out of order *)

Section FaultExamples.
Import InMemory.
#[local] Existing Instance int_floats.
#[local] Existing Instance faulty_collaborators.

Lemma setState_throws_only_witness :
  (setState fx plugin0 "patch" "{} x" (faulty_world RemoveThrows)).2 = Raised
  ∧ (removeRecursively "/tmp/Cardinal.0001" (staged_disk, RemoveThrows)).2 = Raised.
Proof.
  assert (Hthrows :
    (setState fx plugin0 "patch" "{} x" (faulty_world RemoveThrows)).2 = Raised)
    by (vm_compute; reflexivity).
  split; [exact Hthrows|].
  destruct (setState_throws_only fx plugin0 "patch" "{} x"
              (faulty_world RemoveThrows) Hthrows) as (_ & _ & _ & [Hrm|Hmk]);
    [exact Hrm | vm_compute in Hmk; discriminate].
Defined.

Lemma getState_throws_only_witness :
  (getState fx plugin0 "patch" (faulty_world PrepareThrows)).2 = Raised
  ∧ fAutosavePath plugin0 ≠ "".
Proof.
  assert (Hthrows :
    (getState fx plugin0 "patch" (faulty_world PrepareThrows)).2 = Raised)
    by (vm_compute; reflexivity).
  split; [exact Hthrows|].
  exact (proj1 (proj2 (getState_throws_only fx plugin0 "patch"
                         (faulty_world PrepareThrows) Hthrows))).
Defined.

Lemma setState_failed_unarchive_witness :
  (setState fx plugin0 "patch" (String.string_of_list_byte container)
     (faulty_world UnarchiveThrows)).2 = Ok plugin0.
Proof.
  assert (Hdir : fAutosavePath plugin0 ≠ "") by discriminate.
  erewrite (setState_failed_unarchive fx plugin0
              (String.string_of_list_byte container)
              (faulty_world UnarchiveThrows));
    [ reflexivity | exact Hdir | vm_compute; lia | vm_compute; reflexivity
      | vm_compute; reflexivity | vm_compute; reflexivity
      | vm_compute; reflexivity ].
Defined.

Lemma setState_failed_fopen_witness :
  (setState fx plugin0 "patch" "{} x" (faulty_world OpenFails)).2 = Ok plugin0.
Proof.
  assert (Hdir : fAutosavePath plugin0 ≠ "") by discriminate.
  erewrite (setState_failed_fopen fx plugin0 "{} x" (faulty_world OpenFails));
    [ reflexivity | exact Hdir | vm_compute; lia | vm_compute; reflexivity
      | vm_compute; reflexivity | vm_compute; reflexivity
      | vm_compute; reflexivity ].
Defined.

Lemma setState_failed_load_witness :
  (setState fx plugin0 "patch" (String.string_of_list_byte container)
     (faulty_world LoadThrows)).2 = Ok plugin0.
Proof.
  assert (Hdir : fAutosavePath plugin0 ≠ "") by discriminate.
  erewrite (setState_failed_load fx plugin0
              (String.string_of_list_byte container) (faulty_world LoadThrows));
    [ reflexivity | exact Hdir | vm_compute; lia | vm_compute; reflexivity
      | vm_compute; reflexivity | vm_compute; reflexivity
      | vm_compute; reflexivity | vm_compute; reflexivity ].
Defined.

End FaultExamples.
